(** * MinesweeperAI: the board state machine and the two-tier inference agent

    A shallow embedding of [minesweeper_ai.py]: the [Board] class (mine
    placement, flood-fill reveal, flags, win and loss detection), the
    single-point agent [Phase1Agent] and the constraint-enumerating agent
    [Phase2Agent], followed by the properties of the specification. *)

From Stdlib Require Import ZArith Lia QArith.
From stdpp Require Import base option list relations sorting gmap sets strings pretty.

Local Open Scope Z_scope.

(** ** Python primitives *)

(** Exceptions the modelled code can raise, and [OutOfFuel] for a loop
    of the model that was given too little fuel. *)
Inductive error : Type :=
  | AssertionError
  | IndexError
  | KeyError
  | OutOfFuel.

Inductive res (A : Type) : Type :=
  | Ok (a : A)
  | Fail (e : error).
Arguments Ok {A} a.
Arguments Fail {A} e.

#[global] Instance res_ret : MRet res := fun A a => Ok a.
#[global] Instance res_bind : MBind res := fun A B k m =>
  match m with
  | Ok a => k a
  | Fail e => Fail e
  end.

(** [Coord = Tuple[int, int]] *)
Abbreviation Coord := (Z * Z)%type.

(** [l[i]]: a negative index counts from the end, anything outside
    [-len, len) raises IndexError. *)
Definition py_get {A : Type} (l : list A) (i : Z) : res A :=
  let n := Z.of_nat (length l) in
  let j := if i <? 0 then i + n else i in
  if (0 <=? j) && (j <? n) then
    match l !! Z.to_nat j with
    | Some x => Ok x
    | None => Fail IndexError
    end
  else Fail IndexError.

(** [l[i] = x]. *)
Definition py_set {A : Type} (l : list A) (i : Z) (x : A) : res (list A) :=
  let n := Z.of_nat (length l) in
  let j := if i <? 0 then i + n else i in
  if (0 <=? j) && (j <? n) then Ok (<[Z.to_nat j := x]> l)
  else Fail IndexError.

(** [g[r][c]] and [g[r][c] = x] on a list of rows. *)
Definition grid_get {A : Type} (g : list (list A)) (p : Coord) : res A :=
  row ← py_get g (fst p); py_get row (snd p).

Definition grid_set {A : Type} (g : list (list A)) (p : Coord) (x : A)
  : res (list (list A)) :=
  row ← py_get g (fst p);
  row' ← py_set row (snd p) x;
  py_set g (fst p) row'.

(** [[[x]*cols for _ in range(rows)]]. *)
Definition grid_make {A : Type} (rows cols : Z) (x : A) : list (list A) :=
  replicate (Z.to_nat rows) (replicate (Z.to_nat cols) x).

(** [range(n)]. *)
Definition range (n : Z) : list Z := Z.of_nat <$> seq 0 (Z.to_nat n).

(** [[(r,c) for r in range(rows) for c in range(cols)]]. *)
Definition all_cells (rows cols : Z) : list Coord :=
  r ← range rows; c ← range cols; [(r, c)].

(** [sum(1 for x in l if f x)]. *)
Definition count {A : Type} (f : A -> bool) (l : list A) : Z :=
  Z.of_nat (length (filter (fun x => f x = true) l)).

(** A list comprehension [[x for x in l if f x]] whose condition can raise. *)
Fixpoint filter_res {A : Type} (f : A -> res bool) (l : list A) : res (list A) :=
  match l with
  | [] => Ok []
  | x :: l' =>
      keep ← f x;
      tl ← filter_res f l';
      Ok (if keep : bool then x :: tl else tl)
  end.

(** ** Environment: [class Board] *)

Record Board : Type := mkBoard {
  rows : Z;
  cols : Z;
  mines_count : Z;
  _mine : list (list bool);
  _revealed : list (list bool);
  _flagged : list (list bool);
  _adj : list (list Z);
  _game_over : bool;
  _win_cached : option bool
}.

Definition set_revealed (b : Board) (g : list (list bool)) : Board :=
  mkBoard (rows b) (cols b) (mines_count b) (_mine b) g (_flagged b)
          (_adj b) (_game_over b) (_win_cached b).

Definition set_flagged (b : Board) (g : list (list bool)) : Board :=
  mkBoard (rows b) (cols b) (mines_count b) (_mine b) (_revealed b) g
          (_adj b) (_game_over b) (_win_cached b).

Definition set_over (b : Board) (win : bool) : Board :=
  mkBoard (rows b) (cols b) (mines_count b) (_mine b) (_revealed b)
          (_flagged b) (_adj b) true (Some win).

Definition in_bounds (b : Board) (p : Coord) : bool :=
  (0 <=? fst p) && (fst p <? rows b) && (0 <=? snd p) && (snd p <? cols b).

Definition offsets : list Z := [-1; 0; 1].

Definition neighbors (b : Board) (p : Coord) : list Coord :=
  dr ← offsets; dc ← offsets;
  if (dr =? 0) && (dc =? 0) then []
  else if in_bounds b (fst p + dr, snd p + dc)
       then [(fst p + dr, snd p + dc)] else [].

Definition is_mine (b : Board) (p : Coord) : res bool := grid_get (_mine b) p.
Definition adj (b : Board) (p : Coord) : res Z := grid_get (_adj b) p.
Definition revealed (b : Board) (p : Coord) : res bool := grid_get (_revealed b) p.
Definition flagged (b : Board) (p : Coord) : res bool := grid_get (_flagged b) p.
Definition game_over (b : Board) : bool := _game_over b.
(** [bool(self._win_cached)]: [None] and [False] are both falsy. *)
Definition won (b : Board) : bool := default false (_win_cached b).

(** [a or b] and [a and b] evaluate [b] only when [a] does not decide. *)
Definition or_res (a : bool) (k : res bool) : res bool :=
  if a then Ok true else k.
Definition and_res (a : bool) (k : res bool) : res bool :=
  if a then k else Ok false.

(** [not self._revealed[r][c] and not self._flagged[r][c]]. *)
Definition is_covered (b : Board) (p : Coord) : res bool :=
  rv ← revealed b p;
  and_res (negb rv) (fl ← flagged b p; Ok (negb fl)).

Definition covered_cells (b : Board) : res (list Coord) :=
  filter_res (is_covered b) (all_cells (rows b) (cols b)).

Definition flag (b : Board) (p : Coord) : res Board :=
  stop ← or_res (_game_over b) (revealed b p);
  if stop : bool then Ok b
  else g ← grid_set (_flagged b) p true; Ok (set_flagged b g).

Definition unflag (b : Board) (p : Coord) : res Board :=
  if _game_over b then Ok b
  else g ← grid_set (_flagged b) p false; Ok (set_flagged b g).

(** One iteration of the [while q:] loop of [_reveal_region], for the
    popped cell [p] and the rest [q] of the queue. *)
Definition _reveal_region_step (b : Board) (p : Coord) (q : list Coord)
  : res (Board * list Coord) :=
  rv ← revealed b p;
  skip ← or_res rv (flagged b p);
  if skip : bool then Ok (b, q)
  else
    g ← grid_set (_revealed b) p true;
    let b' := set_revealed b g in
    a ← adj b' p;
    if a =? 0 then
      nbs ← filter_res (is_covered b') (neighbors b' p);
      Ok (b', q ++ nbs)
    else Ok (b', q).

Fixpoint _reveal_region_loop (fuel : nat) (b : Board) (q : list Coord)
  : res Board :=
  match q with
  | [] => Ok b
  | p :: q' =>
      match fuel with
      | O => Fail OutOfFuel
      | S fuel' =>
          '(b', q'') ← _reveal_region_step b p q';
          _reveal_region_loop fuel' b' q''
      end
  end.

(** Every iteration either drops a queue entry or reveals a cell and
    adds at most eight entries, so nine rounds per cell are enough. *)
Definition region_fuel (b : Board) : nat :=
  S (9 * length (concat (_revealed b))).

Definition _reveal_region (b : Board) (start : Coord) : res Board :=
  _reveal_region_loop (region_fuel b) b [start].

(** The double loop of [_check_win] returns at the first unrevealed
    cell that is not a mine. *)
Definition unrevealed_safe (b : Board) (p : Coord) : res bool :=
  m ← is_mine b p;
  and_res (negb m) (rv ← revealed b p; Ok (negb rv)).

Fixpoint any_res {A : Type} (f : A -> res bool) (l : list A) : res bool :=
  match l with
  | [] => Ok false
  | x :: l' => hit ← f x; if hit : bool then Ok true else any_res f l'
  end.

Definition _check_win (b : Board) : res Board :=
  if _game_over b then Ok b
  else
    pending ← any_res (unrevealed_safe b) (all_cells (rows b) (cols b));
    if pending : bool then Ok b else Ok (set_over b true).

(** [reveal] returns the board it leaves behind and its [alive] result. *)
Definition reveal (b : Board) (p : Coord) : res (Board * bool) :=
  ignore ← or_res (_game_over b) (flagged b p);
  if ignore : bool then Ok (b, true)
  else
    rv ← revealed b p;
    if rv : bool then Ok (b, true)
    else
      m ← is_mine b p;
      if m : bool then
        g ← grid_set (_revealed b) p true;
        Ok (set_over (set_revealed b g) false, false)
      else
        b1 ← _reveal_region b p;
        b2 ← _check_win b1;
        Ok (b2, true).

(** ** The random source

    [random.Random] is Python's library generator.  The model takes a
    generator as an interface: a state, seeding, and the two draws the
    program makes, with what the library promises about them. *)
Class PyRandom : Type := {
  Rng : Type;
  (** [random.Random(seed)] *)
  Random : Z -> Rng;
  (** [rng.shuffle(cells)]: the shuffled list and the next state *)
  shuffle : Rng -> list Coord -> list Coord * Rng;
  (** [rng.choice(seq)]: IndexError on an empty sequence *)
  choice : Rng -> list Coord -> res (Coord * Rng);
  shuffle_perm : forall g l, fst (shuffle g l) ≡ₚ l;
  choice_elem : forall g l, l <> [] ->
    exists x g', choice g l = Ok (x, g') /\ x ∈ l
}.

(** A small generator of the interface: the state is a counter, a
    shuffle rotates the list by it and a choice indexes with it. *)
Definition rotate_cells (n : nat) (l : list Coord) : list Coord :=
  drop (n `mod` length l)%nat l ++ take (n `mod` length l)%nat l.

Definition counter_choice (n : nat) (l : list Coord) : res (Coord * nat) :=
  match l !! (n `mod` length l)%nat with
  | Some x => Ok (x, S n)
  | None => Fail IndexError
  end.

(** The counter generator is a random source. *)
Definition counter_random : PyRandom := {|
  Rng := nat;
  Random := Z.to_nat;
  shuffle := fun n l => (rotate_cells n l, S n);
  choice := counter_choice;
  shuffle_perm := fun n l =>
    ltac:(unfold rotate_cells; simpl; rewrite Permutation_app_comm;
          by rewrite take_drop);
  choice_elem := fun n l (Hl : l <> []) =>
    ltac:(unfold counter_choice;
          assert (Hlt : (n `mod` length l < length l)%nat)
            by (apply Nat.mod_upper_bound; destruct l; [done | simpl; lia]);
          apply lookup_lt_is_Some in Hlt as [x Hx]; rewrite Hx;
          exists x, (S n); split; [done|]; by eapply list_elem_of_lookup_2)
|}.

(** ** [Board.__init__] *)

Definition set_mine (b : Board) (g : list (list bool)) : Board :=
  mkBoard (rows b) (cols b) (mines_count b) g (_revealed b) (_flagged b)
          (_adj b) (_game_over b) (_win_cached b).

Definition set_adj (b : Board) (g : list (list Z)) : Board :=
  mkBoard (rows b) (cols b) (mines_count b) (_mine b) (_revealed b)
          (_flagged b) g (_game_over b) (_win_cached b).

(** [for (r,c) in cells[:mines]: self._mine[r][c] = True] *)
Fixpoint place_mines (g : list (list bool)) (cells : list Coord)
  : res (list (list bool)) :=
  match cells with
  | [] => Ok g
  | p :: cells' => g' ← grid_set g p true; place_mines g' cells'
  end.

(** The body of the double loop that fills [_adj]. *)
Definition adj_cell (b : Board) (p : Coord) : res Board :=
  m ← is_mine b p;
  if m : bool then g ← grid_set (_adj b) p (-1); Ok (set_adj b g)
  else
    ms ← filter_res (is_mine b) (neighbors b p);
    g ← grid_set (_adj b) p (Z.of_nat (length ms));
    Ok (set_adj b g).

Fixpoint fill_adj (b : Board) (cells : list Coord) : res Board :=
  match cells with
  | [] => Ok b
  | p :: cells' => b' ← adj_cell b p; fill_adj b' cells'
  end.

(** [Board(rows, cols, mines, seed)] with the generator [rng] that
    [random.Random(seed)] made. *)
Definition Board_init `{PyRandom} (rows cols mines : Z) (rng : Rng)
  : res Board :=
  if negb ((1 <=? mines) && (mines <? rows * cols)) then Fail AssertionError
  else
    let cells := fst (shuffle rng (all_cells rows cols)) in
    g ← place_mines (grid_make rows cols false) (take (Z.to_nat mines) cells);
    fill_adj (mkBoard rows cols mines g (grid_make rows cols false)
                      (grid_make rows cols false) (grid_make rows cols 0)
                      false None)
             (all_cells rows cols).

(** ** Agents *)

(** [("flag", p)] and [("reveal", p)]. *)
Inductive Action : Type :=
  | act_flag (p : Coord)
  | act_reveal (p : Coord).

(** The dictionary of [state_for_agent]: [numbers] keeps its insertion
    order, which [numbers.items()] follows. *)
Record AgentView : Type := mkView {
  numbers : list (Coord * Z);
  covered : gset Coord;
  flagged_cells : gset Coord
}.

(** [d[k] = v] on an insertion-ordered dictionary. *)
Fixpoint dict_set {V : Type} (d : list (Coord * V)) (k : Coord) (v : V)
  : list (Coord * V) :=
  match d with
  | [] => [(k, v)]
  | (k', v') :: d' =>
      if decide (k' = k) then (k', v) :: d' else (k', v') :: dict_set d' k v
  end.

(** [d[k]]. *)
Fixpoint dict_get {V : Type} (d : list (Coord * V)) (k : Coord) : res V :=
  match d with
  | [] => Fail KeyError
  | (k', v') :: d' => if decide (k' = k) then Ok v' else dict_get d' k
  end.

Definition view_cell (b : Board) (st : AgentView) (p : Coord) : res AgentView :=
  fl ← flagged b p;
  if fl : bool then Ok (mkView (numbers st) (covered st) ({[p]} ∪ flagged_cells st))
  else
    rv ← revealed b p;
    if rv : bool then
      a ← adj b p;
      Ok (mkView (dict_set (numbers st) p a) (covered st) (flagged_cells st))
    else Ok (mkView (numbers st) ({[p]} ∪ covered st) (flagged_cells st)).

Fixpoint view_cells (b : Board) (st : AgentView) (cells : list Coord)
  : res AgentView :=
  match cells with
  | [] => Ok st
  | p :: cells' => st' ← view_cell b st p; view_cells b st' cells'
  end.

Definition state_for_agent (b : Board) : res AgentView :=
  view_cells b (mkView [] ∅ ∅) (all_cells (rows b) (cols b)).

(** [neighbor_buckets]: the covered neighbours, the flagged neighbours
    and the number on the cell. *)
Fixpoint bucket (st : AgentView) (nbs : list Coord) : list Coord * list Coord :=
  match nbs with
  | [] => ([], [])
  | nb :: nbs' =>
      let '(cov, flg) := bucket st nbs' in
      if decide (nb ∈ flagged_cells st) then (cov, nb :: flg)
      else if decide (nb ∈ covered st) then (nb :: cov, flg)
      else (cov, flg)
  end.

Definition neighbor_buckets (b : Board) (cell : Coord) (st : AgentView)
  : res (list Coord * list Coord * Z) :=
  let '(cov, flg) := bucket st (neighbors b cell) in
  n ← dict_get (numbers st) cell;
  Ok (cov, flg, n).

Definition len {A : Type} (l : list A) : Z := Z.of_nat (length l).

(** The test of the certain-mine pass and of the certain-safe pass. *)
Definition mine_rule (cov flg : list Coord) (n : Z) : bool :=
  let remaining := n - len flg in
  (remaining =? len cov) && (len cov >? 0).

Definition safe_rule (cov flg : list Coord) (n : Z) : bool :=
  (n =? len flg) && (len cov >? 0).

(** One [for cell, num in numbers.items()] pass that returns [cov[0]] at
    the first cell passing [rule]. *)
Fixpoint sp_pass (rule : list Coord -> list Coord -> Z -> bool)
    (b : Board) (st : AgentView) (items : list (Coord * Z))
  : res (option Coord) :=
  match items with
  | [] => Ok None
  | (cell, num) :: items' =>
      '(cov, flg, n) ← neighbor_buckets b cell st;
      if rule cov flg n then c ← py_get cov 0; Ok (Some c)
      else sp_pass rule b st items'
  end.

(** [Phase1Agent]: its generator and [_last_move_was_logic]. *)
Record Agent `{PyRandom} : Type := mkAgent {
  agent_rng : Rng;
  _last_move_was_logic : bool
}.

Definition Phase1Agent_init `{PyRandom} (seed : Z) : Agent :=
  mkAgent _ (Random seed) false.

(** [Phase1Agent.choose_action].  [list(covered)] lists a set, in an
    order Python leaves open; the model lists it with [elements]. *)
Definition Phase1_choose_action `{PyRandom} (ag : Agent) (b : Board)
  : res (option Action * Agent) :=
  st ← state_for_agent b;
  m ← sp_pass mine_rule b st (numbers st);
  match m with
  | Some p => Ok (Some (act_flag p), mkAgent _ (agent_rng ag) true)
  | None =>
      s ← sp_pass safe_rule b st (numbers st);
      match s with
      | Some p => Ok (Some (act_reveal p), mkAgent _ (agent_rng ag) true)
      | None =>
          if decide (covered st = ∅) then Ok (None, ag)
          else
            '(p, g) ← choice (agent_rng ag) (elements (covered st));
            Ok (Some (act_reveal p), mkAgent _ g false)
      end
  end.

(** [AgentOutcome]: the counters [play_game] returns. *)
Record AgentOutcome : Type := mkOutcome {
  logic_moves : Z;
  guess_moves : Z;
  flags_set : Z
}.

(** The [while not board.game_over()] loop of [Phase1Agent.play_game];
    every round flags or reveals a covered cell, and [fuel] bounds the
    rounds of the model. *)
Fixpoint play_loop `{PyRandom} (fuel : nat) (ag : Agent) (b : Board)
    (out : AgentOutcome) : res (AgentOutcome * Agent * Board) :=
  if _game_over b then Ok (out, ag, b)
  else
    match fuel with
    | O => Fail OutOfFuel
    | S fuel' =>
        '(action, ag1) ← Phase1_choose_action ag b;
        match action with
        | None => Ok (out, ag1, b)
        | Some (act_flag p) =>
            b' ← flag b p;
            play_loop fuel' ag1 b'
              (mkOutcome (logic_moves out + 1) (guess_moves out)
                         (flags_set out + 1))
        | Some (act_reveal p) =>
            '(b', success) ← reveal b p;
            let out' :=
              if _last_move_was_logic ag1
              then mkOutcome (logic_moves out + 1) (guess_moves out) (flags_set out)
              else mkOutcome (logic_moves out) (guess_moves out + 1) (flags_set out) in
            if success : bool then play_loop fuel' ag1 b' out'
            else Ok (out', ag1, b')
        end
    end.

(** [Phase1Agent.play_game]: the first click on (0,0) when nothing is
    revealed yet, then the loop. *)
Definition play_game `{PyRandom} (fuel : nat) (ag : Agent) (b : Board)
  : res (AgentOutcome * Agent * Board) :=
  seen ← any_res (revealed b) (all_cells (rows b) (cols b));
  b1 ← (if seen : bool then Ok b else '(b', _) ← reveal b (0, 0); Ok b');
  play_loop fuel ag b1 (mkOutcome 0 0 0).

(** ** [Phase2Agent]: frontier, components and the enumerator *)

(** The frontier and [constraint_cells], one numbered cell at a time. *)
Fixpoint build_frontier (b : Board) (st : AgentView) (items : list (Coord * Z))
    (frontier : gset Coord) (cc : list (Coord * list Coord))
  : res (gset Coord * list (Coord * list Coord)) :=
  match items with
  | [] => Ok (frontier, cc)
  | (cell, n) :: items' =>
      '(cov, flg, nval) ← neighbor_buckets b cell st;
      match cov with
      | [] => build_frontier b st items' frontier cc
      | _ => build_frontier b st items' (frontier ∪ list_to_set cov)
                            (dict_set cc cell cov)
      end
  end.

(** [adj] is a [defaultdict(set)]: a missing key reads as the empty set. *)
Definition adj_of (g : gmap Coord (gset Coord)) (x : Coord) : gset Coord :=
  default ∅ (g !! x).

(** [adj[a].add(b); adj[b].add(a)] *)
Definition add_edge (g : gmap Coord (gset Coord)) (a b : Coord)
  : gmap Coord (gset Coord) :=
  let g1 := <[a := adj_of g a ∪ {[b]}]> g in
  <[b := adj_of g1 b ∪ {[a]}]> g1.

(** The loops over [i < j] of one constraint's covered neighbours. *)
Fixpoint link_pairs (g : gmap Coord (gset Coord)) (covs : list Coord)
  : gmap Coord (gset Coord) :=
  match covs with
  | [] => g
  | a :: rest => link_pairs (foldl (fun m b => add_edge m a b) g rest) rest
  end.

Definition build_adj (cc : list (Coord * list Coord)) : gmap Coord (gset Coord) :=
  foldl (fun g item => link_pairs g (snd item)) ∅ cc.

(** [for y in adj[x]: if y not in visited: ...]; the stack [q] is kept
    with its top first, so [q.append(y)] is a cons and [q.pop()] takes
    the head. *)
Definition visit_nbr (s : gset Coord * gset Coord * list Coord) (y : Coord)
  : gset Coord * gset Coord * list Coord :=
  let '(visited, comp, q) := s in
  if decide (y ∈ visited) then s
  else ({[y]} ∪ visited, {[y]} ∪ comp, y :: q).

Fixpoint component_loop (fuel : nat) (g : gmap Coord (gset Coord))
    (visited comp : gset Coord) (q : list Coord)
  : res (gset Coord * gset Coord) :=
  match q with
  | [] => Ok (visited, comp)
  | x :: q' =>
      match fuel with
      | O => Fail OutOfFuel
      | S fuel' =>
          let '(visited', comp', q'') :=
            foldl visit_nbr (visited, comp, q') (elements (adj_of g x)) in
          component_loop fuel' g visited' comp' q''
      end
  end.

(** [for v in frontier: ...; components.append(comp)] *)
Fixpoint components_loop (fuel : nat) (g : gmap Coord (gset Coord))
    (vs : list Coord) (visited : gset Coord) (components : list (gset Coord))
  : res (list (gset Coord)) :=
  match vs with
  | [] => Ok components
  | v :: vs' =>
      if decide (v ∈ visited) then components_loop fuel g vs' visited components
      else
        '(visited', comp) ← component_loop fuel g ({[v]} ∪ visited) {[v]} [v];
        components_loop fuel g vs' visited' (components ++ [comp])
  end.

(** The traversal of all components.  [for v in frontier] follows
    [elements]; every cell is pushed at most once, so one round per
    frontier cell and one more are enough fuel for each [while q:]. *)
Definition connected_components (g : gmap Coord (gset Coord))
    (frontier : gset Coord) : res (list (gset Coord)) :=
  components_loop (S (size frontier)) g (elements frontier) ∅ [].

Definition Constraint : Type := (gset Coord * Z)%type.

(** What the local-constraint loop does with one numbered cell. *)
Inductive lc_outcome : Type :=
  | lc_no_vars
  | lc_outside
  | lc_kept (c : Constraint).

Definition local_constraint_of (comp_set : gset Coord)
    (cov flg : list Coord) (nreq : Z) : lc_outcome :=
  let vars_in_comp : gset Coord :=
    list_to_set (filter (fun v => v ∈ comp_set) cov) in
  if decide (vars_in_comp = ∅) then lc_no_vars
  else
    let required := nreq - len flg in
    let outside := filter (fun v => v ∉ comp_set) cov in
    match outside with
    | [] => lc_kept (vars_in_comp, required)
    | _ => lc_outside
    end.

Fixpoint local_constraints_loop (b : Board) (st : AgentView)
    (comp_set : gset Coord) (items : list (Coord * Z)) (acc : list Constraint)
  : res (list Constraint) :=
  match items with
  | [] => Ok acc
  | (num_cell, nval) :: items' =>
      '(cov, flg, nreq) ← neighbor_buckets b num_cell st;
      match local_constraint_of comp_set cov flg nreq with
      | lc_kept c => local_constraints_loop b st comp_set items' (acc ++ [c])
      | _ => local_constraints_loop b st comp_set items' acc
      end
  end.

Definition build_local_constraints (b : Board) (st : AgentView)
    (comp : gset Coord) : res (list Constraint) :=
  local_constraints_loop b st comp (numbers st) [].

(** *** The backtracking enumerator *)

Record EnumState : Type := mkEnum {
  assign : gmap Coord bool;
  counts : gmap Coord (Z * Z);
  total_models : Z
}.

Definition with_assign (s : EnumState) (a : gmap Coord bool) : EnumState :=
  mkEnum a (counts s) (total_models s).

Definition map_get {V : Type} (m : gmap Coord V) (k : Coord) : res V :=
  match m !! k with
  | Some v => Ok v
  | None => Fail KeyError
  end.

(** [[assign[v] for v in varset if v in assign]] *)
Definition assigned_in (a : gmap Coord bool) (varset : gset Coord) : list bool :=
  omap (fun v => a !! v) (elements varset).

Definition valid_constraint (a : gmap Coord bool) (c : Constraint) : bool :=
  let '(varset, req) := c in
  let assigned := assigned_in a varset in
  if count id assigned >? req then false
  else
    let remaining := Z.of_nat (size varset) - len assigned in
    let min_possible := count id assigned in
    let max_possible := min_possible + remaining in
    if max_possible <? req then false else true.

Definition valid_partial (local_constraints : list Constraint)
    (a : gmap Coord bool) : bool :=
  forallb (valid_constraint a) local_constraints.

(** [sum(1 for v in varset if assign[v])] *)
Definition mines_assigned (a : gmap Coord bool) (varset : gset Coord) : res Z :=
  ms ← filter_res (map_get a) (elements varset); Ok (len ms).

(** The loop over the hard constraints at a full assignment. *)
Fixpoint hard_constraints_ok (local_constraints : list Constraint)
    (a : gmap Coord bool) : res bool :=
  match local_constraints with
  | [] => Ok true
  | (varset, req) :: rest =>
      m ← mines_assigned a varset;
      if m =? req then hard_constraints_ok rest a else Ok false
  end.

(** [if assign[v]: counts[v][0] += 1] and [counts[v][1] += 1] *)
Definition tally (a : gmap Coord bool) (cs : gmap Coord (Z * Z)) (v : Coord)
  : res (gmap Coord (Z * Z)) :=
  mine ← map_get a v;
  '(mc, tc) ← map_get cs v;
  Ok (<[v := (if mine : bool then mc + 1 else mc, tc + 1)]> cs).

Fixpoint tally_all (a : gmap Coord bool) (cs : gmap Coord (Z * Z))
    (vars : list Coord) : res (gmap Coord (Z * Z)) :=
  match vars with
  | [] => Ok cs
  | v :: vars' => cs' ← tally a cs v; tally_all a cs' vars'
  end.

(** [dfs(i)], by recursion on [vars_list[i:]]: the empty rest is the
    case [i == len(vars_list)]. *)
Fixpoint dfs (local_constraints : list Constraint) (vars_list : list Coord)
    (rest : list Coord) (s : EnumState) : res EnumState :=
  match rest with
  | [] =>
      ok ← hard_constraints_ok local_constraints (assign s);
      if ok : bool then
        cs ← tally_all (assign s) (counts s) vars_list;
        Ok (mkEnum (assign s) cs (total_models s + 1))
      else Ok s
  | v :: rest' =>
      let s1 := with_assign s (<[v := true]> (assign s)) in
      s2 ← (if valid_partial local_constraints (assign s1)
            then dfs local_constraints vars_list rest' s1 else Ok s1);
      let s3 := with_assign s2 (<[v := false]> (assign s2)) in
      s4 ← (if valid_partial local_constraints (assign s3)
            then dfs local_constraints vars_list rest' s3 else Ok s3);
      match assign s4 !! v with
      | Some _ => Ok (with_assign s4 (delete v (assign s4)))
      | None => Fail KeyError
      end
  end.

(** [counts = {v: [0,0] for v in vars_list}] *)
Definition init_counts (vars_list : list Coord) : gmap Coord (Z * Z) :=
  list_to_map ((fun v => (v, (0, 0))) <$> vars_list).

Definition enumerate (local_constraints : list Constraint)
    (vars_list : list Coord) : res EnumState :=
  dfs local_constraints vars_list vars_list
      (mkEnum ∅ (init_counts vars_list) 0).

(** [p = mine_count / total]: a quotient of two counts, kept exact; the
    tests [p == 0.0], [p == 1.0] and [p < best_prob] read the same on the
    exact quotients as on their floating-point values for counts up to
    [2 ^ 14]. *)
Definition prob (mine_count total : Z) : Q := mine_count # Z.to_pos total.

(** [best_cell], [best_prob], [certain_flag] and [certain_safe]. *)
Record Search : Type := mkSearch {
  best_cell : option Coord;
  best_prob : Q;
  certain_flag : option Coord;
  certain_safe : option Coord
}.

(** The body of [for v in vars_list] after a component's enumeration. *)
Definition rate_var (cs : gmap Coord (Z * Z)) (s : Search) (v : Coord)
  : res Search :=
  '(mine_count, total) ← map_get cs v;
  let p := prob mine_count total in
  let s1 :=
    if Qeq_bool p 0 then
      mkSearch (best_cell s) (best_prob s) (certain_flag s) (Some v)
    else if Qeq_bool p 1 then
      mkSearch (best_cell s) (best_prob s) (Some v) (certain_safe s)
    else s in
  Ok (if negb (Qle_bool (best_prob s1) p)
      then mkSearch (Some v) p (certain_flag s1) (certain_safe s1)
      else s1).

Fixpoint rate_vars (cs : gmap Coord (Z * Z)) (s : Search) (vars : list Coord)
  : res Search :=
  match vars with
  | [] => Ok s
  | v :: vars' => s' ← rate_var cs s v; rate_vars cs s' vars'
  end.

(** [for comp in components: ...] with its [continue]s and its [break]. *)
Fixpoint eval_components (max_component_size : Z) (b : Board) (st : AgentView)
    (comps : list (gset Coord)) (s : Search) : res Search :=
  match comps with
  | [] => Ok s
  | comp :: comps' =>
      if Z.of_nat (size comp) >? max_component_size
      then eval_components max_component_size b st comps' s
      else
        lcs ← build_local_constraints b st comp;
        match lcs with
        | [] => eval_components max_component_size b st comps' s
        | _ =>
            let vars_list := elements comp in
            e ← enumerate lcs vars_list;
            if total_models e =? 0
            then eval_components max_component_size b st comps' s
            else
              s' ← rate_vars (counts e) s vars_list;
              if bool_decide (is_Some (certain_flag s')) || bool_decide (is_Some (certain_safe s'))
              then Ok s'
              else eval_components max_component_size b st comps' s'
        end
  end.

(** [Phase2Agent.choose_action].  [glob] is the state of the module-level
    generator behind [random.choice]; the agent's own generator is part
    of [ag]. *)
Definition Phase2_choose_action `{PyRandom} (max_component_size : Z)
    (ag : Agent) (glob : Rng) (b : Board)
  : res (option Action * Agent * Rng) :=
  '(action, ag1) ← Phase1_choose_action ag b;
  match action with
  | None => Ok (None, ag1, glob)
  | Some (act_flag p) => Ok (action, ag1, glob)
  | Some (act_reveal p) =>
      if _last_move_was_logic ag1 then Ok (action, ag1, glob)
      else
        st ← state_for_agent b;
        if decide (covered st = ∅) then Ok (None, ag1, glob)
        else
          '(frontier, constraint_cells) ←
            build_frontier b st (numbers st) ∅ [];
          if decide (frontier = ∅) then
            '(c, glob') ← choice glob (elements (covered st));
            Ok (Some (act_reveal c), mkAgent _ (agent_rng ag1) false, glob')
          else
            let g := build_adj constraint_cells in
            components ← connected_components g frontier;
            s ← eval_components max_component_size b st components
                  (mkSearch None (11 # 10) None None);
            match certain_flag s, certain_safe s, best_cell s with
            | Some c, _, _ =>
                Ok (Some (act_flag c), mkAgent _ (agent_rng ag1) true, glob)
            | None, Some c, _ =>
                Ok (Some (act_reveal c), mkAgent _ (agent_rng ag1) true, glob)
            | None, None, Some c =>
                Ok (Some (act_reveal c), mkAgent _ (agent_rng ag1) false, glob)
            | None, None, None =>
                '(c, glob') ← choice glob (elements (covered st));
                Ok (Some (act_reveal c), mkAgent _ (agent_rng ag1) false, glob')
            end
  end.

Definition Phase2Agent_init `{PyRandom} (seed : Z) : Agent :=
  Phase1Agent_init seed.

(** ** Vocabulary of the properties *)

Definition grid_dims {A : Type} (R C : Z) (g : list (list A)) : Prop :=
  length g = Z.to_nat R /\ Forall (fun row => length row = Z.to_nat C) g.

Definition inb (R C : Z) (p : Coord) : Prop :=
  0 <= fst p < R /\ 0 <= snd p < C.

(** The value of a read that is known not to raise. *)
Definition val {A : Type} (d : A) (r : res A) : A :=
  match r with
  | Ok x => x
  | Fail _ => d
  end.

Definition mineb (b : Board) (p : Coord) : bool := val false (is_mine b p).
Definition revb (b : Board) (p : Coord) : bool := val false (revealed b p).
Definition flgb (b : Board) (p : Coord) : bool := val false (flagged b p).
Definition adjz (b : Board) (p : Coord) : Z := val 0 (adj b p).

Definition on_board (b : Board) (p : Coord) : Prop := inb (rows b) (cols b) p.

(** A board as [__init__] builds it and the operations keep it: four
    grids of the board's size and the precomputed adjacency counts. *)
Record wf_board (b : Board) : Prop := mk_wf {
  wf_mine : grid_dims (rows b) (cols b) (_mine b);
  wf_revealed : grid_dims (rows b) (cols b) (_revealed b);
  wf_flagged : grid_dims (rows b) (cols b) (_flagged b);
  wf_adj_dims : grid_dims (rows b) (cols b) (_adj b);
  wf_adj : forall p, on_board b p ->
    adjz b p = if mineb b p then -1 else count (mineb b) (neighbors b p)
}.

(** [covb b p]: the cell is neither revealed nor flagged. *)
Definition covb (b : Board) (p : Coord) : bool := negb (revb b p) && negb (flgb b p).

(** Two boards that differ at most in which cells are revealed. *)
Definition same_hidden (b b' : Board) : Prop :=
  rows b' = rows b /\ cols b' = cols b /\ mines_count b' = mines_count b /\
  _mine b' = _mine b /\ _flagged b' = _flagged b /\ _adj b' = _adj b /\
  _game_over b' = _game_over b /\ _win_cached b' = _win_cached b.

(** The number of cells of the board that are not revealed. *)
Definition unrevealed_count (b : Board) : nat :=
  length (filter (fun p => revb b p = false) (all_cells (rows b) (cols b))).

(** [newly b0 b x]: the cell was revealed between [b0] and [b]. *)
Definition newly (b0 b : Board) (x : Coord) : Prop :=
  revb b0 x = false /\ revb b x = true.

(** A cell that still stands between the player and the win. *)
Definition pendingb (b : Board) (p : Coord) : bool :=
  negb (mineb b p) && negb (revb b p).

(** The three states of the game, read off [_game_over] and [won]. *)
Inductive Status : Type := InProgress | Lost | Won.

Definition status (b : Board) : Status :=
  if _game_over b then (if won b then Won else Lost) else InProgress.

(** One call of the driver on the board, with a coordinate of the grid. *)
Inductive board_step (b b' : Board) : Prop :=
  | step_reveal (p : Coord) (alive : bool) :
      on_board b p -> reveal b p = Ok (b', alive) -> board_step b b'
  | step_flag (p : Coord) :
      on_board b p -> flag b p = Ok b' -> board_step b b'
  | step_unflag (p : Coord) :
      on_board b p -> unflag b p = Ok b' -> board_step b b'.

(** The four grids have the size of the board. *)
Record dims_ok (b : Board) : Prop := mk_dims {
  dims_mine : grid_dims (rows b) (cols b) (_mine b);
  dims_revealed : grid_dims (rows b) (cols b) (_revealed b);
  dims_flagged : grid_dims (rows b) (cols b) (_flagged b);
  dims_adj : grid_dims (rows b) (cols b) (_adj b)
}.

(** The count [__init__] stores for a cell. *)
Definition adj_value (b : Board) (p : Coord) : Z :=
  if mineb b p then -1 else count (mineb b) (neighbors b p).

(** The number of revealed cells that are not mines. *)
Definition revealed_safe_count (b : Board) : Z :=
  count (fun p => revb b p && negb (mineb b p)) (all_cells (rows b) (cols b)).

(** The number of cells for which [is_mine] holds. *)
Definition mine_cells (b : Board) : Z :=
  count (mineb b) (all_cells (rows b) (cols b)).

(** The boards of a game: built by [Board(rows, cols, mines, seed)],
    then driven through [reveal], [flag] and [unflag]. *)
Inductive playable `{PyRandom} : Board -> Prop :=
  | playable_init (R C M : Z) (rng : Rng) (b : Board) :
      Board_init R C M rng = Ok b -> playable b
  | playable_step (b b' : Board) :
      playable b -> board_step b b' -> playable b'.

(** What every board of a game on a grid with at least one row and one
    column satisfies. *)
Record board_inv (b : Board) : Prop := mk_inv {
  inv_wf : wf_board b;
  inv_rows : 0 < rows b;
  inv_cols : 0 < cols b;
  inv_mines : mine_cells b = mines_count b;
  inv_valid : 1 <= mines_count b < rows b * cols b;
  inv_progress : _game_over b = false -> _win_cached b = None;
  inv_won : won b = negb (existsb (pendingb b) (all_cells (rows b) (cols b)))
}.

(** ** Example boards *)

(** A row of seven cells with its mine in the last one, as
    [Board(1, 7, 1, seed=6)] builds it with the counter generator. *)
Definition line7 : Board :=
  mkBoard 1 7 1
    [[false; false; false; false; false; false; true]]
    [[false; false; false; false; false; false; false]]
    [[false; false; false; false; false; false; false]]
    [[0; 0; 0; 0; 0; 1; -1]]
    false None.

(** [line7] after the mine was revealed. *)
Definition line7_lost : Board :=
  mkBoard 1 7 1
    [[false; false; false; false; false; false; true]]
    [[false; false; false; false; false; false; true]]
    [[false; false; false; false; false; false; false]]
    [[0; 0; 0; 0; 0; 1; -1]]
    true (Some false).

(** [line7] after [flag (0,1)], [flag (0,3)], [reveal (0,2)],
    [unflag (0,1)] and [unflag (0,3)]: one revealed zero cell between
    covered zero cells, and no flag left. *)
Definition line7_gap : Board :=
  mkBoard 1 7 1
    [[false; false; false; false; false; false; true]]
    [[false; false; true; false; false; false; false]]
    [[false; false; false; false; false; false; false]]
    [[0; 0; 0; 0; 0; 1; -1]]
    false None.

(** [line7_gap] after [reveal (0,0)]. *)
Definition line7_gap_filled : Board :=
  mkBoard 1 7 1
    [[false; false; false; false; false; false; true]]
    [[true; true; true; false; false; false; false]]
    [[false; false; false; false; false; false; false]]
    [[0; 0; 0; 0; 0; 1; -1]]
    false None.

(** The zero region of [start] and its border, flagged cells left out:
    the cells reached from [start] by a chain of neighbours whose cells
    before the last are unflagged zero-adjacency cells. *)
Inductive zero_region (b : Board) (start : Coord) : Coord -> Prop :=
  | zero_region_start : zero_region b start start
  | zero_region_next (x y : Coord) :
      zero_region b start x -> adjz b x = 0 -> flgb b x = false ->
      y ∈ neighbors b x -> zero_region b start y.

(** The same chains through cells that are covered (neither revealed nor
    flagged) when the fill starts. *)
Inductive fill_region (b : Board) (start : Coord) : Coord -> Prop :=
  | fill_region_start : fill_region b start start
  | fill_region_next (x y : Coord) :
      fill_region b start x -> adjz b x = 0 -> covb b x = true ->
      y ∈ neighbors b x -> fill_region b start y.

(** The cells [state_for_agent] puts in [numbers], in the order of its
    double loop: revealed and not flagged. *)
Definition numbered (b : Board) : list Coord :=
  filter (fun p => flgb b p = false /\ revb b p = true)
         (all_cells (rows b) (cols b)).

(** The covered and the flagged neighbours of a cell, in the order of
    [neighbors]. *)
Definition cov_nbrs (b : Board) (cell : Coord) : list Coord :=
  filter (fun x => covb b x = true) (neighbors b cell).

Definition flg_nbrs (b : Board) (cell : Coord) : list Coord :=
  filter (fun x => flgb b x = true) (neighbors b cell).

(** A numbered cell passes a single-point rule. *)
Definition qualifies (rule : list Coord -> list Coord -> Z -> bool)
    (b : Board) (cell : Coord) : bool :=
  rule (cov_nbrs b cell) (flg_nbrs b cell) (adjz b cell).

(** The target of a pass: the first covered neighbour of the first
    numbered cell that passes the rule. *)
Definition sp_choice (rule : list Coord -> list Coord -> Z -> bool)
    (b : Board) : option Coord :=
  cell ← find (qualifies rule b) (numbered b); head (cov_nbrs b cell).

(** [st] is the view of [b] that [state_for_agent] extracts. *)
Record view_of (b : Board) (st : AgentView) : Prop := mk_view_of {
  view_numbers : numbers st = (fun p => (p, adjz b p)) <$> numbered b;
  view_covered : forall p, p ∈ covered st <-> on_board b p /\ covb b p = true;
  view_flagged : forall p, p ∈ flagged_cells st <-> on_board b p /\ flgb b p = true
}.

(** The boards of a game played by the single-point agent: built by
    [Board(rows, cols, mines, seed)], then any cell revealed (the first click, a
    deduced reveal or a guess) or a cell flagged that
    [Phase1Agent.choose_action] returned for the board in progress. *)
Inductive agent_play `{PyRandom} : Board -> Prop :=
  | agent_play_init (R C M : Z) (rng : Rng) (b : Board) :
      Board_init R C M rng = Ok b -> agent_play b
  | agent_play_reveal (b b' : Board) (p : Coord) (alive : bool) :
      agent_play b -> on_board b p -> reveal b p = Ok (b', alive) ->
      agent_play b'
  | agent_play_flag (b b' : Board) (ag ag' : Agent) (p : Coord) :
      agent_play b -> _game_over b = false ->
      Phase1_choose_action ag b = Ok (Some (act_flag p), ag') ->
      flag b p = Ok b' -> agent_play b'.

(** What the agent can rely on: the board is well formed, no mine is
    revealed while the game is in progress, and every flag is on a mine. *)
Record sound_board (b : Board) : Prop := mk_sound {
  sound_wf : wf_board b;
  sound_revealed : _game_over b = false ->
    forall x, on_board b x -> revb b x = true -> mineb b x = false;
  sound_flags : forall x, on_board b x -> flgb b x = true -> mineb b x = true
}.

(** A row of seven cells with its mine in the middle, as
    [Board(1, 7, 1, seed=3)] builds it with the counter generator, after
    the first click on (0,0). *)
Definition line7_mid : Board :=
  mkBoard 1 7 1
    [[false; false; false; true; false; false; false]]
    [[false; false; false; false; false; false; false]]
    [[false; false; false; false; false; false; false]]
    [[0; 0; 1; -1; 1; 0; 0]]
    false None.

Definition line7_mid_open : Board :=
  set_revealed line7_mid [[true; true; true; false; false; false; false]].

(** A set of cells that no edge of the graph leaves. *)
Definition closed_under (g : gmap Coord (gset Coord)) (s : gset Coord) : Prop :=
  forall x y, x ∈ s -> y ∈ adj_of g x -> y ∈ s.

(** ** The brute-force reference of the enumerator

    Every mine/safe assignment of the variables, one by one; a model is
    an assignment in which every constraint has exactly its required
    number of mines. *)
Fixpoint all_assignments (vars : list Coord) : list (gmap Coord bool) :=
  match vars with
  | [] => [∅]
  | v :: vars' =>
      a ← all_assignments vars'; [<[v := true]> a; <[v := false]> a]
  end.

(** The variable is a mine in the assignment. *)
Definition mine_in (a : gmap Coord bool) (v : Coord) : bool :=
  default false (a !! v).

Definition mines_in (a : gmap Coord bool) (varset : gset Coord) : Z :=
  count (mine_in a) (elements varset).

Definition is_model (local_constraints : list Constraint)
    (a : gmap Coord bool) : bool :=
  forallb (fun c : Constraint => mines_in a c.1 =? c.2) local_constraints.

Definition brute_total (local_constraints : list Constraint)
    (vars : list Coord) : Z :=
  count (is_model local_constraints) (all_assignments vars).

Definition brute_mines (local_constraints : list Constraint)
    (vars : list Coord) (v : Coord) : Z :=
  count (fun a => is_model local_constraints a && mine_in a v)
        (all_assignments vars).

(** The models that extend [a] over the variables [rest], counted with
    a further test. *)
Definition extensions (P : gmap Coord bool -> bool) (a : gmap Coord bool)
    (rest : list Coord) : Z :=
  count (fun e => P (a ∪ e)) (all_assignments rest).

Definition get_counts (cs : gmap Coord (Z * Z)) (v : Coord) : Z * Z :=
  default (0, 0) (cs !! v).

(** What the agent sees of [line7_mid_open]. *)
Definition line7_mid_view : AgentView :=
  mkView [((0, 0), 0); ((0, 1), 0); ((0, 2), 1)]
         (list_to_set [(0, 3); (0, 4); (0, 5); (0, 6)]) ∅.

(** Row-major order of cells: by row, then by column. *)
Definition row_major (p q : Coord) : Prop :=
  fst p < fst q \/ (fst p = fst q /\ snd p < snd q).

(** The cell a coordinate of [-rows, rows) x [-cols, cols) indexes: a
    negative index counts from the end. *)
Definition wrap (b : Board) (p : Coord) : Coord :=
  (if fst p <? 0 then fst p + rows b else fst p,
   if snd p <? 0 then snd p + cols b else snd p).

(** The number of revealed mines. *)
Definition revealed_mines (b : Board) : Z :=
  count (fun p => revb b p && mineb b p) (all_cells (rows b) (cols b)).

(** ** [play_game] under dynamic dispatch

    [Phase2Agent] inherits [Phase1Agent.play_game]; the loop calls
    [self.choose_action], which is [Phase2Agent.choose_action] for such
    an agent.  The loop below is the one of [play_loop] with the method
    and the state it threads as parameters. *)
Section Dispatch.
Context {St : Type}.
Variable choose_action : St -> Board -> res (option Action * St).
Variable last_move_was_logic : St -> bool.

Fixpoint play_loop_of (fuel : nat) (st : St) (b : Board) (out : AgentOutcome)
  : res (AgentOutcome * St * Board) :=
  if _game_over b then Ok (out, st, b)
  else
    match fuel with
    | O => Fail OutOfFuel
    | S fuel' =>
        '(action, st1) ← choose_action st b;
        match action with
        | None => Ok (out, st1, b)
        | Some (act_flag p) =>
            b' ← flag b p;
            play_loop_of fuel' st1 b'
              (mkOutcome (logic_moves out + 1) (guess_moves out)
                         (flags_set out + 1))
        | Some (act_reveal p) =>
            '(b', success) ← reveal b p;
            let out' :=
              if last_move_was_logic st1
              then mkOutcome (logic_moves out + 1) (guess_moves out) (flags_set out)
              else mkOutcome (logic_moves out) (guess_moves out + 1) (flags_set out) in
            if success : bool then play_loop_of fuel' st1 b' out'
            else Ok (out', st1, b')
        end
    end.

Definition play_game_of (fuel : nat) (st : St) (b : Board)
  : res (AgentOutcome * St * Board) :=
  seen ← any_res (revealed b) (all_cells (rows b) (cols b));
  b1 ← (if seen : bool then Ok b else '(b', _) ← reveal b (0, 0); Ok b');
  play_loop_of fuel st b1 (mkOutcome 0 0 0).
End Dispatch.

(** [Phase2Agent.choose_action] as the method of the loop: the state of
    a [Phase2Agent] game is the agent and the module-level generator. *)
Definition Phase2_choose `{PyRandom} (max_component_size : Z)
    (s : Agent * Rng) (b : Board) : res (option Action * (Agent * Rng)) :=
  '(action, ag', glob') ← Phase2_choose_action max_component_size s.1 s.2 b;
  Ok (action, (ag', glob')).

(** [Phase2Agent(seed, max_component_size).play_game(board)]. *)
Definition Phase2_play_game `{PyRandom} (max_component_size : Z) (fuel : nat)
    (ag : Agent) (glob : Rng) (b : Board)
  : res (AgentOutcome * (Agent * Rng) * Board) :=
  play_game_of (Phase2_choose max_component_size)
               (fun s => _last_move_was_logic s.1) fuel (ag, glob) b.

(** The cell an action is about. *)
Definition target (a : Action) : Coord :=
  match a with
  | act_flag p => p
  | act_reveal p => p
  end.

(** The number of covered cells and the number of flags of a board. *)
Definition covered_count (b : Board) : nat :=
  length (filter (fun p => covb b p = true) (all_cells (rows b) (cols b))).

Definition flag_count (b : Board) : Z :=
  count (flgb b) (all_cells (rows b) (cols b)).

(** A list of sets in which every element lies in one set only. *)
Definition pairwise_disjoint (comps : list (gset Coord)) : Prop :=
  forall i j c d v, comps !! i = Some c -> comps !! j = Some d ->
    v ∈ c -> v ∈ d -> i = j.

(** The mines of the board as an assignment of the variables. *)
Definition truth (b : Board) (vars : list Coord) : gmap Coord bool :=
  list_to_map ((fun v => (v, mineb b v)) <$> vars).

(** What can be relied on in a [Search]: its cells are covered cells of
    the grid, its certain mine is a mine and its certain safe cell is
    not. *)
Record search_sound (b : Board) (s : Search) : Prop := mk_search_sound {
  ss_flag : forall v, certain_flag s = Some v ->
    on_board b v /\ covb b v = true /\ mineb b v = true;
  ss_safe : forall v, certain_safe s = Some v ->
    on_board b v /\ covb b v = true /\ mineb b v = false;
  ss_best : forall v, best_cell s = Some v -> on_board b v /\ covb b v = true
}.

(** The boards of a game played by the enumerating agent: built by
    [Board(rows, cols, mines, seed)], then any cell revealed or a cell
    flagged that [Phase2Agent.choose_action] returned for the board in
    progress. *)
Inductive agent2_play `{PyRandom} (max_component_size : Z) : Board -> Prop :=
  | agent2_play_init (R C M : Z) (rng : Rng) (b : Board) :
      Board_init R C M rng = Ok b -> agent2_play max_component_size b
  | agent2_play_reveal (b b' : Board) (p : Coord) (alive : bool) :
      agent2_play max_component_size b -> on_board b p ->
      reveal b p = Ok (b', alive) -> agent2_play max_component_size b'
  | agent2_play_flag (b b' : Board) (ag ag' : Agent) (glob glob' : Rng)
      (p : Coord) :
      agent2_play max_component_size b -> _game_over b = false ->
      Phase2_choose_action max_component_size ag glob b
      = Ok (Some (act_flag p), ag', glob') ->
      flag b p = Ok b' -> agent2_play max_component_size b'.

(** What the counts of a component say about one of its variables on
    the board: a positive number of models, a cell that is covered, that
    is not a mine when no model has a mine there and is one when every
    model has. *)
Definition counted (b : Board) (cs : gmap Coord (Z * Z)) (v : Coord) : Prop :=
  exists mine_count total, cs !! v = Some (mine_count, total) /\ 0 < total /\
    (mine_count = 0 -> mineb b v = false) /\
    (mine_count = total -> mineb b v = true) /\
    on_board b v /\ covb b v = true.

(** ** Evaluation: [run_experiments] *)

(** [rng.randint(a, b)] of [random.Random]: the draw, an integer of
    [a, b], and the next state. *)
Class PyRandint `{PyRandom} : Type := {
  randint : Rng -> Z -> Z -> Z * Rng;
  randint_range : forall g a b, a <= b -> a <= (randint g a b).1 <= b
}.

(** The counter generator draws the counter, folded into [a, b]. *)
Definition counter_randint : @PyRandint counter_random := {|
  randint := fun (n : @Rng counter_random) a b =>
    (a + Z.of_nat n `mod` (b - a + 1), S n);
  randint_range := fun n a b (Hab : a <= b) =>
    ltac:(simpl; pose proof (Z.mod_pos_bound (Z.of_nat n) (b - a + 1)); lia)
|}.

(** [str.lower()], on the letters A to Z; no other character becomes a
    character of ["phase1"], so the test below reads the same. *)
Definition lower_char (c : Ascii.ascii) : Ascii.ascii :=
  let n := Ascii.nat_of_ascii c in
  if (65 <=? n)%nat && (n <=? 90)%nat then Ascii.ascii_of_nat (n + 32) else c.

Fixpoint lower (s : string) : string :=
  match s with
  | EmptyString => EmptyString
  | String c s' => String (lower_char c) (lower s')
  end.

(** What a call of [run_experiments] ends with: the dictionary it
    returns, the ZeroDivisionError of one of its divisions, or an
    exception raised inside a game. *)
Inductive run_res (A : Type) : Type :=
  | Returned (a : A)
  | ZeroDivisionError
  | Raised (e : error).
Arguments Returned {A} a.
Arguments ZeroDivisionError {A}.
Arguments Raised {A} e.

(** [a / b] on two integers: None for ZeroDivisionError, otherwise the
    quotient, kept exact. *)
Definition truediv (a b : Z) : option Q :=
  if b =? 0 then None else Some (inject_Z a / inject_Z b)%Q.

(** The dictionary [run_experiments] returns. *)
Record Experiment : Type := mkExperiment {
  wins : Z;
  games : Z;
  win_rate : Q;
  logic_ratio : Q;
  avg_guess_moves : Q;
  avg_flags : Q
}.

(** [wins], [total_logic], [total_guess] and [total_flags]. *)
Definition Totals : Type := (Z * Z * Z * Z)%type.

(** The body of [for g in range(games)]: a board and an agent from two
    draws of [rng], one game, the totals.  [glob] is the module-level
    generator that the guesses of a [Phase2Agent] draw from; the rounds
    of a game are bounded by the number of cells. *)
Definition one_game `{PyRandint} (rows cols mines : Z) (phase1 : bool)
    (st : Rng * Rng * Totals) : res (Rng * Rng * Totals) :=
  let '(rng, glob, (wins, total_logic, total_guess, total_flags)) := st in
  let '(board_seed, rng1) := randint rng 0 (10 ^ 9) in
  board ← Board_init rows cols mines (Random board_seed);
  let '(agent_seed, rng2) := randint rng1 0 (10 ^ 9) in
  let fuel := Z.to_nat (rows * cols) in
  '(out, glob', board') ←
    (if phase1 then
       '(out, _, board') ← play_game fuel (Phase1Agent_init agent_seed) board;
       Ok (out, glob, board')
     else
       '(out, s, board') ←
         Phase2_play_game 14 fuel (Phase2Agent_init agent_seed) glob board;
       Ok (out, s.2, board'));
  Ok (rng2, glob',
      (if won board' then wins + 1 else wins,
       total_logic + logic_moves out,
       total_guess + guess_moves out,
       total_flags + flags_set out)).

Fixpoint games_loop `{PyRandint} (rows cols mines : Z) (phase1 : bool)
    (gs : list Z) (st : Rng * Rng * Totals) : res (Rng * Rng * Totals) :=
  match gs with
  | [] => Ok st
  | _ :: gs' =>
      st' ← one_game rows cols mines phase1 st;
      games_loop rows cols mines phase1 gs' st'
  end.

(** [run_experiments(rows, cols, mines, games, agent_kind, seed)] with
    the generator [rng] that [random.Random(seed)] made. *)
Definition run_experiments `{PyRandint} (rows cols mines games : Z)
    (agent_kind : string) (rng glob : Rng) : run_res Experiment :=
  let phase1 := bool_decide (lower agent_kind = "phase1") in
  match games_loop rows cols mines phase1 (range games) (rng, glob, (0, 0, 0, 0)) with
  | Fail e => Raised e
  | Ok (_, _, (wins, total_logic, total_guess, total_flags)) =>
      match truediv wins games,
            truediv total_logic (Z.max 1 (total_logic + total_guess)),
            truediv total_guess games,
            truediv total_flags games with
      | Some win_rate, Some logic_ratio, Some avg_guess_moves, Some avg_flags =>
          Returned (mkExperiment wins games win_rate logic_ratio
                                 avg_guess_moves avg_flags)
      | _, _, _, _ => ZeroDivisionError
      end
  end.

(** ** The guess of the enumeration *)

(** A component that the loop of [choose_action] enumerates and rates:
    not above the size bound, with a constraint, with a model. *)
Definition rated (max_component_size : Z) (b : Board) (st : AgentView)
    (comp : gset Coord) (lcs : list Constraint) : Prop :=
  Z.of_nat (size comp) <= max_component_size /\
  build_local_constraints b st comp = Ok lcs /\ lcs <> [] /\
  brute_total lcs (elements comp) <> 0.

(** The share of the models of a component in which a cell is a mine. *)
Definition mine_prob (lcs : list Constraint) (comp : gset Coord) (v : Coord) : Q :=
  prob (brute_mines lcs (elements comp) v) (brute_total lcs (elements comp)).

(** [s] holds the least of the probabilities [P] collected so far, and
    a certainty for every probability that is 0 or 1. *)
Record least_risk (P : Coord -> Q -> Prop) (s : Search) : Prop := mk_least_risk {
  lr_least : forall w q, P w q -> (best_prob s <= q)%Q;
  lr_best :
    match best_cell s with
    | Some v => P v (best_prob s)
    | None => best_prob s = 11 # 10 /\ forall w q, ~ P w q
    end;
  lr_safe : forall w q, P w q -> (q == 0)%Q -> certain_safe s <> None;
  lr_flag : forall w q, P w q -> (q == 1)%Q -> certain_flag s <> None
}.

(** ** [Agent.play_game], the method of the base class

    The loop with the method [choose_action] of a subclass as a
    parameter.  A reveal is passed over ([pass]); an action is a flag or
    a reveal here, so the ValueError of any other kind has no place. *)
Section BaseAgent.
Context {St : Type}.
Variable choose_action : St -> Board -> res (option Action * St).

Fixpoint Agent_play_loop (fuel : nat) (st : St) (b : Board) (out : AgentOutcome)
  : res (AgentOutcome * St * Board) :=
  if _game_over b then Ok (out, st, b)
  else
    match fuel with
    | O => Fail OutOfFuel
    | S fuel' =>
        '(action, st1) ← choose_action st b;
        match action with
        | None => Ok (out, st1, b)
        | Some (act_flag p) =>
            b' ← flag b p;
            Agent_play_loop fuel' st1 b'
              (mkOutcome (logic_moves out + 1) (guess_moves out)
                         (flags_set out + 1))
        | Some (act_reveal p) => Agent_play_loop fuel' st1 b out
        end
    end.

Definition Agent_play_game (fuel : nat) (st : St) (b : Board)
  : res (AgentOutcome * St * Board) :=
  seen ← any_res (revealed b) (all_cells (rows b) (cols b));
  b1 ← (if seen : bool then Ok b else '(b', _) ← reveal b (0, 0); Ok b');
  Agent_play_loop fuel st b1 (mkOutcome 0 0 0).
End BaseAgent.

(** ** The flag command of the interfaces

    [MinesweeperGUI.toggle_flag] on the board it holds (the hint and the
    redraw are display only); the flag command of [manual_play.main]
    does the same after its bounds check. *)
Definition toggle_flag (b : Board) (p : Coord) : res Board :=
  if game_over b then Ok b
  else
    rv ← revealed b p;
    if rv : bool then Ok b
    else
      fl ← flagged b p;
      if fl : bool then unflag b p else flag b p.

(** ** [render_board] of visualize_minesweeper.py

    The text that [render_board] passes to [print]. *)

(** A list comprehension [[f x for x in l]] whose body can raise. *)
Fixpoint map_res {A B : Type} (f : A -> res B) (l : list A) : res (list B) :=
  match l with
  | [] => Ok []
  | x :: l' => y ← f x; tl ← map_res f l'; Ok (y :: tl)
  end.

(** [sep.join(l)]. *)
Definition join (sep : string) (l : list string) : string :=
  match l with
  | [] => EmptyString
  | x :: l' => foldl (fun acc y => acc +:+ sep +:+ y) x l'
  end.

(** The character of one cell; [str(n)] is the decimal numeral. *)
Definition cell_char (b : Board) (p : Coord) : res string :=
  fl ← flagged b p;
  if fl : bool then Ok "F"
  else
    rv ← revealed b p;
    if negb rv then Ok "#"
    else
      m ← is_mine b p;
      if m : bool then Ok "*"
      else n ← adj b p; Ok (if n >? 0 then pretty n else ".").

Definition render_row (b : Board) (r : Z) : res string :=
  row ← map_res (fun c => cell_char b (r, c)) (range (cols b));
  Ok (join " " row).

Definition render_board (b : Board) : res string :=
  chars ← map_res (render_row b) (range (rows b));
  Ok (join (String (Ascii.ascii_of_nat 10) EmptyString) chars).

(** Two boards that look the same to the player: the same size, the
    same flags, the same revealed cells, and the same content in the
    cells that are revealed and not flagged. *)
Definition same_look (b b' : Board) : Prop :=
  rows b' = rows b /\ cols b' = cols b /\
  forall p, on_board b p ->
    flgb b' p = flgb b p /\ revb b' p = revb b p /\
    (revb b p = true -> flgb b p = false ->
     mineb b' p = mineb b p /\ (mineb b p = false -> adjz b' p = adjz b p)).

(** * Properties *)

(** ** The error monad *)

Lemma bind_Ok {A B : Type} (m : res A) (k : A -> res B) (y : B) :
  (x ← m; k x) = Ok y -> exists x, m = Ok x /\ k x = Ok y.
Proof. destruct m as [x|e]; [eauto | discriminate]. Qed.

Ltac inv_bind H :=
  let x := fresh "x" in
  let Hx := fresh "Hx" in
  apply bind_Ok in H; destruct H as (x & Hx & H).

(** ** Lists and grids *)

Lemma py_get_inrange {A : Type} (l : list A) (i : Z) :
  0 <= i < Z.of_nat (length l) ->
  exists x, py_get l i = Ok x /\ l !! Z.to_nat i = Some x.
Proof.
  intros Hi. unfold py_get.
  destruct (i <? 0) eqn:Hneg; [lia|].
  destruct (0 <=? i) eqn:H0; [|lia].
  destruct (i <? Z.of_nat (length l)) eqn:H1; [|lia]. simpl.
  destruct (l !! Z.to_nat i) as [x|] eqn:Hl; [eauto|].
  apply lookup_ge_None in Hl. lia.
Qed.

Lemma py_set_inrange {A : Type} (l : list A) (i : Z) (x : A) :
  0 <= i < Z.of_nat (length l) ->
  py_set l i x = Ok (<[Z.to_nat i := x]> l).
Proof.
  intros Hi. unfold py_set.
  destruct (i <? 0) eqn:Hneg; [lia|].
  destruct (0 <=? i) eqn:H0; [|lia].
  destruct (i <? Z.of_nat (length l)) eqn:H1; [|lia]. reflexivity.
Qed.

Section Grid.
Context {A : Type}.

Lemma grid_dims_row R C (g : list (list A)) i row :
  grid_dims R C g -> g !! i = Some row -> length row = Z.to_nat C.
Proof.
  intros [_ Hall] Hi. rewrite Forall_lookup in Hall. eauto.
Qed.

Lemma grid_get_inb R C (g : list (list A)) p :
  grid_dims R C g -> inb R C p -> exists x, grid_get g p = Ok x.
Proof.
  intros Hd [Hr Hc]. unfold grid_get.
  destruct (py_get_inrange g (fst p)) as (row & -> & Hrow).
  { destruct Hd as [-> _]. lia. }
  simpl. destruct (py_get_inrange row (snd p)) as (x & -> & _); [|eauto].
  rewrite (grid_dims_row _ _ _ _ _ Hd Hrow). lia.
Qed.

Lemma grid_set_inb R C (g : list (list A)) p x :
  grid_dims R C g -> inb R C p ->
  exists g', grid_set g p x = Ok g' /\ grid_dims R C g' /\
    grid_get g' p = Ok x /\
    forall q, inb R C q -> q <> p -> grid_get g' q = grid_get g q.
Proof.
  intros Hd [Hr Hc]. unfold grid_set.
  assert (Hlen : 0 <= fst p < Z.of_nat (length g)).
  { destruct Hd as [-> _]. lia. }
  destruct (py_get_inrange g (fst p) Hlen) as (row & -> & Hrow). simpl.
  pose proof (grid_dims_row _ _ _ _ _ Hd Hrow) as Hrl.
  pose proof (proj1 Hd) as Hgl.
  rewrite py_set_inrange by lia. simpl.
  rewrite py_set_inrange by lia.
  eexists; split; [reflexivity|].
  assert (Hd' : grid_dims R C (<[Z.to_nat (fst p) := <[Z.to_nat (snd p) := x]> row]> g)).
  { destruct Hd as [Hl Hall]. split; [by rewrite length_insert|].
    apply Forall_insert; [done|]. by rewrite length_insert. }
  split; [done|]. split.
  - unfold grid_get.
    destruct (py_get_inrange (<[Z.to_nat (fst p) := <[Z.to_nat (snd p) := x]> row]> g) (fst p))
      as (row' & -> & Hrow'); [rewrite length_insert; lia|].
    rewrite list_lookup_insert_eq in Hrow' by lia. simplify_eq. simpl.
    destruct (py_get_inrange (<[Z.to_nat (snd p) := x]> row) (snd p))
      as (y & -> & Hy); [rewrite length_insert; lia|].
    rewrite list_lookup_insert_eq in Hy by lia. by simplify_eq.
  - intros q [Hqr Hqc] Hne. unfold grid_get.
    destruct (py_get_inrange (<[Z.to_nat (fst p) := <[Z.to_nat (snd p) := x]> row]> g) (fst q))
      as (row' & -> & Hrow'); [rewrite length_insert; lia|].
    destruct (py_get_inrange g (fst q)) as (row0 & -> & Hrow0); [lia|].
    simpl. destruct (decide (fst q = fst p)) as [Heq|Hneq].
    + rewrite Heq in Hrow', Hrow0.
      rewrite list_lookup_insert_eq in Hrow' by lia. simplify_eq.
      assert (snd q <> snd p).
      { intros Hs. apply Hne. destruct p, q; simpl in *; congruence. }
      destruct (py_get_inrange (<[Z.to_nat (snd p) := x]> row) (snd q))
        as (y & -> & Hy); [rewrite length_insert; lia|].
      destruct (py_get_inrange row (snd q)) as (y0 & -> & Hy0); [lia|].
      rewrite list_lookup_insert_ne in Hy by lia. congruence.
    + rewrite list_lookup_insert_ne in Hrow' by lia. congruence.
Qed.

Lemma grid_make_dims R C (x : A) : grid_dims R C (grid_make R C x).
Proof.
  split; [apply length_replicate|].
  apply Forall_replicate, length_replicate.
Qed.

Lemma grid_make_get R C (x : A) p :
  inb R C p -> grid_get (grid_make R C x) p = Ok x.
Proof.
  intros [Hr Hc]. unfold grid_get, grid_make.
  destruct (py_get_inrange (replicate (Z.to_nat R) (replicate (Z.to_nat C) x)) (fst p))
    as (row & -> & Hrow); [rewrite length_replicate; lia|].
  apply lookup_replicate in Hrow as [-> _]. simpl.
  destruct (py_get_inrange (replicate (Z.to_nat C) x) (snd p))
    as (y & -> & Hy); [rewrite length_replicate; lia|].
  apply lookup_replicate in Hy as [-> _]. reflexivity.
Qed.
End Grid.

(** ** Cells and neighbours *)

Lemma in_bounds_spec (b : Board) (p : Coord) :
  in_bounds b p = true <-> on_board b p.
Proof. unfold in_bounds, on_board, inb. lia. Qed.

Lemma elem_of_range (n i : Z) : i ∈ range n <-> 0 <= i < n.
Proof.
  unfold range. rewrite list_elem_of_fmap. split.
  - intros (k & -> & Hk). apply elem_of_seq in Hk. lia.
  - intros Hi. exists (Z.to_nat i). split; [lia|]. apply elem_of_seq. lia.
Qed.

Lemma NoDup_range (n : Z) : NoDup (range n).
Proof.
  unfold range. apply NoDup_fmap; [|apply NoDup_seq].
  intros x y. lia.
Qed.

Lemma elem_of_all_cells (R C : Z) (p : Coord) : p ∈ all_cells R C <-> inb R C p.
Proof.
  unfold all_cells, inb. rewrite list_elem_of_bind. split.
  - intros (r & Hp & Hr). apply list_elem_of_bind in Hp as (c & Hp & Hc).
    apply list_elem_of_singleton in Hp as ->. simpl.
    apply elem_of_range in Hr, Hc. lia.
  - intros [Hr Hc]. exists (fst p). split; [|by apply elem_of_range].
    apply list_elem_of_bind. exists (snd p). split; [|by apply elem_of_range].
    destruct p. simpl. apply list_elem_of_singleton. reflexivity.
Qed.

Lemma NoDup_all_cells (R C : Z) : NoDup (all_cells R C).
Proof.
  unfold all_cells. apply NoDup_bind; [| |apply NoDup_range].
  - intros r1 r2 p _ _ H1 H2.
    apply list_elem_of_bind in H1 as (c1 & H1 & _).
    apply list_elem_of_bind in H2 as (c2 & H2 & _).
    apply list_elem_of_singleton in H1, H2. congruence.
  - intros r _. apply NoDup_bind; [| |apply NoDup_range].
    + intros c1 c2 p _ _ H1 H2.
      apply list_elem_of_singleton in H1, H2. congruence.
    + intros c _. apply NoDup_singleton.
Qed.

Lemma elem_of_offsets (d : Z) : d ∈ offsets <-> d = -1 \/ d = 0 \/ d = 1.
Proof.
  unfold offsets. rewrite !elem_of_cons, elem_of_nil. tauto.
Qed.

Lemma elem_of_neighbors (b : Board) (p q : Coord) :
  q ∈ neighbors b p <->
  on_board b q /\ q <> p /\
  -1 <= fst q - fst p <= 1 /\ -1 <= snd q - snd p <= 1.
Proof.
  unfold neighbors. rewrite list_elem_of_bind. split.
  - intros (dr & Hq & Hdr). apply list_elem_of_bind in Hq as (dc & Hq & Hdc).
    apply elem_of_offsets in Hdr as Hr. apply elem_of_offsets in Hdc as Hc.
    destruct ((dr =? 0) && (dc =? 0)) eqn:Hz; [by apply elem_of_nil in Hq|].
    destruct (in_bounds b (fst p + dr, snd p + dc)) eqn:Hin;
      [|by apply elem_of_nil in Hq].
    apply list_elem_of_singleton in Hq as ->.
    apply in_bounds_spec in Hin. simpl. split; [done|].
    split; [|lia]. intros Heq. destruct p as [r c]. simpl in *.
    inversion Heq. lia.
  - intros (Hin & Hne & Hr & Hc).
    exists (fst q - fst p). split.
    + apply list_elem_of_bind. exists (snd q - snd p). split.
      * replace (fst p + (fst q - fst p)) with (fst q) by lia.
        replace (snd p + (snd q - snd p)) with (snd q) by lia.
        destruct ((fst q - fst p =? 0) && (snd q - snd p =? 0)) eqn:Hz.
        { exfalso. apply Hne. destruct p, q. simpl in *. f_equal; lia. }
        replace (fst q, snd q) with q by (by destruct q).
        apply in_bounds_spec in Hin. rewrite Hin.
        apply list_elem_of_singleton. reflexivity.
      * apply elem_of_offsets. lia.
    + apply elem_of_offsets. lia.
Qed.

Lemma neighbors_on_board (b : Board) (p q : Coord) :
  q ∈ neighbors b p -> on_board b q.
Proof. intros H. by apply elem_of_neighbors in H as [? _]. Qed.

Lemma neighbors_sym (b : Board) (p q : Coord) :
  on_board b p -> q ∈ neighbors b p -> p ∈ neighbors b q.
Proof.
  intros Hp. rewrite !elem_of_neighbors. intros (Hq & Hne & Hr & Hc).
  repeat split; [apply Hp | apply Hp | apply Hp | apply Hp | congruence | lia ..].
Qed.

Lemma neighbors_length (b : Board) (p : Coord) :
  (length (neighbors b p) <= 8)%nat.
Proof.
  unfold neighbors, offsets. simpl.
  repeat match goal with
  | |- context [in_bounds ?b ?x] => destruct (in_bounds b x)
  end; simpl; lia.
Qed.

(** ** Reads and writes on a well-formed board *)

Section BoardReads.
Variable b : Board.
Hypothesis Hwf : wf_board b.
Variable p : Coord.
Hypothesis Hp : on_board b p.

Lemma read_mine : is_mine b p = Ok (mineb b p).
Proof.
  unfold mineb. destruct (grid_get_inb _ _ _ p (wf_mine b Hwf) Hp) as [x Hx].
  unfold is_mine. by rewrite Hx.
Qed.

Lemma read_revealed : revealed b p = Ok (revb b p).
Proof.
  unfold revb. destruct (grid_get_inb _ _ _ p (wf_revealed b Hwf) Hp) as [x Hx].
  unfold revealed. by rewrite Hx.
Qed.

Lemma read_flagged : flagged b p = Ok (flgb b p).
Proof.
  unfold flgb. destruct (grid_get_inb _ _ _ p (wf_flagged b Hwf) Hp) as [x Hx].
  unfold flagged. by rewrite Hx.
Qed.

Lemma read_adj : adj b p = Ok (adjz b p).
Proof.
  unfold adjz. destruct (grid_get_inb _ _ _ p (wf_adj_dims b Hwf) Hp) as [x Hx].
  unfold adj. by rewrite Hx.
Qed.

Lemma read_covered : is_covered b p = Ok (covb b p).
Proof.
  unfold is_covered, covb. rewrite read_revealed. simpl.
  destruct (revb b p); simpl; [done|]. by rewrite read_flagged.
Qed.

Lemma write_revealed (x : bool) :
  exists g, grid_set (_revealed b) p x = Ok g /\
    wf_board (set_revealed b g) /\
    revb (set_revealed b g) p = x /\
    forall q, on_board b q -> q <> p -> revb (set_revealed b g) q = revb b q.
Proof.
  destruct (grid_set_inb _ _ _ p x (wf_revealed b Hwf) Hp)
    as (g & Hg & Hd & Hget & Hother).
  exists g. split; [done|]. split; [|split].
  - destruct Hwf. by constructor.
  - unfold revb, revealed. simpl. by rewrite Hget.
  - intros q Hq Hne. unfold revb, revealed. simpl. by rewrite Hother.
Qed.

Lemma write_flagged (x : bool) :
  exists g, grid_set (_flagged b) p x = Ok g /\
    wf_board (set_flagged b g) /\
    flgb (set_flagged b g) p = x /\
    forall q, on_board b q -> q <> p -> flgb (set_flagged b g) q = flgb b q.
Proof.
  destruct (grid_set_inb _ _ _ p x (wf_flagged b Hwf) Hp)
    as (g & Hg & Hd & Hget & Hother).
  exists g. split; [done|]. split; [|split].
  - destruct Hwf. by constructor.
  - unfold flgb, flagged. simpl. by rewrite Hget.
  - intros q Hq Hne. unfold flgb, flagged. simpl. by rewrite Hother.
Qed.
End BoardReads.

Lemma filter_res_total {A : Type} (f : A -> res bool) (g : A -> bool) (l : list A) :
  (forall x, x ∈ l -> f x = Ok (g x)) ->
  filter_res f l = Ok (filter (fun x => g x = true) l).
Proof.
  induction l as [|x l IH]; intros Hf; [done|]. simpl.
  rewrite (Hf x) by apply list_elem_of_here. simpl.
  rewrite IH by (intros y Hy; apply Hf; by apply list_elem_of_further). simpl.
  rewrite filter_cons. destruct (g x); by case_decide.
Qed.

Lemma any_res_total {A : Type} (f : A -> res bool) (g : A -> bool) (l : list A) :
  (forall x, x ∈ l -> f x = Ok (g x)) ->
  any_res f l = Ok (existsb g l).
Proof.
  induction l as [|x l IH]; intros Hf; [done|]. simpl.
  rewrite (Hf x) by apply list_elem_of_here. simpl.
  destruct (g x); [done|]. simpl. apply IH.
  intros y Hy. apply Hf. by apply list_elem_of_further.
Qed.

Lemma same_hidden_refl (b : Board) : same_hidden b b.
Proof. by repeat split. Qed.

Lemma same_hidden_trans (b1 b2 b3 : Board) :
  same_hidden b1 b2 -> same_hidden b2 b3 -> same_hidden b1 b3.
Proof.
  unfold same_hidden. intros (?&?&?&?&?&?&?&?) (?&?&?&?&?&?&?&?).
  repeat split; congruence.
Qed.

Lemma same_hidden_on_board (b b' : Board) (p : Coord) :
  same_hidden b b' -> on_board b' p <-> on_board b p.
Proof. intros (Hr & Hc & _). unfold on_board. by rewrite Hr, Hc. Qed.

Lemma same_hidden_views (b b' : Board) (p : Coord) :
  same_hidden b b' ->
  mineb b' p = mineb b p /\ flgb b' p = flgb b p /\ adjz b' p = adjz b p /\
  neighbors b' p = neighbors b p.
Proof.
  intros (Hr & Hc & _ & Hm & Hf & Ha & _).
  unfold mineb, flgb, adjz, is_mine, flagged, adj, neighbors, in_bounds.
  by rewrite Hr, Hc, Hm, Hf, Ha.
Qed.

(** ** The flood fill *)

(** What one iteration of the [while q:] loop does on a well-formed board. *)
Lemma _reveal_region_step_spec (b : Board) (p : Coord) (q : list Coord) :
  wf_board b -> on_board b p ->
  exists b' q', _reveal_region_step b p q = Ok (b', q') /\
    wf_board b' /\ same_hidden b b' /\
    ((revb b p || flgb b p = true /\ b' = b /\ q' = q) \/
     (revb b p = false /\ flgb b p = false /\ revb b' p = true /\
      (forall x, on_board b x -> x <> p -> revb b' x = revb b x) /\
      q' = q ++ (if adjz b p =? 0
                 then filter (fun x => covb b' x = true) (neighbors b p)
                 else []))).
Proof.
  intros Hwf Hp. unfold _reveal_region_step.
  rewrite (read_revealed b Hwf p Hp). simpl.
  destruct (revb b p) eqn:Hrv; simpl.
  { exists b, q. split; [done|]. split; [done|]. split; [apply same_hidden_refl|].
    left. done. }
  rewrite (read_flagged b Hwf p Hp). simpl.
  destruct (flgb b p) eqn:Hfl; simpl.
  { exists b, q. split; [done|]. split; [done|]. split; [apply same_hidden_refl|].
    left. done. }
  destruct (write_revealed b Hwf p Hp true) as (g & -> & Hwf' & Hnew & Hold).
  simpl. assert (Hp' : on_board (set_revealed b g) p) by done.
  rewrite (read_adj _ Hwf' p Hp'). simpl.
  assert (Hsame : same_hidden b (set_revealed b g)) by (by repeat split).
  change (adjz (set_revealed b g) p) with (adjz b p).
  change (neighbors (set_revealed b g) p) with (neighbors b p).
  destruct (adjz b p =? 0) eqn:Hz.
  - rewrite (filter_res_total _ (covb (set_revealed b g))).
    2:{ intros x Hx. apply read_covered; [done|].
        by apply neighbors_on_board in Hx. }
    simpl. eexists _, _. split; [reflexivity|]. split; [done|]. split; [done|].
    right. done.
  - eexists _, _. split; [reflexivity|]. split; [done|]. split; [done|].
    right. rewrite app_nil_r. done.
Qed.

Lemma _reveal_region_step_keeps (b : Board) (p : Coord) (q : list Coord)
    (b' : Board) (q' : list Coord) :
  wf_board b -> Forall (on_board b) (p :: q) ->
  _reveal_region_step b p q = Ok (b', q') ->
  wf_board b' /\ same_hidden b b' /\ Forall (on_board b') q'.
Proof.
  intros Hwf Hq Hstep. apply Forall_cons in Hq as [Hp Hq].
  destruct (_reveal_region_step_spec b p q Hwf Hp)
    as (b1 & q1 & Heq & Hwf1 & Hsame & Hcase).
  rewrite Heq in Hstep. simplify_eq. split; [done|]. split; [done|].
  assert (Hq' : Forall (on_board b') q).
  { eapply Forall_impl; [exact Hq|]. intros x Hx.
    by apply (same_hidden_on_board b b'). }
  destruct Hcase as [(_ & _ & ->) | (_ & _ & _ & _ & ->)]; [done|].
  apply Forall_app. split; [done|].
  destruct (adjz b p =? 0); [|done].
  apply Forall_forall. intros x Hx.
  apply list_elem_of_filter in Hx as [_ Hx].
  apply neighbors_on_board in Hx. by apply (same_hidden_on_board b b').
Qed.

(** An invariant of the loop body holds when the queue has run empty. *)
Lemma _reveal_region_loop_inv (I : Board -> list Coord -> Prop) :
  (forall b p q b' q', wf_board b -> Forall (on_board b) (p :: q) ->
     I b (p :: q) -> _reveal_region_step b p q = Ok (b', q') -> I b' q') ->
  forall fuel b q b', wf_board b -> Forall (on_board b) q -> I b q ->
    _reveal_region_loop fuel b q = Ok b' -> I b' [].
Proof.
  intros Hstep fuel. induction fuel as [|fuel IH]; intros b q b' Hwf Hq HI Hloop.
  - destruct q; simpl in Hloop; [by simplify_eq | discriminate].
  - destruct q as [|p q]; simpl in Hloop; [by simplify_eq|].
    inv_bind Hloop. destruct x as [b1 q1].
    destruct (_reveal_region_step_keeps b p q b1 q1 Hwf Hq Hx) as (Hwf1 & _ & Hq1).
    eapply IH; [exact Hwf1 | exact Hq1 | | exact Hloop].
    exact (Hstep b p q b1 q1 Hwf Hq HI Hx).
Qed.

Lemma filter_length_drop {A : Type} (P Q : A -> Prop)
    `{!forall x, Decision (P x)} `{!forall x, Decision (Q x)} (l : list A) (x : A) :
  x ∈ l -> P x -> ~ Q x -> (forall y, y ∈ l -> Q y -> P y) ->
  (length (filter Q l) < length (filter P l))%nat.
Proof.
  induction l as [|y l IH]; intros Hin HP HQ Hsub; [by apply elem_of_nil in Hin|].
  assert (Hle : forall l', (forall z, z ∈ l' -> Q z -> P z) ->
            (length (filter Q l') <= length (filter P l'))%nat).
  { clear. induction l' as [|z l' IH']; intros Hs; [done|].
    rewrite !filter_cons.
    assert (Hrec : (length (filter Q l') <= length (filter P l'))%nat).
    { apply IH'. intros w Hw. apply Hs. by apply list_elem_of_further. }
    destruct (decide (Q z)) as [Hq|Hq]; destruct (decide (P z)) as [Hp|Hp];
      simpl; try lia.
    exfalso. apply Hp, Hs; [apply list_elem_of_here | done]. }
  rewrite !filter_cons. apply elem_of_cons in Hin as [<- | Hin].
  - destruct (decide (Q x)); [done|]. destruct (decide (P x)); [|done].
    simpl. apply Nat.lt_succ_r, Hle.
    intros z Hz. apply Hsub. by apply list_elem_of_further.
  - assert (Hrec : (length (filter Q l) < length (filter P l))%nat).
    { apply IH; try done. intros z Hz. apply Hsub. by apply list_elem_of_further. }
    destruct (decide (Q y)) as [Hq|Hq]; destruct (decide (P y)) as [Hp'|Hp'];
      simpl; try lia.
    exfalso. apply Hp', Hsub; [apply list_elem_of_here | done].
Qed.

Lemma unrevealed_count_drop (b b' : Board) (p : Coord) :
  same_hidden b b' -> on_board b p ->
  revb b p = false -> revb b' p = true ->
  (forall x, on_board b x -> x <> p -> revb b' x = revb b x) ->
  (unrevealed_count b' < unrevealed_count b)%nat.
Proof.
  intros (Hr & Hc & _) Hp Hold Hnew Hother. unfold unrevealed_count.
  rewrite Hr, Hc. apply (filter_length_drop _ _ _ p).
  - by apply elem_of_all_cells.
  - done.
  - by rewrite Hnew.
  - intros y Hy Hrev. apply elem_of_all_cells in Hy.
    destruct (decide (y = p)) as [->|Hne]; [done|].
    by rewrite <- Hother.
Qed.

(** The loop ends: nine rounds per unrevealed cell and one per queued
    cell are enough. *)
Lemma _reveal_region_loop_total (fuel : nat) (b : Board) (q : list Coord) :
  wf_board b -> Forall (on_board b) q ->
  (9 * unrevealed_count b + length q <= fuel)%nat ->
  exists b', _reveal_region_loop fuel b q = Ok b'.
Proof.
  revert b q. induction fuel as [|fuel IH]; intros b q Hwf Hq Hm.
  - destruct q; [by eexists | simpl in Hm; lia].
  - destruct q as [|p q]; [by eexists|]. simpl.
    pose proof Hq as Hq0. apply Forall_cons in Hq0 as [Hp _].
    destruct (_reveal_region_step_spec b p q Hwf Hp)
      as (b1 & q1 & Heq & Hwf1 & Hsame & Hcase).
    destruct (_reveal_region_step_keeps b p q b1 q1 Hwf Hq Heq) as (_ & _ & Hq1).
    rewrite Heq. simpl. apply IH; [done | done |].
    simpl in Hm.
    destruct Hcase as [(_ & -> & ->) | (Hrv & Hfl & Hnew & Hother & ->)]; [lia|].
    pose proof (unrevealed_count_drop b b1 p Hsame Hp Hrv Hnew Hother).
    rewrite length_app.
    assert ((length (if (adjz b p =? 0)%Z
                     then filter (fun x => covb b1 x = true) (neighbors b p)
                     else []) <= 8)%nat).
    { destruct (adjz b p =? 0); simpl; [|lia].
      etrans; [apply length_filter | apply neighbors_length]. }
    lia.
Qed.

Lemma _reveal_region_step_inv (b : Board) (p : Coord) (q : list Coord)
    (b' : Board) (q' : list Coord) :
  wf_board b -> Forall (on_board b) (p :: q) ->
  _reveal_region_step b p q = Ok (b', q') ->
  same_hidden b b' /\
  ((revb b p || flgb b p = true /\ b' = b /\ q' = q) \/
   (revb b p = false /\ flgb b p = false /\ revb b' p = true /\
    (forall x, on_board b x -> x <> p -> revb b' x = revb b x) /\
    q' = q ++ (if adjz b p =? 0
               then filter (fun x => covb b' x = true) (neighbors b p)
               else []))).
Proof.
  intros Hwf Hq Hstep. apply Forall_cons in Hq as [Hp Hq].
  destruct (_reveal_region_step_spec b p q Hwf Hp)
    as (b1 & q1 & Heq & Hwf1 & Hsame & Hcase).
  rewrite Heq in Hstep. by simplify_eq.
Qed.

Lemma length_bind_const {A B : Type} (f : A -> list B) (k : nat) (l : list A) :
  (forall x, length (f x) = k) -> length (l ≫= f) = (length l * k)%nat.
Proof.
  intros Hf. induction l as [|x l IH]; [done|].
  rewrite bind_cons, length_app, Hf, IH. simpl. lia.
Qed.

Lemma length_all_cells (R C : Z) :
  length (all_cells R C) = (Z.to_nat R * Z.to_nat C)%nat.
Proof.
  unfold all_cells.
  rewrite (length_bind_const _ (Z.to_nat C)).
  - unfold range. by rewrite length_fmap, length_seq.
  - intros r. rewrite (length_bind_const _ 1%nat); [|done].
    unfold range. rewrite length_fmap, length_seq. lia.
Qed.

Lemma length_concat_dims {A : Type} (R C : Z) (g : list (list A)) :
  grid_dims R C g -> length (concat g) = (Z.to_nat R * Z.to_nat C)%nat.
Proof.
  intros [Hl Hall]. rewrite <- Hl. clear Hl.
  induction Hall as [|row g Hrow _ IH]; [done|].
  simpl. rewrite length_app, IH, Hrow. lia.
Qed.

Lemma unrevealed_count_le (b : Board) :
  wf_board b -> (9 * unrevealed_count b + 1 <= region_fuel b)%nat.
Proof.
  intros Hwf. unfold region_fuel, unrevealed_count.
  rewrite (length_concat_dims _ _ _ (wf_revealed b Hwf)).
  rewrite <- length_all_cells.
  pose proof (length_filter (fun p => revb b p = false)
                (all_cells (rows b) (cols b))). lia.
Qed.

(** The fill returns, keeps the board well formed and changes nothing
    but which cells are revealed; revealed cells stay revealed. *)
Lemma _reveal_region_total (b : Board) (start : Coord) :
  wf_board b -> on_board b start ->
  exists b', _reveal_region b start = Ok b' /\ wf_board b' /\ same_hidden b b' /\
    forall x, on_board b x -> revb b x = true -> revb b' x = true.
Proof.
  intros Hwf Hs. unfold _reveal_region.
  assert (Hq : Forall (on_board b) [start]) by (by apply Forall_singleton).
  destruct (_reveal_region_loop_total (region_fuel b) b [start] Hwf Hq)
    as [b' Hb'].
  { pose proof (unrevealed_count_le b Hwf). simpl. lia. }
  exists b'. split; [done|].
  pose proof (_reveal_region_loop_inv
    (fun b1 _ => wf_board b1 /\ same_hidden b b1 /\
       forall x, on_board b x -> revb b x = true -> revb b1 x = true)) as Hinv.
  eapply Hinv; [| exact Hwf | exact Hq | | exact Hb'].
  - clear. intros b1 p q b2 q2 Hwf1 Hq1 (_ & Hsame & Hmono) Hstep.
    destruct (_reveal_region_step_keeps b1 p q b2 q2 Hwf1 Hq1 Hstep) as (Hwf2 & _ & _).
    destruct (_reveal_region_step_inv b1 p q b2 q2 Hwf1 Hq1 Hstep) as (Hs12 & Hcase).
    split; [done|]. split; [by eapply same_hidden_trans|].
    intros x Hx Hrx. specialize (Hmono x Hx Hrx).
    destruct Hcase as [(_ & -> & _) | (Hrv & _ & Hnew & Hother & _)]; [done|].
    destruct (decide (x = p)) as [->|Hne]; [done|].
    rewrite Hother; [done | | done]. by apply (same_hidden_on_board b b1).
  - split; [done|]. split; [apply same_hidden_refl | done].
Qed.

(** ** Counting *)

Lemma count_nil {A : Type} (f : A -> bool) : count f [] = 0.
Proof. reflexivity. Qed.

Lemma count_cons {A : Type} (f : A -> bool) (x : A) (l : list A) :
  count f (x :: l) = (if f x then 1 else 0) + count f l.
Proof.
  unfold count. rewrite filter_cons.
  destruct (f x); case_decide; try done; simpl length; lia.
Qed.

Lemma count_app {A : Type} (f : A -> bool) (l1 l2 : list A) :
  count f (l1 ++ l2) = count f l1 + count f l2.
Proof.
  unfold count. rewrite filter_app, length_app. lia.
Qed.

Lemma count_bounds {A : Type} (f : A -> bool) (l : list A) :
  0 <= count f l <= len l.
Proof.
  unfold count, len. pose proof (length_filter (fun x => f x = true) l). lia.
Qed.

Lemma count_zero {A : Type} (f : A -> bool) (l : list A) :
  count f l = 0 <-> forall x, x ∈ l -> f x = false.
Proof.
  induction l as [|y l IH].
  - split; [|done]. intros _ x Hx. by apply elem_of_nil in Hx.
  - rewrite count_cons. pose proof (count_bounds f l). split.
    + intros H0 x Hx. destruct (f y) eqn:Hy; [lia|].
      apply elem_of_cons in Hx as [->|Hx]; [done|]. apply IH; [lia | done].
    + intros Hall. rewrite (Hall y) by apply list_elem_of_here.
      apply proj2 in IH. rewrite IH; [done|].
      intros x Hx. apply Hall. by apply list_elem_of_further.
Qed.

Lemma count_all {A : Type} (f : A -> bool) (l : list A) :
  count f l = len l <-> forall x, x ∈ l -> f x = true.
Proof.
  induction l as [|y l IH].
  - split; [|done]. intros _ x Hx. by apply elem_of_nil in Hx.
  - rewrite count_cons. pose proof (count_bounds f l).
    unfold len in *. simpl length. split.
    + intros H0 x Hx. destruct (f y) eqn:Hy; [|lia].
      apply elem_of_cons in Hx as [->|Hx]; [done|]. apply IH; [lia | done].
    + intros Hall. rewrite (Hall y) by apply list_elem_of_here.
      apply proj2 in IH. rewrite IH; [lia|].
      intros x Hx. apply Hall. by apply list_elem_of_further.
Qed.

Lemma count_ext {A : Type} (f g : A -> bool) (l : list A) :
  (forall x, x ∈ l -> f x = g x) -> count f l = count g l.
Proof.
  induction l as [|y l IH]; intros Hfg; [done|].
  rewrite !count_cons, (Hfg y) by apply list_elem_of_here.
  rewrite IH; [done|]. intros x Hx. apply Hfg. by apply list_elem_of_further.
Qed.

(** ** What the fill reveals *)

(** A cell the fill reveals is not flagged, and on a board whose start
    cell is not a mine it is not a mine either. *)
Lemma _reveal_region_no_mine (b : Board) (start : Coord) (b' : Board) :
  wf_board b -> on_board b start -> mineb b start = false ->
  _reveal_region b start = Ok b' ->
  forall x, on_board b x -> newly b b' x ->
    mineb b x = false /\ flgb b x = false.
Proof.
  intros Hwf Hs Hsafe Hrun.
  assert (Hq : Forall (on_board b) [start]) by (by apply Forall_singleton).
  pose proof (_reveal_region_loop_inv
    (fun b1 q => same_hidden b b1 /\
       (forall x, x ∈ q -> mineb b x = false) /\
       forall x, on_board b x -> newly b b1 x ->
         mineb b x = false /\ flgb b x = false)) as Hinv.
  unfold _reveal_region in Hrun.
  eapply Hinv; [| exact Hwf | exact Hq | | exact Hrun].
  - clear. intros b1 p q b2 q2 Hwf1 Hq1 (Hsame & Hqs & Hnewly) Hstep.
    destruct (_reveal_region_step_inv b1 p q b2 q2 Hwf1 Hq1 Hstep) as (Hs12 & Hcase).
    split; [by eapply same_hidden_trans|].
    apply Forall_cons in Hq1 as [Hp Hq1].
    destruct (same_hidden_views b b1 p Hsame) as (Hm1 & Hf1 & Ha1 & Hn1).
    destruct Hcase as [(_ & -> & ->) | (Hrv & Hfl & Hnew & Hother & ->)].
    { split; [|done]. intros x Hx. apply Hqs. by apply list_elem_of_further. }
    assert (Hpsafe : mineb b p = false) by apply Hqs, list_elem_of_here.
    split.
    + intros x Hx. apply elem_of_app in Hx as [Hx|Hx].
      { apply Hqs. by apply list_elem_of_further. }
      destruct (adjz b1 p =? 0) eqn:Hz; [|by apply elem_of_nil in Hx].
      apply list_elem_of_filter in Hx as [_ Hx].
      pose proof (wf_adj b1 Hwf1 p Hp) as Hadj.
      rewrite Hm1, Hpsafe in Hadj.
      assert (Hc0 : count (mineb b1) (neighbors b1 p) = 0) by lia.
      rewrite count_zero in Hc0. specialize (Hc0 x Hx).
      by destruct (same_hidden_views b b1 x Hsame) as (<- & _).
    + intros x Hx [Hold Hnow]. destruct (decide (x = p)) as [->|Hne].
      { split; [done | congruence]. }
      apply Hnewly; [done|]. split; [done|].
      rewrite <- Hother; [done | | done]. by apply (same_hidden_on_board b b1).
  - split; [apply same_hidden_refl|]. split.
    + intros x Hx. apply list_elem_of_singleton in Hx as ->. done.
    + intros x _ [Hold Hnow]. congruence.
Qed.

(** When the fill is over, the start cell is revealed unless flagged,
    and around every zero cell it revealed each neighbour is revealed
    unless flagged. *)
Lemma _reveal_region_closed (b : Board) (start : Coord) (b' : Board) :
  wf_board b -> on_board b start ->
  _reveal_region b start = Ok b' ->
  (revb b' start = true \/ flgb b start = true) /\
  forall x, on_board b x -> newly b b' x -> adjz b x = 0 ->
    forall y, y ∈ neighbors b x -> revb b' y = true \/ flgb b y = true.
Proof.
  intros Hwf Hs Hrun.
  assert (Hq : Forall (on_board b) [start]) by (by apply Forall_singleton).
  pose proof (_reveal_region_loop_inv
    (fun b1 q => same_hidden b b1 /\
       (revb b1 start = true \/ flgb b start = true \/ start ∈ q) /\
       forall x, on_board b x -> newly b b1 x -> adjz b x = 0 ->
         forall y, y ∈ neighbors b x ->
           revb b1 y = true \/ flgb b y = true \/ y ∈ q)) as Hinv.
  unfold _reveal_region in Hrun.
  assert (Hend : same_hidden b b' /\
       (revb b' start = true \/ flgb b start = true \/ start ∈ @nil Coord) /\
       forall x, on_board b x -> newly b b' x -> adjz b x = 0 ->
         forall y, y ∈ neighbors b x ->
           revb b' y = true \/ flgb b y = true \/ y ∈ @nil Coord).
  { eapply Hinv; [| exact Hwf | exact Hq | | exact Hrun].
    - clear -Hs. intros b1 p q b2 q2 Hwf1 Hq1 (Hsame & Hstart & Hclosed) Hstep.
      destruct (_reveal_region_step_inv b1 p q b2 q2 Hwf1 Hq1 Hstep)
        as (Hs12 & Hcase).
      split; [by eapply same_hidden_trans|].
      apply Forall_cons in Hq1 as [Hp Hq1].
      destruct (same_hidden_views b b1 p Hsame) as (Hm1 & Hf1 & Ha1 & Hn1).
      (* how a pending cell [y] fares through the step *)
      assert (Hkeep : forall y, on_board b y ->
                revb b1 y = true \/ flgb b y = true \/ y ∈ p :: q ->
                revb b2 y = true \/ flgb b y = true \/ y ∈ q2).
      { intros y Hy Hc.
        destruct Hcase as [(Hskip & -> & ->) | (Hrv & Hfl & Hnew & Hother & ->)].
        - destruct Hc as [Hc | [Hc | Hc]]; [by left | by right; left |].
          apply elem_of_cons in Hc as [-> | Hc]; [|by right; right].
          apply orb_true_iff in Hskip as [Hr | Hf]; [by left|].
          right; left. congruence.
        - destruct (decide (y = p)) as [->|Hne]; [by left|].
          destruct Hc as [Hc | [Hc | Hc]].
          + left. rewrite Hother; [done | | done].
            by apply (same_hidden_on_board b b1).
          + by right; left.
          + apply elem_of_cons in Hc as [-> | Hc]; [done|].
            right; right. apply elem_of_app. by left. }
      split.
      { apply Hkeep; [done|]. tauto. }
      intros x Hx [Hold Hnow] Hzero y Hy.
      assert (Hyb : on_board b y).
      { apply neighbors_on_board in Hy. done. }
      destruct Hcase as [(Hskip & -> & ->) | (Hrv & Hfl & Hnew & Hother & ->)].
      { apply Hkeep; [done|].
        exact (Hclosed x Hx (conj Hold Hnow) Hzero y Hy). }
      destruct (decide (x = p)) as [->|Hne].
      + rewrite Ha1, Hzero. simpl. rewrite Hn1.
        destruct (covb b2 y) eqn:Hcov.
        * right; right. apply elem_of_app. right.
          apply list_elem_of_filter. done.
        * unfold covb in Hcov. apply andb_false_iff in Hcov as [Hc|Hc].
          -- left. by destruct (revb b2 y).
          -- right; left.
             destruct (same_hidden_views b b2 y
                         (same_hidden_trans _ _ _ Hsame Hs12)) as (_ & <- & _).
             by destruct (flgb b2 y).
      + assert (Hx1 : revb b1 x = true).
        { rewrite <- Hother; [done | | done].
          by apply (same_hidden_on_board b b1). }
        destruct (Hclosed x Hx (conj Hold Hx1) Hzero y Hy) as [Hc|[Hc|Hc]].
        * apply (Hkeep y Hyb). by left.
        * by right; left.
        * apply (Hkeep y Hyb). by right; right.
    - split; [apply same_hidden_refl|]. split.
      + right; right. apply list_elem_of_here.
      + intros x _ [Hold Hnow]. congruence. }
  destruct Hend as (_ & Hstart & Hclosed). split.
  - destruct Hstart as [?|[?|Hn]]; [by left | by right | by apply elem_of_nil in Hn].
  - intros x Hx Hn Hz y Hy.
    destruct (Hclosed x Hx Hn Hz y Hy) as [?|[?|Hn']];
      [by left | by right | by apply elem_of_nil in Hn'].
Qed.

(** ** [_check_win], [reveal], [flag] and [unflag] *)

Lemma _check_win_spec (b : Board) :
  wf_board b ->
  _check_win b =
  Ok (if _game_over b then b
      else if existsb (pendingb b) (all_cells (rows b) (cols b)) then b
      else set_over b true).
Proof.
  intros Hwf. unfold _check_win. destruct (_game_over b); [done|].
  rewrite (any_res_total _ (pendingb b)).
  - simpl. by destruct (existsb _ _).
  - intros p Hp. apply elem_of_all_cells in Hp.
    unfold unrevealed_safe, pendingb.
    rewrite (read_mine b Hwf p Hp). simpl.
    destruct (mineb b p); simpl; [done|].
    by rewrite (read_revealed b Hwf p Hp).
Qed.

Lemma reveal_game_over (b : Board) (p : Coord) :
  _game_over b = true -> reveal b p = Ok (b, true).
Proof. intros H. unfold reveal. by rewrite H. Qed.

Lemma flag_game_over (b : Board) (p : Coord) :
  _game_over b = true -> flag b p = Ok b.
Proof. intros H. unfold flag. by rewrite H. Qed.

Lemma unflag_game_over (b : Board) (p : Coord) :
  _game_over b = true -> unflag b p = Ok b.
Proof. intros H. unfold unflag. by rewrite H. Qed.

Lemma reveal_flagged (b : Board) (p : Coord) :
  wf_board b -> on_board b p -> flgb b p = true -> reveal b p = Ok (b, true).
Proof.
  intros Hwf Hp Hf. unfold reveal. destruct (_game_over b); [done|]. simpl.
  by rewrite (read_flagged b Hwf p Hp), Hf.
Qed.

Lemma reveal_revealed (b : Board) (p : Coord) :
  wf_board b -> on_board b p -> revb b p = true -> reveal b p = Ok (b, true).
Proof.
  intros Hwf Hp Hr. unfold reveal. destruct (_game_over b); [done|]. simpl.
  rewrite (read_flagged b Hwf p Hp). simpl. destruct (flgb b p); [done|].
  by rewrite (read_revealed b Hwf p Hp), Hr.
Qed.

Lemma reveal_mine (b : Board) (p : Coord) :
  wf_board b -> on_board b p ->
  _game_over b = false -> flgb b p = false -> revb b p = false ->
  mineb b p = true ->
  exists g, reveal b p = Ok (set_over (set_revealed b g) false, false) /\
    wf_board (set_revealed b g) /\ revb (set_revealed b g) p = true /\
    forall q, on_board b q -> q <> p -> revb (set_revealed b g) q = revb b q.
Proof.
  intros Hwf Hp Hgo Hf Hr Hm. unfold reveal. rewrite Hgo. simpl.
  rewrite (read_flagged b Hwf p Hp), Hf. simpl.
  rewrite (read_revealed b Hwf p Hp), Hr. simpl.
  rewrite (read_mine b Hwf p Hp), Hm. simpl.
  destruct (write_revealed b Hwf p Hp true) as (g & -> & Hrest).
  exists g. by split.
Qed.

Lemma reveal_safe (b : Board) (p : Coord) :
  wf_board b -> on_board b p ->
  _game_over b = false -> flgb b p = false -> revb b p = false ->
  mineb b p = false ->
  exists b1, _reveal_region b p = Ok b1 /\ wf_board b1 /\ same_hidden b b1 /\
    (forall x, on_board b x -> revb b x = true -> revb b1 x = true) /\
    reveal b p =
    Ok (if existsb (pendingb b1) (all_cells (rows b) (cols b)) then b1
        else set_over b1 true, true).
Proof.
  intros Hwf Hp Hgo Hf Hr Hm. unfold reveal. rewrite Hgo. simpl.
  rewrite (read_flagged b Hwf p Hp), Hf. simpl.
  rewrite (read_revealed b Hwf p Hp), Hr. simpl.
  rewrite (read_mine b Hwf p Hp), Hm. simpl.
  destruct (_reveal_region_total b p Hwf Hp) as (b1 & Hb1 & Hwf1 & Hsame & Hmono).
  exists b1. rewrite Hb1. simpl. rewrite (_check_win_spec b1 Hwf1).
  pose proof Hsame as (Hr1 & Hc1 & Hmc & Hmi & Hfl & Had & Hgo1 & Hwc).
  rewrite Hgo1, Hgo, Hr1, Hc1. simpl.
  split; [done|]. split; [done|]. split; [done|]. split; [done|].
  by destruct (existsb (pendingb b1) (all_cells (rows b) (cols b))).
Qed.

Lemma wf_set_over (b : Board) (w : bool) : wf_board b -> wf_board (set_over b w).
Proof. intros []. by constructor. Qed.

Lemma flag_spec (b : Board) (p : Coord) :
  wf_board b -> on_board b p ->
  exists b', flag b p = Ok b' /\ wf_board b' /\
    rows b' = rows b /\ cols b' = cols b /\ mines_count b' = mines_count b /\
    _mine b' = _mine b /\ _revealed b' = _revealed b /\ _adj b' = _adj b /\
    _game_over b' = _game_over b /\ _win_cached b' = _win_cached b /\
    (forall q, on_board b q -> q <> p -> flgb b' q = flgb b q) /\
    flgb b' p = (if _game_over b || revb b p then flgb b p else true).
Proof.
  intros Hwf Hp. unfold flag. destruct (_game_over b) eqn:Hgo; simpl.
  { exists b. split_and!; done. }
  rewrite (read_revealed b Hwf p Hp). simpl. destruct (revb b p); simpl.
  { exists b. split_and!; done. }
  destruct (write_flagged b Hwf p Hp true) as (g & -> & Hwf' & Hnew & Hother).
  simpl. exists (set_flagged b g). split_and!; done.
Qed.

Lemma unflag_spec (b : Board) (p : Coord) :
  wf_board b -> on_board b p ->
  exists b', unflag b p = Ok b' /\ wf_board b' /\
    rows b' = rows b /\ cols b' = cols b /\ mines_count b' = mines_count b /\
    _mine b' = _mine b /\ _revealed b' = _revealed b /\ _adj b' = _adj b /\
    _game_over b' = _game_over b /\ _win_cached b' = _win_cached b /\
    (forall q, on_board b q -> q <> p -> flgb b' q = flgb b q) /\
    flgb b' p = (if _game_over b then flgb b p else false).
Proof.
  intros Hwf Hp. unfold unflag. destruct (_game_over b) eqn:Hgo; simpl.
  { exists b. split_and!; done. }
  destruct (write_flagged b Hwf p Hp false) as (g & -> & Hwf' & Hnew & Hother).
  simpl. exists (set_flagged b g). split_and!; done.
Qed.

(** ** Construction *)

Lemma place_mines_spec (R C : Z) (cells : list Coord) :
  forall g, grid_dims R C g -> Forall (inb R C) cells ->
  exists g', place_mines g cells = Ok g' /\ grid_dims R C g' /\
    forall p, inb R C p ->
      grid_get g' p = if decide (p ∈ cells) then Ok true else grid_get g p.
Proof.
  induction cells as [|c cells IH]; intros g Hd Hall.
  - exists g. split; [done|]. split; [done|]. intros p _.
    case_decide as Hin; [by apply elem_of_nil in Hin | done].
  - apply Forall_cons in Hall as [Hc Hall]. simpl.
    destruct (grid_set_inb R C g c true Hd Hc) as (g1 & -> & Hd1 & Hget & Hother).
    simpl. destruct (IH g1 Hd1 Hall) as (g' & -> & Hd' & Hg').
    exists g'. split; [done|]. split; [done|]. intros p Hp.
    rewrite (Hg' p Hp). destruct (decide (p ∈ cells)) as [Hin|Hnin].
    + rewrite decide_True; [done|]. by apply list_elem_of_further.
    + destruct (decide (p = c)) as [->|Hne].
      * rewrite decide_True; [done|]. apply list_elem_of_here.
      * rewrite decide_False; [by apply Hother|].
        intros Hin. apply elem_of_cons in Hin as [?|?]; done.
Qed.

Lemma adj_cell_spec (b : Board) (p : Coord) :
  dims_ok b -> on_board b p ->
  exists g, adj_cell b p = Ok (set_adj b g) /\ dims_ok (set_adj b g) /\
    adjz (set_adj b g) p = adj_value b p /\
    forall q, on_board b q -> q <> p -> adjz (set_adj b g) q = adjz b q.
Proof.
  intros Hd Hp. unfold adj_cell.
  assert (Hread : forall x, on_board b x -> is_mine b x = Ok (mineb b x)).
  { intros x Hx. unfold mineb.
    destruct (grid_get_inb _ _ _ x (dims_mine b Hd) Hx) as [v Hv].
    unfold is_mine. by rewrite Hv. }
  rewrite (Hread p Hp). simpl.
  assert (Hset : forall v, exists g, grid_set (_adj b) p v = Ok g /\
            dims_ok (set_adj b g) /\ adjz (set_adj b g) p = v /\
            forall q, on_board b q -> q <> p -> adjz (set_adj b g) q = adjz b q).
  { intros v.
    destruct (grid_set_inb _ _ _ p v (dims_adj b Hd) Hp)
      as (g & Hg & Hdg & Hget & Hother).
    exists g. split; [done|]. split; [by destruct Hd; constructor|]. split.
    - unfold adjz, adj. simpl. by rewrite Hget.
    - intros q Hq Hne. unfold adjz, adj. simpl. by rewrite Hother. }
  unfold adj_value. destruct (mineb b p) eqn:Hm.
  - destruct (Hset (-1)) as (g & -> & Hrest). simpl. by exists g.
  - rewrite (filter_res_total _ (mineb b)).
    2:{ intros x Hx. apply Hread. by apply neighbors_on_board in Hx. }
    simpl.
    destruct (Hset (Z.of_nat (length (filter (fun x => mineb b x = true)
                                        (neighbors b p)))))
      as (g & -> & Hrest).
    simpl. by exists g.
Qed.

Lemma fill_adj_spec (cells : list Coord) :
  forall b, dims_ok b -> Forall (on_board b) cells -> NoDup cells ->
  exists b', fill_adj b cells = Ok b' /\ dims_ok b' /\
    rows b' = rows b /\ cols b' = cols b /\ mines_count b' = mines_count b /\
    _mine b' = _mine b /\ _revealed b' = _revealed b /\
    _flagged b' = _flagged b /\ _game_over b' = _game_over b /\
    _win_cached b' = _win_cached b /\
    forall p, on_board b p ->
      adjz b' p = if decide (p ∈ cells) then adj_value b p else adjz b p.
Proof.
  induction cells as [|c cells IH]; intros b Hd Hall Hnd.
  - exists b. split_and!; done.
  - apply Forall_cons in Hall as [Hc Hall].
    apply NoDup_cons in Hnd as [Hnc Hnd]. simpl.
    destruct (adj_cell_spec b c Hd Hc) as (g & -> & Hd1 & Hnew & Hother). simpl.
    destruct (IH (set_adj b g) Hd1 Hall Hnd)
      as (b' & -> & Hd' & Hr & Hcl & Hmc & Hmi & Hrv & Hfl & Hgo & Hwc & Hadj).
    exists b'. split_and!; try done. intros p Hp.
    rewrite (Hadj p Hp). destruct (decide (p ∈ cells)) as [Hin|Hnin].
    + rewrite decide_True; [done|]. by apply list_elem_of_further.
    + destruct (decide (p = c)) as [->|Hne].
      * rewrite decide_True; [done|]. apply list_elem_of_here.
      * rewrite decide_False; [by apply Hother|].
        intros Hin. apply elem_of_cons in Hin as [?|?]; done.
Qed.

Lemma count_member (S l : list Coord) :
  NoDup S -> NoDup l -> S ⊆ l ->
  count (fun p => bool_decide (p ∈ S)) l = len S.
Proof.
  intros HS Hl Hsub. unfold count, len. f_equal.
  apply Permutation_length, NoDup_Permutation; [by apply NoDup_filter | done |].
  intros x. rewrite list_elem_of_filter, bool_decide_eq_true.
  split; [tauto|]. intros Hx. split; [done|]. by apply Hsub.
Qed.

Section Construction.
Context `{PyRandom}.
Variables (R C M : Z) (rng : Rng).
Hypothesis HM : 1 <= M < R * C.

Let cells : list Coord := fst (shuffle rng (all_cells R C)).

Lemma mined_cells_facts :
  NoDup (take (Z.to_nat M) cells) /\
  Forall (inb R C) (take (Z.to_nat M) cells).
Proof.
  pose proof (shuffle_perm rng (all_cells R C)) as Hperm. fold cells in Hperm.
  assert (Hnd : NoDup cells).
  { rewrite Hperm. apply NoDup_all_cells. }
  split.
  - rewrite <- (take_drop (Z.to_nat M) cells) in Hnd.
    by apply NoDup_app in Hnd as [? _].
  - apply Forall_forall. intros x Hx. apply elem_of_all_cells.
    rewrite <- Hperm. by apply (subseteq_take (Z.to_nat M)).
Qed.

(** On a grid with at least one row and one column there are enough
    cells for the [M] mines. *)
Lemma mined_cells_len :
  0 < R -> 0 < C -> len (take (Z.to_nat M) cells) = M.
Proof.
  intros HR HC.
  pose proof (shuffle_perm rng (all_cells R C)) as Hperm. fold cells in Hperm.
  unfold len. rewrite length_take, Hperm, length_all_cells. nia.
Qed.

(** A construction that passes the assertion succeeds and gives a
    well-formed fresh board whose mines are the first [M] shuffled
    cells. *)
Lemma Board_init_spec :
  exists b, Board_init R C M rng = Ok b /\ wf_board b /\
    rows b = R /\ cols b = C /\ mines_count b = M /\
    _game_over b = false /\ _win_cached b = None /\
    (forall p, on_board b p ->
       mineb b p = bool_decide (p ∈ take (Z.to_nat M) cells) /\
       revb b p = false /\ flgb b p = false).
Proof.
  unfold Board_init.
  assert (Hassert : (1 <=? M) && (M <? R * C) = true) by lia.
  rewrite Hassert. simpl. fold cells.
  destruct mined_cells_facts as (Hnd & Hin).
  destruct (place_mines_spec R C (take (Z.to_nat M) cells)
              (grid_make R C false) (grid_make_dims R C false) Hin)
    as (g & -> & Hdg & Hg). simpl.
  set (b0 := mkBoard R C M g (grid_make R C false) (grid_make R C false)
                     (grid_make R C 0) false None).
  assert (Hd0 : dims_ok b0).
  { constructor; simpl; [done | apply grid_make_dims ..]. }
  destruct (fill_adj_spec (all_cells R C) b0 Hd0)
    as (b & -> & Hd & Hr & Hc & Hmc & Hmi & Hrv & Hfl & Hgo & Hwc & Hadj).
  { apply Forall_forall. intros x Hx. by apply elem_of_all_cells. }
  { apply NoDup_all_cells. }
  assert (Hviews : forall p, mineb b p = mineb b0 p /\ revb b p = revb b0 p /\
            flgb b p = flgb b0 p /\ neighbors b p = neighbors b0 p).
  { intros p. unfold mineb, revb, flgb, is_mine, revealed, flagged, neighbors,
      in_bounds. by rewrite Hmi, Hrv, Hfl, Hr, Hc. }
  exists b. split; [done|]. split.
  - destruct Hd. constructor; try done. intros p Hp.
    assert (Hp0 : on_board b0 p).
    { unfold on_board in *. by rewrite Hr, Hc in Hp. }
    rewrite (Hadj p Hp0), decide_True by (by apply elem_of_all_cells).
    unfold adj_value. destruct (Hviews p) as (-> & _ & _ & ->).
    destruct (mineb b0 p); [done|]. apply count_ext. intros x _.
    by destruct (Hviews x) as (-> & _).
  - split_and!; try done. intros p Hp.
    assert (Hp0 : inb R C p).
    { unfold on_board in Hp. by rewrite Hr, Hc in Hp. }
    destruct (Hviews p) as (-> & -> & -> & _).
    unfold mineb, revb, flgb, is_mine, revealed, flagged. simpl.
    rewrite (Hg p Hp0), !grid_make_get by done. split; [|done].
    case_decide; simpl; [by rewrite bool_decide_eq_true_2|].
    by rewrite bool_decide_eq_false_2.
Qed.
End Construction.

(** ** Invariants of a game *)

Lemma count_split {A : Type} (f g : A -> bool) (l : list A) :
  count (fun x => g x && f x) l + count (fun x => g x && negb (f x)) l
  = count g l.
Proof.
  induction l as [|x l IH]; [done|]. rewrite !count_cons.
  destruct (g x), (f x); simpl; lia.
Qed.

Lemma count_negb {A : Type} (f : A -> bool) (l : list A) :
  count f l + count (fun x => negb (f x)) l = len l.
Proof.
  induction l as [|x l IH]; [done|]. rewrite !count_cons.
  unfold len in *. simpl length. destruct (f x); simpl; lia.
Qed.

Lemma existsb_count {A : Type} (f : A -> bool) (l : list A) :
  existsb f l = false <-> count f l = 0.
Proof.
  rewrite count_zero. induction l as [|x l IH]; simpl.
  - split; [|done]. intros _ y Hy. by apply elem_of_nil in Hy.
  - rewrite orb_false_iff, IH. split.
    + intros [Hx Hl] y Hy. apply elem_of_cons in Hy as [->|Hy]; auto.
    + intros Hall. split; [apply Hall, list_elem_of_here|].
      intros y Hy. apply Hall. by apply list_elem_of_further.
Qed.

Lemma existsb_ext {A : Type} (f g : A -> bool) (l : list A) :
  (forall x, x ∈ l -> f x = g x) -> existsb f l = existsb g l.
Proof.
  induction l as [|y l IH]; intros Hfg; [done|]. simpl.
  rewrite (Hfg y) by apply list_elem_of_here. f_equal. apply IH.
  intros x Hx. apply Hfg. by apply list_elem_of_further.
Qed.

(** The count of revealed safe cells against the cells still pending. *)
Lemma revealed_safe_count_eq (b : Board) :
  0 < rows b -> 0 < cols b ->
  revealed_safe_count b =
  rows b * cols b - mine_cells b
  - count (pendingb b) (all_cells (rows b) (cols b)).
Proof.
  intros Hr Hc. unfold revealed_safe_count, mine_cells.
  set (cells := all_cells (rows b) (cols b)).
  pose proof (count_negb (mineb b) cells) as H1.
  pose proof (count_split (revb b) (fun p => negb (mineb b p)) cells) as H2.
  assert (Hlen : len cells = rows b * cols b).
  { unfold len, cells. rewrite length_all_cells. nia. }
  assert (H3 : count (fun p => revb b p && negb (mineb b p)) cells
               = count (fun x => negb (mineb b x) && revb b x) cells).
  { apply count_ext. intros x _. apply andb_comm. }
  assert (H4 : count (pendingb b) cells
               = count (fun x => negb (mineb b x) && negb (revb b x)) cells).
  { by apply count_ext. }
  cbv beta in H2. lia.
Qed.

Section Game.
Context `{PyRandom}.

Lemma board_inv_init (R C M : Z) (rng : Rng) (b : Board) :
  0 < R -> 0 < C -> Board_init R C M rng = Ok b -> board_inv b.
Proof.
  intros HR HC Hinit.
  assert (HM : 1 <= M < R * C).
  { unfold Board_init in Hinit.
    destruct ((1 <=? M) && (M <? R * C)) eqn:Ha; [lia | discriminate]. }
  destruct (Board_init_spec R C M rng HM)
    as (b1 & Hb1 & Hwf & Hr & Hc & Hmc & Hgo & Hwc & Hcells).
  rewrite Hinit in Hb1. simplify_eq.
  destruct (mined_cells_facts (rows b1) (cols b1) (mines_count b1) rng)
    as (Hnd & Hin).
  pose proof (mined_cells_len (rows b1) (cols b1) (mines_count b1) rng HM HR HC)
    as Hlen.
  assert (Hmines : mine_cells b1 = mines_count b1).
  { unfold mine_cells. etrans; [|exact Hlen].
    rewrite <- (count_member _ (all_cells (rows b1) (cols b1)) Hnd
                  (NoDup_all_cells _ _)).
    - apply count_ext. intros x Hx. apply elem_of_all_cells in Hx.
      by destruct (Hcells x Hx) as (-> & _).
    - intros x Hx. apply elem_of_all_cells.
      rewrite Forall_forall in Hin. by apply Hin. }
  constructor; try done; try lia.
  unfold won. rewrite Hwc. simpl. symmetry. apply negb_false_iff.
  destruct (existsb _ _) eqn:Hex; [done|]. exfalso.
  apply existsb_count in Hex.
  pose proof (revealed_safe_count_eq b1 HR HC) as Hcount.
  rewrite Hex, Hmines in Hcount.
  assert (Hzero : revealed_safe_count b1 = 0).
  { unfold revealed_safe_count. apply count_zero. intros x Hx.
    apply elem_of_all_cells in Hx. by destruct (Hcells x Hx) as (_ & -> & _). }
  lia.
Qed.
End Game.

Lemma mineb_eq (b b' : Board) (p : Coord) : _mine b' = _mine b -> mineb b' p = mineb b p.
Proof. intros E. unfold mineb, is_mine. by rewrite E. Qed.

Lemma revb_eq (b b' : Board) (p : Coord) :
  _revealed b' = _revealed b -> revb b' p = revb b p.
Proof. intros E. unfold revb, revealed. by rewrite E. Qed.

Lemma flgb_eq (b b' : Board) (p : Coord) :
  _flagged b' = _flagged b -> flgb b' p = flgb b p.
Proof. intros E. unfold flgb, flagged. by rewrite E. Qed.

(** The invariant only reads the size, the mines, the revealed cells and
    the status; a change of flags keeps it. *)
Lemma board_inv_flags (b b' : Board) :
  board_inv b -> wf_board b' ->
  rows b' = rows b -> cols b' = cols b -> mines_count b' = mines_count b ->
  _mine b' = _mine b -> _revealed b' = _revealed b ->
  _game_over b' = _game_over b -> _win_cached b' = _win_cached b ->
  board_inv b'.
Proof.
  intros [Hwf Hr Hc Hm Hv Hp Hw] Hwf' Er Ec Emc Emi Erv Ego Ewc.
  constructor; try done; try (rewrite ?Er, ?Ec, ?Emc; done).
  - unfold mine_cells. rewrite Er, Ec, Emc, <- Hm. apply count_ext.
    intros x _. by apply mineb_eq.
  - rewrite Ego, Ewc. done.
  - unfold won. rewrite Ewc, Er, Ec. fold (won b). rewrite Hw. f_equal.
    apply existsb_ext. intros x _. unfold pendingb.
    by rewrite (mineb_eq b b'), (revb_eq b b').
Qed.

Lemma board_inv_reveal (b : Board) (p : Coord) (b' : Board) (alive : bool) :
  board_inv b -> on_board b p -> reveal b p = Ok (b', alive) -> board_inv b'.
Proof.
  intros Hinv Hp Hrev. pose proof Hinv as [Hwf Hr Hc Hm Hv Hprog Hw].
  destruct (_game_over b) eqn:Hgo.
  { rewrite reveal_game_over in Hrev by done. by simplify_eq. }
  destruct (flgb b p) eqn:Hfl.
  { rewrite reveal_flagged in Hrev by done. by simplify_eq. }
  destruct (revb b p) eqn:Hrv.
  { rewrite reveal_revealed in Hrev by done. by simplify_eq. }
  assert (Hnone : _win_cached b = None) by (by apply Hprog).
  assert (Hwon : won b = false).
  { unfold won. by rewrite Hnone. }
  destruct (mineb b p) eqn:Hmine.
  - destruct (reveal_mine b p Hwf Hp Hgo Hfl Hrv Hmine)
      as (g & Heq & Hwf' & Hnew & Hother).
    rewrite Heq in Hrev. simplify_eq.
    constructor; try done.
    + by apply wf_set_over.
    + unfold won. simpl. symmetry. apply negb_false_iff.
      rewrite Hwon in Hw. symmetry in Hw. apply negb_false_iff in Hw.
      rewrite <- Hw. apply existsb_ext. intros x Hx.
      apply elem_of_all_cells in Hx. unfold pendingb.
      change (mineb (set_over (set_revealed b g) false) x) with (mineb b x).
      change (revb (set_over (set_revealed b g) false) x)
        with (revb (set_revealed b g) x).
      destruct (decide (x = p)) as [->|Hne]; [by rewrite Hmine|].
      by rewrite Hother.
  - destruct (reveal_safe b p Hwf Hp Hgo Hfl Hrv Hmine)
      as (b1 & Hfill & Hwf1 & Hsame & Hmono & Heq).
    rewrite Heq in Hrev. simplify_eq.
    pose proof Hsame as (Er & Ec & Emc & Emi & Efl & Ead & Ego & Ewc).
    assert (Hm1 : mine_cells b1 = mines_count b1).
    { unfold mine_cells. rewrite Er, Ec, Emc, <- Hm. apply count_ext.
      intros x _. by apply mineb_eq. }
    destruct (existsb (pendingb b1) (all_cells (rows b) (cols b))) eqn:Hex.
    + constructor; try done; try (rewrite ?Er, ?Ec, ?Emc; done).
      * intros _. by rewrite Ewc.
      * unfold won. rewrite Ewc, Er, Ec, Hex. exact Hwon.
    + constructor; try done; try (simpl; rewrite ?Er, ?Ec, ?Emc; done).
      * by apply wf_set_over.
      * unfold won. simpl. rewrite Er, Ec. symmetry. apply negb_true_iff.
        rewrite <- Hex. by apply existsb_ext.
Qed.

Lemma board_inv_step (b b' : Board) :
  board_inv b -> board_step b b' -> board_inv b'.
Proof.
  intros Hinv [p alive Hp Hrev | p Hp Hfl | p Hp Hun].
  - by eapply board_inv_reveal.
  - destruct (flag_spec b p (inv_wf b Hinv) Hp)
      as (b1 & Heq & Hwf1 & Er & Ec & Emc & Emi & Erv & _ & Ego & Ewc & _).
    rewrite Heq in Hfl. simplify_eq. by eapply board_inv_flags.
  - destruct (unflag_spec b p (inv_wf b Hinv) Hp)
      as (b1 & Heq & Hwf1 & Er & Ec & Emc & Emi & Erv & _ & Ego & Ewc & _).
    rewrite Heq in Hun. simplify_eq. by eapply board_inv_flags.
Qed.

Lemma board_step_hidden (b b' : Board) :
  wf_board b -> board_step b b' ->
  wf_board b' /\ rows b' = rows b /\ cols b' = cols b /\ _mine b' = _mine b.
Proof.
  intros Hwf [p alive Hp Hrev | p Hp Hfl | p Hp Hun].
  - destruct (_game_over b) eqn:Hgo.
    { rewrite reveal_game_over in Hrev by done. by simplify_eq. }
    destruct (flgb b p) eqn:Hflg.
    { rewrite reveal_flagged in Hrev by done. by simplify_eq. }
    destruct (revb b p) eqn:Hrv.
    { rewrite reveal_revealed in Hrev by done. by simplify_eq. }
    destruct (mineb b p) eqn:Hmine.
    + destruct (reveal_mine b p Hwf Hp Hgo Hflg Hrv Hmine)
        as (g & Heq & Hwf' & _).
      rewrite Heq in Hrev. simplify_eq. split; [by apply wf_set_over | done].
    + destruct (reveal_safe b p Hwf Hp Hgo Hflg Hrv Hmine)
        as (b1 & _ & Hwf1 & (Er & Ec & _ & Emi & _) & _ & Heq).
      rewrite Heq in Hrev. simplify_eq.
      destruct (existsb (pendingb b1) (all_cells (rows b) (cols b)));
        [done | split; [by apply wf_set_over | done]].
  - destruct (flag_spec b p Hwf Hp) as (b1 & Heq & Hwf1 & Er & Ec & _ & Emi & _).
    rewrite Heq in Hfl. by simplify_eq.
  - destruct (unflag_spec b p Hwf Hp) as (b1 & Heq & Hwf1 & Er & Ec & _ & Emi & _).
    rewrite Heq in Hun. by simplify_eq.
Qed.

Lemma board_steps_hidden (b b' : Board) :
  wf_board b -> rtc board_step b b' ->
  wf_board b' /\ rows b' = rows b /\ cols b' = cols b /\ _mine b' = _mine b.
Proof.
  intros Hwf Hrtc. induction Hrtc as [b | b b1 b2 Hs _ IH]; [done|].
  destruct (board_step_hidden b b1 Hwf Hs) as (Hwf1 & Er & Ec & Em).
  destruct (IH Hwf1) as (Hwf2 & Er2 & Ec2 & Em2).
  split; [done|]. split_and!; congruence.
Qed.

(** A grid without a row or without a column has no cell. *)
Lemma all_cells_degenerate (R C : Z) : ~ (0 < R /\ 0 < C) -> all_cells R C = [].
Proof.
  intros Hneg. destruct (all_cells R C) as [|p l] eqn:Hcells; [done|].
  assert (Hp : p ∈ all_cells R C) by (rewrite Hcells; apply list_elem_of_here).
  apply elem_of_all_cells in Hp. unfold inb in Hp. lia.
Qed.

Lemma Board_init_assert `{PyRandom} (R C M : Z) (rng : Rng) (b : Board) :
  Board_init R C M rng = Ok b -> 1 <= M < R * C.
Proof.
  unfold Board_init. intros Hinit.
  destruct ((1 <=? M) && (M <? R * C)) eqn:Ha; [lia | discriminate].
Qed.

(** A board of a game satisfies the invariant, or its grid has no cell
    and it is the fresh board still. *)
Lemma playable_cases `{PyRandom} (b : Board) :
  playable b ->
  board_inv b \/
  (all_cells (rows b) (cols b) = [] /\ _game_over b = false /\
   1 <= mines_count b < rows b * cols b).
Proof.
  induction 1 as [R C M rng b Hinit | b b' _ IH Hstep].
  - destruct (decide (0 < R /\ 0 < C)) as [[HR HC]|Hneg].
    + left. exact (board_inv_init R C M rng b HR HC Hinit).
    + right. pose proof (Board_init_assert R C M rng b Hinit) as HM.
      destruct (Board_init_spec R C M rng HM)
        as (b1 & Hb1 & _ & Hr & Hc & Hmc & Hgo & _).
      rewrite Hinit in Hb1. simplify_eq.
      split; [by apply all_cells_degenerate|]. split; [done | lia].
  - destruct IH as [Hinv|(Hnil & _)]; [left; by eapply board_inv_step|].
    exfalso.
    assert (Hp : exists p, on_board b p).
    { destruct Hstep as [p ? Hp _ | p Hp _ | p Hp _]; eauto. }
    destruct Hp as [p Hp]. apply elem_of_all_cells in Hp.
    rewrite Hnil in Hp. by apply elem_of_nil in Hp.
Qed.

Lemma playable_wf `{PyRandom} (b : Board) : playable b -> wf_board b.
Proof.
  induction 1 as [R C M rng b Hinit | b b' _ IH Hstep].
  - pose proof (Board_init_assert R C M rng b Hinit) as HM.
    destruct (Board_init_spec R C M rng HM) as (b1 & Hb1 & Hwf & _).
    rewrite Hinit in Hb1. by simplify_eq.
  - by destruct (board_step_hidden b b' IH Hstep) as [? _].
Qed.

(** ** Example boards are boards of a game *)

Lemma line7_init : @Board_init counter_random 1 7 1 6%nat = Ok line7.
Proof. vm_compute. reflexivity. Qed.

Lemma line7_playable : @playable counter_random line7.
Proof. apply (@playable_init counter_random 1 7 1 6%nat), line7_init. Qed.

Lemma line7_wf : wf_board line7.
Proof. exact (@playable_wf counter_random _ line7_playable). Qed.

Example neighbors_corner :
  neighbors line7_mid (0, 0) = [(0, 1)] /\
  neighbors line7_mid (0, 3) = [(0, 2); (0, 4)].
Proof. split; reflexivity. Qed.

Example reveal_first_click :
  reveal line7_mid (0, 0) = Ok (line7_mid_open, true).
Proof. vm_compute. reflexivity. Qed.

Example negative_index_wraps :
  revealed line7_mid_open (0, -5) = Ok true /\
  revealed line7_mid_open (0, 7) = Fail IndexError.
Proof. split; reflexivity. Qed.

Lemma line7_lost_reveal : reveal line7 (0, 6) = Ok (line7_lost, false).
Proof. vm_compute. reflexivity. Qed.

Lemma line7_lost_playable : @playable counter_random line7_lost.
Proof.
  apply (@playable_step counter_random line7); [apply line7_playable|].
  apply (step_reveal _ _ (0, 6) false); [|apply line7_lost_reveal].
  unfold on_board, inb. simpl. lia.
Qed.

(** ** C4: the result of [reveal] *)

(** C4.  [reveal] returns alive = false exactly when it reveals a mine.
    On a terminal board, a flagged cell or a revealed cell it returns
    alive = true and the board it was given.  On an unflagged,
    unrevealed mine of a board in progress it marks the cell revealed,
    leaves the board Lost and returns alive = false, after which every
    reveal, flag and unflag gives the board back unchanged.  In every
    other case it returns alive = true. *)
Theorem reveal_alive_iff_mine (b : Board) (p : Coord) :
  wf_board b -> on_board b p ->
  exists b' alive, reveal b p = Ok (b', alive) /\
    (_game_over b = true \/ flgb b p = true \/ revb b p = true ->
       alive = true /\ b' = b) /\
    (_game_over b = false -> flgb b p = false -> revb b p = false ->
     mineb b p = true ->
       alive = false /\ revb b' p = true /\ status b' = Lost /\
       forall q, reveal b' q = Ok (b', true) /\ flag b' q = Ok b' /\
                 unflag b' q = Ok b') /\
    (_game_over b = false -> flgb b p = false -> revb b p = false ->
     mineb b p = false -> alive = true) /\
    (alive = false <->
     exists x, on_board b x /\ mineb b x = true /\ newly b b' x).
Proof.
  intros Hwf Hp.
  destruct (_game_over b) eqn:Hgo.
  { exists b, true. rewrite reveal_game_over by done.
    split_and!; try done. split; [done|].
    intros (x & _ & _ & Hold & Hnow). congruence. }
  destruct (flgb b p) eqn:Hfl.
  { exists b, true. rewrite reveal_flagged by done.
    split_and!; try done. split; [done|].
    intros (x & _ & _ & Hold & Hnow). congruence. }
  destruct (revb b p) eqn:Hrv.
  { exists b, true. rewrite reveal_revealed by done.
    split_and!; try done. split; [done|].
    intros (x & _ & _ & Hold & Hnow). congruence. }
  destruct (mineb b p) eqn:Hmine.
  - destruct (reveal_mine b p Hwf Hp Hgo Hfl Hrv Hmine)
      as (g & Heq & Hwf' & Hnew & Hother).
    exists (set_over (set_revealed b g) false), false.
    split; [done|]. split_and!.
    + intros [?|[?|?]]; done.
    + intros _ _ _ _. split_and!; done.
    + done.
    + split; [|done]. intros _. exists p. by split_and!.
  - destruct (reveal_safe b p Hwf Hp Hgo Hfl Hrv Hmine)
      as (b1 & Hfill & Hwf1 & Hsame & Hmono & Heq).
    eexists _, true. split; [exact Heq|]. split_and!.
    + intros [?|[?|?]]; done.
    + done.
    + done.
    + split; [done|]. intros (x & Hx & Hxm & Hold & Hnow). exfalso.
      assert (Hn1 : newly b b1 x).
      { split; [done|].
        by destruct (existsb (pendingb b1) (all_cells (rows b) (cols b))). }
      destruct (_reveal_region_no_mine b p b1 Hwf Hp Hmine Hfill x Hx Hn1).
      congruence.
Qed.

Lemma reveal_alive_iff_mine_witness :
  wf_board line7 /\ on_board line7 (0, 6) /\
  exists b' alive, reveal line7 (0, 6) = Ok (b', alive) /\ alive = false.
Proof.
  assert (Hb : on_board line7 (0, 6)) by (unfold on_board, inb; simpl; lia).
  split; [apply line7_wf|]. split; [exact Hb|].
  destruct (reveal_alive_iff_mine line7 (0, 6) line7_wf Hb)
    as (b' & alive & Hrev & _ & Hmine & _).
  exists b', alive. split; [exact Hrev|].
  apply Hmine; reflexivity.
Defined.

(** ** C6: a terminal board is frozen *)

(** C6.  On a terminal board [reveal], [flag] and [unflag] return the
    board they were given, so every query answers as before; a call
    changes the status only from InProgress, and only to Lost or Won;
    and a board that is terminal stays the same board through any
    further calls. *)
Theorem terminal_board_frozen :
  (forall b p, status b <> InProgress ->
     reveal b p = Ok (b, true) /\ flag b p = Ok b /\ unflag b p = Ok b) /\
  (forall b b', board_step b b' -> status b' <> status b ->
     status b = InProgress /\ (status b' = Lost \/ status b' = Won)) /\
  (forall b b', rtc board_step b b' -> status b <> InProgress -> b' = b).
Proof.
  assert (Hterm : forall b, status b <> InProgress -> _game_over b = true).
  { intros b. unfold status. by destruct (_game_over b). }
  assert (Hstep : forall b b', board_step b b' -> status b <> InProgress -> b' = b).
  { intros b b' Hs Ht. apply Hterm in Ht.
    destruct Hs as [p alive _ Hr | p _ Hf | p _ Hu].
    - rewrite reveal_game_over in Hr by done. by simplify_eq.
    - rewrite flag_game_over in Hf by done. by simplify_eq.
    - rewrite unflag_game_over in Hu by done. by simplify_eq. }
  split_and!.
  - intros b p Ht. apply Hterm in Ht.
    by rewrite reveal_game_over, flag_game_over, unflag_game_over.
  - intros b b' Hs Hne.
    destruct (status b) eqn:Hst.
    + split; [done|]. destruct (status b'); [done | by left | by right].
    + exfalso. apply Hne. rewrite (Hstep b b' Hs); [done | by rewrite Hst].
    + exfalso. apply Hne. rewrite (Hstep b b' Hs); [done | by rewrite Hst].
  - intros b b' Hrtc Ht. induction Hrtc as [b | b b1 b2 Hs _ IH]; [done|].
    rewrite (Hstep b b1 Hs Ht) in IH. by apply IH.
Qed.

Lemma terminal_board_frozen_witness :
  status line7_lost <> InProgress /\
  reveal line7_lost (0, 0) = Ok (line7_lost, true) /\
  flag line7_lost (0, 0) = Ok line7_lost /\
  unflag line7_lost (0, 0) = Ok line7_lost.
Proof.
  assert (Ht : status line7_lost <> InProgress) by (vm_compute; discriminate).
  split; [exact Ht|].
  exact (proj1 terminal_board_frozen line7_lost (0, 0) Ht).
Defined.

(** ** C8: the mines of a board *)

(** C8, as the code has it.  A construction with at least one row, at
    least one column and 1 <= mines < rows * cols succeeds, exactly
    [mines] cells of the grid are mines, and [reveal], [flag] and
    [unflag] never change which cells are mines. *)
Theorem mine_layout_fixed `{PyRandom} (R C M : Z) (rng : Rng) :
  0 < R -> 0 < C -> 1 <= M < R * C ->
  exists b, Board_init R C M rng = Ok b /\ mine_cells b = M /\
    forall b', rtc board_step b b' ->
      (forall p, is_mine b' p = is_mine b p) /\ mine_cells b' = M.
Proof.
  intros HR HC HM.
  destruct (Board_init_spec R C M rng HM) as (b & Hb & Hwf & Hr & Hc & Hmc & _).
  pose proof (board_inv_init R C M rng b HR HC Hb) as Hinv.
  assert (Hcount : mine_cells b = M).
  { rewrite (inv_mines b Hinv). exact Hmc. }
  exists b. split; [done|]. split; [done|].
  intros b' Hsteps.
  destruct (board_steps_hidden b b' Hwf Hsteps) as (_ & Er & Ec & Em).
  split.
  - intros p. unfold is_mine. by rewrite Em.
  - rewrite <- Hcount. unfold mine_cells. rewrite Er, Ec.
    apply count_ext. intros x _. by apply mineb_eq.
Qed.

Lemma mine_layout_fixed_witness :
  exists b, @Board_init counter_random 1 7 1 6%nat = Ok b /\ mine_cells b = 1.
Proof.
  destruct (@mine_layout_fixed counter_random 1 7 1 6%nat) as (b & Hb & Hm & _);
    [lia | lia | lia |].
  exists b. split; [exact Hb | exact Hm].
Defined.

(** The assertion of [__init__] also lets a grid of negative size
    through: [Board(-1, -2, 1)] is built with no cell and no mine. *)
Lemma negative_grid_has_no_mine :
  ~ (forall (H : PyRandom) (R C M : Z) (rng : Rng),
       1 <= M < R * C ->
       exists b, Board_init R C M rng = Ok b /\ mine_cells b = M).
Proof.
  intros Hevery.
  destruct (Hevery counter_random (-1) (-2) 1 0%nat) as (b & Hb & Hm); [lia|].
  vm_compute in Hb. injection Hb as <-. vm_compute in Hm. discriminate.
Qed.

(** ** C5: the win *)

(** C5.  A board of a game has status Won exactly when the number of
    revealed cells that are not mines is rows * cols - mines_count; and
    on a board of one row, two columns and one mine, whatever the seed,
    revealing the cell that is not the mine gives Won at once. *)
Theorem won_exactly_when_safe_cells_revealed `{PyRandom} :
  (forall b, playable b ->
     (status b = Won <->
      revealed_safe_count b = rows b * cols b - mines_count b)) /\
  (forall seed b p,
     Board_init 1 2 1 (Random seed) = Ok b ->
     on_board b p -> mineb b p = false ->
     exists b', reveal b p = Ok (b', true) /\ status b' = Won).
Proof.
  split.
  - intros b Hplay.
    destruct (playable_cases b Hplay) as [Hinv|(Hnil & Hgo & Hv)].
    2:{ unfold status, revealed_safe_count. rewrite Hgo, Hnil, count_nil.
        split; [discriminate | lia]. }
    pose proof Hinv as [Hwf Hr Hc Hm Hv Hprog Hw].
    rewrite (revealed_safe_count_eq b Hr Hc), Hm.
    assert (Hst : status b = Won <-> won b = true).
    { unfold status. destruct (_game_over b) eqn:Hgo.
      - by destruct (won b).
      - unfold won. rewrite Hprog by done. simpl. split; discriminate. }
    rewrite Hst, Hw, negb_true_iff, existsb_count. lia.
  - intros seed b p Hinit Hp Hsafe.
    assert (HM : 1 <= 1 < 1 * 2) by lia.
    destruct (Board_init_spec 1 2 1 (Random seed) HM)
      as (b0 & Hb0 & Hwf & Hr & Hc & Hmc & Hgo & Hwc & Hfresh).
    rewrite Hinit in Hb0. simplify_eq.
    pose proof (board_inv_init 1 2 1 (Random seed) b0 ltac:(lia) ltac:(lia) Hinit)
      as Hinv.
    destruct (Hfresh p Hp) as (_ & Hrv & Hfl).
    destruct (reveal_safe b0 p Hwf Hp Hgo Hfl Hrv Hsafe)
      as (b1 & Hfill & Hwf1 & Hsame & Hmono & Heq).
    destruct (_reveal_region_closed b0 p b1 Hwf Hp Hfill) as [[Hp1|Hp1] _];
      [|congruence].
    assert (Hmines : count (mineb b0) [(0, 0); (0, 1)] = 1).
    { pose proof (inv_mines b0 Hinv) as Hm. unfold mine_cells in Hm.
      rewrite Hr, Hc, Hmc in Hm. exact Hm. }
    assert (Hnone : existsb (pendingb b1) (all_cells (rows b0) (cols b0)) = false).
    { rewrite Hr, Hc. change (all_cells 1 2) with [(0, 0); (0, 1)].
      assert (Hpend : forall x, pendingb b1 x = negb (mineb b0 x) && negb (revb b1 x)).
      { intros x. unfold pendingb.
        by destruct (same_hidden_views b0 b1 x Hsame) as (-> & _). }
      simpl. rewrite !Hpend. rewrite !count_cons, count_nil in Hmines.
      assert (Hcase : p = (0, 0) \/ p = (0, 1)).
      { unfold on_board, inb in Hp. rewrite Hr, Hc in Hp.
        destruct p as [r c]. simpl in Hp.
        assert (r = 0) as -> by lia.
        assert (c = 0 \/ c = 1) as [-> | ->] by lia; auto. }
      destruct Hcase as [-> | ->]; rewrite Hp1, Hsafe; rewrite Hsafe in Hmines.
      + destruct (mineb b0 (0, 1)); [done | simpl in Hmines; lia].
      + destruct (mineb b0 (0, 0)); [done | simpl in Hmines; lia]. }
    rewrite Hnone in Heq. eexists. split; [exact Heq|]. reflexivity.
Qed.

Lemma won_exactly_when_safe_cells_revealed_witness :
  @playable counter_random line7 /\
  (status line7 = Won <->
   revealed_safe_count line7 = rows line7 * cols line7 - mines_count line7).
Proof.
  split; [apply line7_playable|].
  apply (proj1 (@won_exactly_when_safe_cells_revealed counter_random)).
  apply line7_playable.
Defined.

(** ** C3: the flood fill *)

Lemma fill_region_on_board (b : Board) (start y : Coord) :
  on_board b start -> fill_region b start y -> on_board b y.
Proof.
  intros Hs Hy. destruct Hy as [|x y _ _ _ Hn]; [done|].
  by apply neighbors_on_board in Hn.
Qed.

(** C3, as the code has it.  After [reveal] on a covered cell that is
    not a mine, on a board in progress, every unflagged cell reached
    from it by a chain of neighbours whose cells before the last are
    zero-adjacency cells that were covered before the call is revealed,
    and every cell the call reveals is neither a mine nor flagged. *)
Theorem reveal_fills_covered_zero_region (b : Board) (start : Coord) :
  wf_board b -> on_board b start ->
  _game_over b = false -> covb b start = true -> mineb b start = false ->
  exists b', reveal b start = Ok (b', true) /\
    (forall y, fill_region b start y -> flgb b y = false -> revb b' y = true) /\
    (forall x, on_board b x -> newly b b' x ->
       mineb b x = false /\ flgb b x = false).
Proof.
  intros Hwf Hs Hgo Hcov Hsafe.
  unfold covb in Hcov. apply andb_true_iff in Hcov as [Hrv Hfl].
  apply negb_true_iff in Hrv, Hfl.
  destruct (reveal_safe b start Hwf Hs Hgo Hfl Hrv Hsafe)
    as (b1 & Hfill & Hwf1 & Hsame & Hmono & Heq).
  destruct (_reveal_region_closed b start b1 Hwf Hs Hfill) as [Hstart Hclosed].
  pose proof (_reveal_region_no_mine b start b1 Hwf Hs Hsafe Hfill) as Hnomine.
  set (b' := if existsb (pendingb b1) (all_cells (rows b) (cols b))
             then b1 else set_over b1 true) in *.
  assert (Hrev' : forall x, revb b' x = revb b1 x).
  { intros x. unfold b'. by destruct (existsb _ _). }
  exists b'. split; [exact Heq|]. split.
  - intros y Hy. rewrite Hrev'.
    induction Hy as [|x y Hx IH Hzero Hcx Hn]; intros Hfy.
    + destruct Hstart; [done | congruence].
    + unfold covb in Hcx. apply andb_true_iff in Hcx as [Hrx Hfx].
      apply negb_true_iff in Hrx, Hfx.
      assert (Hxb : on_board b x) by (by eapply fill_region_on_board).
      destruct (Hclosed x Hxb (conj Hrx (IH Hfx)) Hzero y Hn); [done | congruence].
  - intros x Hx [Hold Hnow]. rewrite Hrev' in Hnow. by apply Hnomine.
Qed.

Lemma reveal_fills_covered_zero_region_witness :
  wf_board line7 /\ on_board line7 (0, 0) /\
  exists b', reveal line7 (0, 0) = Ok (b', true) /\ revb b' (0, 5) = true.
Proof.
  assert (Hb : on_board line7 (0, 0)) by (unfold on_board, inb; simpl; lia).
  split; [apply line7_wf|]. split; [exact Hb|].
  destruct (reveal_fills_covered_zero_region line7 (0, 0) line7_wf Hb)
    as (b' & Hrev & Hreg & _); [reflexivity ..|].
  exists b'. split; [exact Hrev|]. apply Hreg; [|reflexivity].
  assert (Hnb : forall c, 0 <= c < 6 -> (0, c + 1) ∈ neighbors line7 (0, c)).
  { intros c Hc. apply elem_of_neighbors. unfold on_board, inb. simpl.
    split_and!; try lia. intros Heq. inversion Heq. lia. }
  apply (fill_region_next _ _ (0, 4)); [|reflexivity | reflexivity | apply (Hnb 4); lia].
  apply (fill_region_next _ _ (0, 3)); [|reflexivity | reflexivity | apply (Hnb 3); lia].
  apply (fill_region_next _ _ (0, 2)); [|reflexivity | reflexivity | apply (Hnb 2); lia].
  apply (fill_region_next _ _ (0, 1)); [|reflexivity | reflexivity | apply (Hnb 1); lia].
  apply (fill_region_next _ _ (0, 0)); [|reflexivity | reflexivity | apply (Hnb 0); lia].
  apply fill_region_start.
Defined.

Lemma line7_gap_playable : @playable counter_random line7_gap.
Proof.
  assert (Hon : forall b c, rows b = 1 -> cols b = 7 -> 0 <= c < 7 -> on_board b (0, c)).
  { intros b c Hr Hc Hlt. unfold on_board, inb. rewrite Hr, Hc. simpl. lia. }
  pose proof line7_playable as H0.
  set (b1 := set_flagged line7 [[false; true; false; false; false; false; false]]).
  assert (H1 : @playable counter_random b1).
  { apply (@playable_step counter_random line7 b1 H0).
    apply (step_flag _ _ (0, 1)); [by apply Hon | by vm_compute]. }
  set (b2 := set_flagged line7 [[false; true; false; true; false; false; false]]).
  assert (H2 : @playable counter_random b2).
  { apply (@playable_step counter_random b1 b2 H1).
    apply (step_flag _ _ (0, 3)); [by apply Hon | by vm_compute]. }
  set (b3 := set_revealed b2 [[false; false; true; false; false; false; false]]).
  assert (H3 : @playable counter_random b3).
  { apply (@playable_step counter_random b2 b3 H2).
    apply (step_reveal _ _ (0, 2) true); [by apply Hon | by vm_compute]. }
  set (b4 := set_flagged b3 [[false; false; false; true; false; false; false]]).
  assert (H4 : @playable counter_random b4).
  { apply (@playable_step counter_random b3 b4 H3).
    apply (step_unflag _ _ (0, 1)); [by apply Hon | by vm_compute]. }
  apply (@playable_step counter_random b4 line7_gap H4).
  apply (step_unflag _ _ (0, 3)); [by apply Hon | by vm_compute].
Qed.

(** The fill does not pass through a zero cell that is already
    revealed: on [line7_gap], which has no flag, [reveal (0,0)] leaves
    the zero cell (0,3) of the same zero region covered. *)
Lemma fill_stops_at_revealed_zero :
  ~ (forall (H : PyRandom) (b b' : Board) (start y : Coord) (alive : bool),
       playable b -> status b = InProgress -> on_board b start ->
       adjz b start = 0 -> mineb b start = false ->
       reveal b start = Ok (b', alive) ->
       zero_region b start y -> flgb b y = false ->
       revb b' y = true).
Proof.
  intros Hevery.
  assert (Hnb : forall c, 0 <= c < 6 -> (0, c + 1) ∈ neighbors line7_gap (0, c)).
  { intros c Hc. apply elem_of_neighbors. unfold on_board, inb. simpl.
    split_and!; try lia. intros Heq. inversion Heq. lia. }
  assert (Hreg : zero_region line7_gap (0, 0) (0, 3)).
  { apply (zero_region_next _ _ (0, 2)); [|reflexivity | reflexivity | apply (Hnb 2); lia].
    apply (zero_region_next _ _ (0, 1)); [|reflexivity | reflexivity | apply (Hnb 1); lia].
    apply (zero_region_next _ _ (0, 0)); [|reflexivity | reflexivity | apply (Hnb 0); lia].
    apply zero_region_start. }
  assert (Hrev : reveal line7_gap (0, 0) = Ok (line7_gap_filled, true))
    by (by vm_compute).
  pose proof (Hevery counter_random line7_gap line7_gap_filled (0, 0) (0, 3) true
                line7_gap_playable eq_refl) as Hbad.
  assert (Hfalse : revb line7_gap_filled (0, 3) = true).
  { apply Hbad; try done; unfold on_board, inb; simpl; lia. }
  vm_compute in Hfalse. discriminate.
Qed.

(** ** The agent's view of the board *)

Lemma dict_set_fresh {V : Type} (d : list (Coord * V)) (k : Coord) (v : V) :
  k ∉ d.*1 -> dict_set d k v = d ++ [(k, v)].
Proof.
  induction d as [|[k' v'] d IH]; intros Hk; [done|]. simpl in *.
  apply not_elem_of_cons in Hk as [Hne Hk].
  rewrite decide_False by done. by rewrite IH.
Qed.

Lemma dict_get_map (f : Coord -> Z) (l : list Coord) (k : Coord) :
  k ∈ l -> dict_get ((fun p => (p, f p)) <$> l) k = Ok (f k).
Proof.
  induction l as [|x l IH]; intros Hk; [by apply elem_of_nil in Hk|].
  simpl. destruct (decide (x = k)) as [->|Hne]; [done|].
  apply IH. apply elem_of_cons in Hk as [?|?]; [congruence | done].
Qed.

Lemma view_cells_spec (b : Board) (cells : list Coord) :
  wf_board b -> Forall (on_board b) cells -> NoDup cells ->
  forall st, (forall k, k ∈ (numbers st).*1 -> k ∉ cells) ->
  exists st', view_cells b st cells = Ok st' /\
    numbers st' = numbers st ++
      ((fun p => (p, adjz b p)) <$>
       filter (fun p => flgb b p = false /\ revb b p = true) cells) /\
    (forall p, p ∈ covered st' <->
       p ∈ covered st \/ (p ∈ cells /\ covb b p = true)) /\
    (forall p, p ∈ flagged_cells st' <->
       p ∈ flagged_cells st \/ (p ∈ cells /\ flgb b p = true)).
Proof.
  intros Hwf. induction cells as [|c cells IH]; intros Hall Hnd st Hfresh.
  - exists st. split; [done|]. split; [by rewrite app_nil_r|].
    split; intros p; rewrite elem_of_nil; tauto.
  - apply Forall_cons in Hall as [Hc Hall].
    apply NoDup_cons in Hnd as [Hnc Hnd].
    simpl. unfold view_cell.
    rewrite (read_flagged b Hwf c Hc). simpl.
    rewrite filter_cons.
    destruct (flgb b c) eqn:Hfl; simpl.
    + edestruct (IH Hall Hnd (mkView (numbers st) (covered st)
                                ({[c]} ∪ flagged_cells st)))
        as (st' & -> & Hnum & Hcov & Hflg).
      { simpl. intros k Hk Hin. apply (Hfresh k Hk). by apply list_elem_of_further. }
      exists st'. split; [done|]. simpl in *.
      try rewrite decide_False by (intros [? _]; done).
      split; [done|]. split.
      * intros p. rewrite Hcov, elem_of_cons. split; [tauto|].
        intros [?|[[->|?] Hp]]; [tauto | | tauto].
        unfold covb in Hp. rewrite Hfl in Hp.
        by rewrite andb_false_r in Hp.
      * intros p. rewrite Hflg, elem_of_union, elem_of_singleton, elem_of_cons.
        split; [intros [[->|?]|?]; tauto | intros [?|[[->|?] ?]]; tauto].
    + rewrite (read_revealed b Hwf c Hc). simpl.
      destruct (revb b c) eqn:Hrv; simpl.
      * rewrite (read_adj b Hwf c Hc). simpl.
        rewrite dict_set_fresh.
        2:{ intros Hin. apply (Hfresh c Hin), list_elem_of_here. }
        edestruct (IH Hall Hnd (mkView (numbers st ++ [(c, adjz b c)])
                                  (covered st) (flagged_cells st)))
          as (st' & -> & Hnum & Hcov & Hflg).
        { simpl. intros k Hk Hin. rewrite fmap_app in Hk.
          apply elem_of_app in Hk as [Hk|Hk].
          - apply (Hfresh k Hk). by apply list_elem_of_further.
          - simpl in Hk. apply list_elem_of_singleton in Hk as ->. done. }
        exists st'. split; [done|]. simpl in *.
        try rewrite decide_True by done.
        split; [by rewrite Hnum, <- app_assoc|]. split.
        -- intros p. rewrite Hcov, elem_of_cons. split; [tauto|].
           intros [?|[[->|?] Hp]]; [tauto | | tauto].
           unfold covb in Hp. by rewrite Hrv in Hp.
        -- intros p. rewrite Hflg, elem_of_cons. split; [tauto|].
           intros [?|[[->|?] Hp]]; [tauto | congruence | tauto].
      * edestruct (IH Hall Hnd (mkView (numbers st) ({[c]} ∪ covered st)
                                  (flagged_cells st)))
          as (st' & -> & Hnum & Hcov & Hflg).
        { simpl. intros k Hk Hin. apply (Hfresh k Hk). by apply list_elem_of_further. }
        exists st'. split; [done|]. simpl in *.
        try rewrite decide_False by (intros [_ ?]; done).
        split; [done|]. split.
        -- intros p. rewrite Hcov, elem_of_union, elem_of_singleton, elem_of_cons.
           split; [|tauto]. intros [[->|?]|?]; [|tauto..].
           right. split; [by left|]. unfold covb. by rewrite Hrv, Hfl.
        -- intros p. rewrite Hflg, elem_of_cons. split; [tauto|].
           intros [?|[[->|?] Hp]]; [tauto | congruence | tauto].
Qed.

(** What [state_for_agent] returns on a well-formed board. *)
Lemma state_for_agent_spec (b : Board) :
  wf_board b ->
  exists st, state_for_agent b = Ok st /\
    numbers st = (fun p => (p, adjz b p)) <$> numbered b /\
    (forall p, p ∈ covered st <-> on_board b p /\ covb b p = true) /\
    (forall p, p ∈ flagged_cells st <-> on_board b p /\ flgb b p = true).
Proof.
  intros Hwf. unfold state_for_agent.
  destruct (view_cells_spec b (all_cells (rows b) (cols b)) Hwf)
    with (st := mkView [] ∅ ∅) as (st & Hst & Hnum & Hcov & Hflg).
  - apply Forall_forall. intros x Hx. by apply elem_of_all_cells.
  - apply NoDup_all_cells.
  - simpl. intros k Hk. by apply elem_of_nil in Hk.
  - exists st. split; [done|]. split; [done|]. split.
    + intros p. rewrite Hcov. simpl. rewrite elem_of_all_cells.
      split; [|tauto]. intros [Hin|?]; [|done]. by apply elem_of_empty in Hin.
    + intros p. rewrite Hflg. simpl. rewrite elem_of_all_cells.
      split; [|tauto]. intros [Hin|?]; [|done]. by apply elem_of_empty in Hin.
Qed.

(** ** The single-point passes *)

Lemma bucket_spec (b : Board) (st : AgentView) (l : list Coord) :
  view_of b st -> Forall (on_board b) l ->
  bucket st l = (filter (fun x => covb b x = true) l,
                 filter (fun x => flgb b x = true) l).
Proof.
  intros Hv. induction l as [|x l IH]; intros Hall; [done|].
  apply Forall_cons in Hall as [Hx Hall]. simpl. rewrite (IH Hall).
  rewrite !filter_cons.
  destruct (decide (x ∈ flagged_cells st)) as [Hin|Hnin].
  - apply (view_flagged b st Hv) in Hin as [_ Hfl].
    rewrite (decide_True (P := flgb b x = true)) by done.
    rewrite decide_False; [done|].
    unfold covb. rewrite Hfl, andb_false_r. done.
  - assert (Hfl : flgb b x = false).
    { destruct (flgb b x) eqn:E; [|done]. exfalso. apply Hnin.
      by apply (view_flagged b st Hv). }
    rewrite (decide_False (P := flgb b x = true)) by congruence.
    destruct (decide (x ∈ covered st)) as [Hc|Hnc].
    + apply (view_covered b st Hv) in Hc as [_ Hc].
      by rewrite decide_True.
    + rewrite decide_False; [done|]. intros Hc. apply Hnc.
      by apply (view_covered b st Hv).
Qed.

Lemma neighbor_buckets_spec (b : Board) (st : AgentView) (cell : Coord) :
  view_of b st -> cell ∈ numbered b ->
  neighbor_buckets b cell st = Ok (cov_nbrs b cell, flg_nbrs b cell, adjz b cell).
Proof.
  intros Hv Hcell. unfold neighbor_buckets.
  rewrite (bucket_spec b st _ Hv).
  2:{ apply Forall_forall. intros x Hx. by apply neighbors_on_board in Hx. }
  rewrite (view_numbers b st Hv), dict_get_map by done. done.
Qed.

Lemma sp_pass_spec (rule : list Coord -> list Coord -> Z -> bool)
    (b : Board) (st : AgentView) (items : list Coord) :
  (forall cov flg n, rule cov flg n = true -> cov <> []) ->
  view_of b st -> items ⊆ numbered b ->
  sp_pass rule b st ((fun p => (p, adjz b p)) <$> items)
  = Ok (cell ← find (qualifies rule b) items; head (cov_nbrs b cell)).
Proof.
  intros Hrule Hv. induction items as [|c items IH]; intros Hsub; [done|].
  simpl. rewrite (neighbor_buckets_spec b st c Hv).
  2:{ apply Hsub, list_elem_of_here. }
  simpl. unfold qualifies at 1.
  destruct (rule (cov_nbrs b c) (flg_nbrs b c) (adjz b c)) eqn:Hr.
  - apply Hrule in Hr.
    destruct (py_get_inrange (cov_nbrs b c) 0) as (x & -> & Hx).
    { destruct (cov_nbrs b c); [done | simpl; lia]. }
    simpl. rewrite head_lookup. change (Z.to_nat 0) with 0%nat in Hx.
    by rewrite Hx.
  - apply IH. intros x Hx. apply Hsub. by apply list_elem_of_further.
Qed.

Lemma mine_rule_cov (cov flg : list Coord) (n : Z) :
  mine_rule cov flg n = true -> cov <> [].
Proof.
  unfold mine_rule, len. intros H ->. simpl in H.
  by rewrite andb_false_r in H.
Qed.

Lemma safe_rule_cov (cov flg : list Coord) (n : Z) :
  safe_rule cov flg n = true -> cov <> [].
Proof.
  unfold safe_rule, len. intros H ->. simpl in H.
  by rewrite andb_false_r in H.
Qed.

(** ** What [Phase1Agent.choose_action] returns *)

Lemma Phase1_choose_action_spec `{PyRandom} (ag : Agent) (b : Board) :
  wf_board b ->
  exists st, state_for_agent b = Ok st /\ (numbers st).*1 = numbered b /\
    match sp_choice mine_rule b, sp_choice safe_rule b with
    | Some p, _ =>
        Phase1_choose_action ag b
        = Ok (Some (act_flag p), mkAgent _ (agent_rng ag) true)
    | None, Some p =>
        Phase1_choose_action ag b
        = Ok (Some (act_reveal p), mkAgent _ (agent_rng ag) true)
    | None, None =>
        if decide (covered st = ∅) then Phase1_choose_action ag b = Ok (None, ag)
        else exists p g,
          choice (agent_rng ag) (elements (covered st)) = Ok (p, g) /\
          p ∈ covered st /\
          Phase1_choose_action ag b = Ok (Some (act_reveal p), mkAgent _ g false)
    end.
Proof.
  intros Hwf.
  destruct (state_for_agent_spec b Hwf) as (st & Hst & Hnum & Hcov & Hflg).
  assert (Hv : view_of b st) by (by constructor).
  exists st. split; [done|]. split.
  { rewrite Hnum, <- list_fmap_compose. apply list_fmap_id. }
  unfold Phase1_choose_action. rewrite Hst. simpl.
  rewrite Hnum.
  rewrite (sp_pass_spec mine_rule b st (numbered b) mine_rule_cov Hv) by done.
  rewrite (sp_pass_spec safe_rule b st (numbered b) safe_rule_cov Hv) by done.
  simpl. fold (sp_choice mine_rule b). fold (sp_choice safe_rule b).
  destruct (sp_choice mine_rule b) as [p|]; [done|].
  destruct (sp_choice safe_rule b) as [p|]; [done|].
  destruct (decide (covered st = ∅)) as [He|Hne]; [done|].
  destruct (choice_elem (agent_rng ag) (elements (covered st))) as (p & g & Hch & Hp).
  { intros Hnil. apply Hne. apply leibniz_equiv. by apply elements_empty_inv. }
  exists p, g. split; [done|]. split; [by apply elem_of_elements in Hp|].
  by rewrite Hch.
Qed.

(** ** The order of the numbered cells *)

Lemma StronglySorted_seq (start n : nat) : StronglySorted lt (seq start n).
Proof.
  revert start. induction n as [|n IH]; intros start; simpl; [constructor|].
  apply StronglySorted_cons. split; [|apply IH].
  apply Forall_forall. intros x Hx. apply elem_of_seq in Hx. lia.
Qed.

Lemma StronglySorted_range (n : Z) : StronglySorted Z.lt (range n).
Proof.
  unfold range. apply (StronglySorted_fmap _ lt); [|apply StronglySorted_seq].
  intros x y. lia.
Qed.

Lemma StronglySorted_bind {A B : Type} (R1 : relation A) (R2 : relation B)
    (f : A -> list B) (l : list A) :
  (forall x, StronglySorted R2 (f x)) ->
  (forall x y a c, R1 x y -> a ∈ f x -> c ∈ f y -> R2 a c) ->
  StronglySorted R1 l -> StronglySorted R2 (l ≫= f).
Proof.
  intros Hf Hcross Hl. induction Hl as [|x l Hl IH Hx]; [constructor|].
  rewrite bind_cons. apply StronglySorted_app_2; [|apply Hf | apply IH].
  intros a c Ha Hc. apply list_elem_of_bind in Hc as (y & Hc & Hy).
  rewrite Forall_forall in Hx. by apply (Hcross x y a c); [apply Hx|..].
Qed.

Lemma StronglySorted_filter {A : Type} (R : relation A) (P : A -> Prop)
    `{!forall x, Decision (P x)} (l : list A) :
  StronglySorted R l -> StronglySorted R (filter P l).
Proof.
  induction 1 as [|x l Hl IH Hx]; [constructor|].
  rewrite filter_cons. case_decide; [|done].
  apply StronglySorted_cons. split; [|done].
  apply Forall_forall. intros y Hy. apply list_elem_of_filter in Hy as [_ Hy].
  rewrite Forall_forall in Hx. by apply Hx.
Qed.

(** The double loop [for r in range(rows): for c in range(cols)] visits
    the cells in row-major order. *)
Lemma all_cells_row_major (R C : Z) : StronglySorted row_major (all_cells R C).
Proof.
  unfold all_cells.
  apply (StronglySorted_bind Z.lt); [| |apply StronglySorted_range].
  - intros r. apply (StronglySorted_bind Z.lt); [| |apply StronglySorted_range].
    + intros c. repeat constructor.
    + intros c1 c2 a c Hlt Ha Hc.
      apply list_elem_of_singleton in Ha as ->.
      apply list_elem_of_singleton in Hc as ->. right. simpl. lia.
  - intros r1 r2 a c Hlt Ha Hc.
    apply list_elem_of_bind in Ha as (c1 & Ha & _).
    apply list_elem_of_bind in Hc as (c2 & Hc & _).
    apply list_elem_of_singleton in Ha as ->.
    apply list_elem_of_singleton in Hc as ->. left. simpl. lia.
Qed.

Lemma numbered_row_major (b : Board) : StronglySorted row_major (numbered b).
Proof. apply StronglySorted_filter, all_cells_row_major. Qed.

(** ** C9: one action per call, mine pass first *)

(** C9.  A single-point decision reads the numbered cells in row-major
    order and makes two full passes over them: it
    flags the first covered neighbour of the first cell that passes the
    certain-mine test, whatever the certain-safe test says of earlier
    cells; only when no cell passes does it reveal the first covered
    neighbour of the first cell that passes the certain-safe test; and
    only when neither pass finds a cell does it fall back on a draw.
    A call returns at most one action. *)
Theorem single_point_mine_pass_first `{PyRandom} (ag : Agent) (b : Board) :
  wf_board b ->
  StronglySorted row_major (numbered b) /\
  exists st, state_for_agent b = Ok st /\ (numbers st).*1 = numbered b /\
    match sp_choice mine_rule b, sp_choice safe_rule b with
    | Some p, _ =>
        Phase1_choose_action ag b
        = Ok (Some (act_flag p), mkAgent _ (agent_rng ag) true)
    | None, Some p =>
        Phase1_choose_action ag b
        = Ok (Some (act_reveal p), mkAgent _ (agent_rng ag) true)
    | None, None =>
        if decide (covered st = ∅) then Phase1_choose_action ag b = Ok (None, ag)
        else exists p g,
          choice (agent_rng ag) (elements (covered st)) = Ok (p, g) /\
          p ∈ covered st /\
          Phase1_choose_action ag b = Ok (Some (act_reveal p), mkAgent _ g false)
    end.
Proof.
  intros Hwf. split; [apply numbered_row_major|].
  exact (Phase1_choose_action_spec ag b Hwf).
Qed.

Lemma single_point_mine_pass_first_witness :
  wf_board line7_gap /\
  exists st, state_for_agent line7_gap = Ok st /\
    (numbers st).*1 = numbered line7_gap.
Proof.
  split; [exact (@playable_wf counter_random _ line7_gap_playable)|].
  destruct (@single_point_mine_pass_first counter_random
              (@Phase1Agent_init counter_random 0) line7_gap
              (@playable_wf counter_random _ line7_gap_playable))
    as (_ & st & Hst & Hnum & _).
  exists st. split; [exact Hst | exact Hnum].
Defined.

(** ** C2: the single-point rules are sound *)

Lemma filter_length_cons_Z {A : Type} (P : A -> Prop) `{!forall x, Decision (P x)}
    (x : A) (l : list A) :
  len (filter P (x :: l)) = (if decide (P x) then 1 else 0) + len (filter P l).
Proof.
  unfold len. rewrite filter_cons. case_decide; simpl length; lia.
Qed.

(** Around any cell, the mines are the flagged neighbours and the mines
    among the covered neighbours. *)
Lemma mines_among_neighbors (b : Board) (l : list Coord) :
  sound_board b -> _game_over b = false -> Forall (on_board b) l ->
  count (mineb b) l =
  len (filter (fun x => flgb b x = true) l)
  + count (mineb b) (filter (fun x => covb b x = true) l).
Proof.
  intros [Hwf Hrev Hflg] Hgo. induction l as [|x l IH]; intros Hall; [done|].
  apply Forall_cons in Hall as [Hx Hall]. specialize (IH Hall).
  rewrite count_cons, filter_length_cons_Z, (filter_cons (fun x => covb b x = true)).
  assert (Hcv : covb b x = negb (revb b x) && negb (flgb b x)) by done.
  destruct (decide (flgb b x = true)) as [Hf|Hf].
  - rewrite (Hflg x Hx Hf). rewrite Hf, andb_false_r in Hcv.
    rewrite decide_False by congruence. lia.
  - apply not_true_is_false in Hf. rewrite Hf, andb_true_r in Hcv.
    destruct (revb b x) eqn:Hr; simpl in Hcv.
    + rewrite (Hrev Hgo x Hx Hr). rewrite decide_False by congruence. lia.
    + rewrite decide_True by done. rewrite count_cons. lia.
Qed.

Lemma numbered_spec (b : Board) (cell : Coord) :
  cell ∈ numbered b <-> on_board b cell /\ flgb b cell = false /\ revb b cell = true.
Proof.
  unfold numbered. rewrite list_elem_of_filter, elem_of_all_cells. tauto.
Qed.

Lemma covered_mines_around (b : Board) (cell : Coord) :
  sound_board b -> _game_over b = false -> cell ∈ numbered b ->
  count (mineb b) (cov_nbrs b cell) = adjz b cell - len (flg_nbrs b cell).
Proof.
  intros Hs Hgo Hcell. apply numbered_spec in Hcell as (Hon & Hfl & Hrv).
  pose proof (sound_wf b Hs) as Hwf.
  pose proof (wf_adj b Hwf cell Hon) as Hadj.
  rewrite (sound_revealed b Hs Hgo cell Hon Hrv) in Hadj.
  rewrite (mines_among_neighbors b (neighbors b cell) Hs Hgo) in Hadj.
  - unfold cov_nbrs, flg_nbrs. lia.
  - apply Forall_forall. intros x Hx. by apply neighbors_on_board in Hx.
Qed.

Lemma find_elem {A : Type} (f : A -> bool) (l : list A) (x : A) :
  find f l = Some x -> x ∈ l /\ f x = true.
Proof.
  intros Hf. apply find_some in Hf as [Hin Hx]. split; [|done].
  by apply list_elem_of_In.
Qed.

Lemma sp_choice_cell (rule : list Coord -> list Coord -> Z -> bool)
    (b : Board) (p : Coord) :
  sp_choice rule b = Some p ->
  exists cell, cell ∈ numbered b /\ qualifies rule b cell = true /\
    p ∈ cov_nbrs b cell.
Proof.
  unfold sp_choice. intros Hc.
  destruct (find (qualifies rule b) (numbered b)) as [cell|] eqn:Hf; [|done].
  simpl in Hc. apply find_elem in Hf as [Hin Hq].
  exists cell. split; [done|]. split; [done|].
  destruct (cov_nbrs b cell) as [|x l]; simpl in Hc; [done|].
  simplify_eq. apply list_elem_of_here.
Qed.

Lemma mine_rule_sound (b : Board) (p : Coord) :
  sound_board b -> _game_over b = false ->
  sp_choice mine_rule b = Some p ->
  on_board b p /\ covb b p = true /\ mineb b p = true.
Proof.
  intros Hs Hgo Hc.
  destruct (sp_choice_cell mine_rule b p Hc) as (cell & Hcell & Hq & Hp).
  pose proof (covered_mines_around b cell Hs Hgo Hcell) as Hcount.
  unfold qualifies, mine_rule in Hq.
  assert (Hall : count (mineb b) (cov_nbrs b cell) = len (cov_nbrs b cell)) by lia.
  rewrite count_all in Hall.
  pose proof Hp as Hp'. unfold cov_nbrs in Hp'.
  apply list_elem_of_filter in Hp' as [Hcov Hn].
  apply neighbors_on_board in Hn. split; [done|]. split; [done|]. by apply Hall.
Qed.

Lemma safe_rule_sound (b : Board) (p : Coord) :
  sound_board b -> _game_over b = false ->
  sp_choice safe_rule b = Some p ->
  on_board b p /\ covb b p = true /\ mineb b p = false.
Proof.
  intros Hs Hgo Hc.
  destruct (sp_choice_cell safe_rule b p Hc) as (cell & Hcell & Hq & Hp).
  pose proof (covered_mines_around b cell Hs Hgo Hcell) as Hcount.
  unfold qualifies, safe_rule in Hq.
  assert (Hall : count (mineb b) (cov_nbrs b cell) = 0) by lia.
  rewrite count_zero in Hall.
  pose proof Hp as Hp'. unfold cov_nbrs in Hp'.
  apply list_elem_of_filter in Hp' as [Hcov Hn].
  apply neighbors_on_board in Hn. split; [done|]. split; [done|]. by apply Hall.
Qed.

Section AgentPlay.
Context `{PyRandom}.

(** What an action of [Phase1Agent.choose_action] says about the passes. *)
Lemma Phase1_action_inv (ag ag' : Agent) (b : Board) (act : Action) :
  wf_board b -> Phase1_choose_action ag b = Ok (Some act, ag') ->
  match act with
  | act_flag p => sp_choice mine_rule b = Some p
  | act_reveal p =>
      _last_move_was_logic ag' = true ->
      sp_choice mine_rule b = None /\ sp_choice safe_rule b = Some p
  end.
Proof.
  intros Hwf Hact.
  destruct (Phase1_choose_action_spec ag b Hwf) as (st & _ & _ & Hcases).
  destruct (sp_choice mine_rule b) as [p|].
  { rewrite Hcases in Hact. by simplify_eq. }
  destruct (sp_choice safe_rule b) as [p|].
  { rewrite Hcases in Hact. by simplify_eq. }
  destruct (decide (covered st = ∅)).
  { rewrite Hcases in Hact. by simplify_eq. }
  destruct Hcases as (p & g & _ & _ & Heq).
  rewrite Heq in Hact. simplify_eq. simpl. discriminate.
Qed.

Lemma sound_board_init (R C M : Z) (rng : Rng) (b : Board) :
  Board_init R C M rng = Ok b -> sound_board b.
Proof.
  intros Hinit.
  assert (HM : 1 <= M < R * C).
  { unfold Board_init in Hinit.
    destruct ((1 <=? M) && (M <? R * C)) eqn:Ha; [lia | discriminate]. }
  destruct (Board_init_spec R C M rng HM)
    as (b1 & Hb1 & Hwf & _ & _ & _ & _ & _ & Hfresh).
  rewrite Hinit in Hb1. simplify_eq. constructor; [done | |].
  - intros _ x Hx Hr. destruct (Hfresh x Hx) as (_ & Hr' & _). congruence.
  - intros x Hx Hf. destruct (Hfresh x Hx) as (_ & _ & Hf'). congruence.
Qed.

Lemma sound_board_reveal (b b' : Board) (p : Coord) (alive : bool) :
  sound_board b -> on_board b p -> reveal b p = Ok (b', alive) ->
  sound_board b'.
Proof.
  intros Hs Hp Hrev. pose proof Hs as [Hwf Hsr Hsf].
  destruct (_game_over b) eqn:Hgo.
  { rewrite reveal_game_over in Hrev by done. by simplify_eq. }
  destruct (flgb b p) eqn:Hfl.
  { rewrite reveal_flagged in Hrev by done. by simplify_eq. }
  destruct (revb b p) eqn:Hrv.
  { rewrite reveal_revealed in Hrev by done. by simplify_eq. }
  destruct (mineb b p) eqn:Hmine.
  - destruct (reveal_mine b p Hwf Hp Hgo Hfl Hrv Hmine) as (g & Heq & Hwf' & _).
    rewrite Heq in Hrev. simplify_eq. constructor.
    + by apply wf_set_over.
    + simpl. discriminate.
    + exact Hsf.
  - destruct (reveal_safe b p Hwf Hp Hgo Hfl Hrv Hmine)
      as (b1 & Hfill & Hwf1 & Hsame & Hmono & Heq).
    rewrite Heq in Hrev. simplify_eq.
    pose proof (_reveal_region_no_mine b p b1 Hwf Hp Hmine Hfill) as Hnew.
    assert (Hs1 : sound_board b1).
    { constructor; [done | |].
      - intros _ x Hx Hr1. apply (same_hidden_on_board b b1 x Hsame) in Hx.
        destruct (same_hidden_views b b1 x Hsame) as (-> & _).
        destruct (revb b x) eqn:Hr0; [by apply Hsr|].
        by apply (Hnew x Hx).
      - intros x Hx Hf1. apply (same_hidden_on_board b b1 x Hsame) in Hx.
        destruct (same_hidden_views b b1 x Hsame) as (-> & Hf & _).
        apply Hsf; [done | congruence]. }
    destruct (existsb (pendingb b1) (all_cells (rows b) (cols b))); [done|].
    destruct Hs1 as [Hwf1' Hsr1 Hsf1]. constructor.
    + by apply wf_set_over.
    + simpl. discriminate.
    + exact Hsf1.
Qed.

Lemma sound_board_flag (b b' : Board) (p : Coord) :
  sound_board b -> _game_over b = false ->
  sp_choice mine_rule b = Some p -> flag b p = Ok b' -> sound_board b'.
Proof.
  intros Hs Hgo Hc Hflag. pose proof Hs as [Hwf Hsr Hsf].
  destruct (mine_rule_sound b p Hs Hgo Hc) as (Hp & _ & Hmine).
  destruct (flag_spec b p Hwf Hp)
    as (b1 & Heq & Hwf1 & Er & Ec & _ & Emi & Erv & _ & Ego & _ & Hother & _).
  rewrite Heq in Hflag. simplify_eq.
  assert (Hon : forall x, on_board b' x <-> on_board b x).
  { intros x. unfold on_board. by rewrite Er, Ec. }
  constructor; [done | |].
  - rewrite Ego. intros Hgo' x Hx Hr. rewrite (mineb_eq b b') by done.
    apply Hsr; [done | by apply Hon | by rewrite <- (revb_eq b b')].
  - intros x Hx Hf. rewrite (mineb_eq b b') by done. apply Hon in Hx.
    destruct (decide (x = p)) as [->|Hne]; [done|].
    apply Hsf; [done|]. by rewrite <- Hother.
Qed.

Lemma agent_play_sound (b : Board) : agent_play b -> sound_board b.
Proof.
  induction 1 as [R C M rng b Hinit
                 | b b' p alive _ IH Hp Hrev
                 | b b' ag ag' p _ IH Hgo Hact Hflag].
  - exact (sound_board_init R C M rng b Hinit).
  - exact (sound_board_reveal b b' p alive IH Hp Hrev).
  - apply (sound_board_flag b b' p IH Hgo); [|done].
    exact (Phase1_action_inv ag ag' b (act_flag p) (sound_wf b IH) Hact).
Qed.

(** C2.  On every board of a game played by the single-point agent
    that is still in progress, a cell the agent flags is a mine, and a
    cell it reveals by the certain-safe rule is not a mine. *)
Theorem single_point_actions_sound (b : Board) (ag ag' : Agent) (act : Action) :
  agent_play b -> _game_over b = false ->
  Phase1_choose_action ag b = Ok (Some act, ag') ->
  match act with
  | act_flag p => on_board b p /\ is_mine b p = Ok true
  | act_reveal p =>
      _last_move_was_logic ag' = true -> on_board b p /\ is_mine b p = Ok false
  end.
Proof.
  intros Hplay Hgo Hact. pose proof (agent_play_sound b Hplay) as Hs.
  pose proof (sound_wf b Hs) as Hwf.
  pose proof (Phase1_action_inv ag ag' b act Hwf Hact) as Hinv.
  destruct act as [p|p].
  - destruct (mine_rule_sound b p Hs Hgo Hinv) as (Hp & _ & Hm).
    split; [done|]. by rewrite (read_mine b Hwf p Hp), Hm.
  - intros Hlogic. destruct (Hinv Hlogic) as [_ Hsafe].
    destruct (safe_rule_sound b p Hs Hgo Hsafe) as (Hp & _ & Hm).
    split; [done|]. by rewrite (read_mine b Hwf p Hp), Hm.
Qed.
End AgentPlay.

(** ** The driver plays within [agent_play] *)

Lemma py_get_Ok_nonneg {A : Type} (l : list A) (i : Z) (x : A) :
  0 <= i -> py_get l i = Ok x -> i < Z.of_nat (length l).
Proof.
  intros Hi. unfold py_get. destruct (i <? 0) eqn:Hneg; [lia|].
  destruct ((0 <=? i) && (i <? Z.of_nat (length l))) eqn:Hin; [lia | discriminate].
Qed.

Lemma grid_get_Ok_on_grid {A : Type} (R C : Z) (g : list (list A)) (p : Coord) (x : A) :
  grid_dims R C g -> 0 <= fst p -> 0 <= snd p ->
  grid_get g p = Ok x -> inb R C p.
Proof.
  intros Hd Hr Hc Hget. unfold grid_get in Hget. inv_bind Hget.
  pose proof (py_get_Ok_nonneg g (fst p) x0 Hr Hx) as Hlt.
  destruct (py_get_inrange g (fst p)) as (row & Hrow & Hlook); [lia|].
  rewrite Hrow in Hx. simplify_eq.
  pose proof (py_get_Ok_nonneg x0 (snd p) x Hc Hget) as Hlt2.
  rewrite (grid_dims_row _ _ _ _ _ Hd Hlook) in Hlt2.
  destruct Hd as [Hlen _]. unfold inb. lia.
Qed.

Section Driver.
Context `{PyRandom}.

Lemma Phase1_reveal_on_board (ag ag' : Agent) (b : Board) (p : Coord) :
  wf_board b -> Phase1_choose_action ag b = Ok (Some (act_reveal p), ag') ->
  on_board b p.
Proof.
  intros Hwf Hact.
  destruct (state_for_agent_spec b Hwf) as (st0 & Hst0 & _ & Hcov & _).
  destruct (Phase1_choose_action_spec ag b Hwf) as (st & Hst & _ & Hcases).
  rewrite Hst0 in Hst. simplify_eq.
  destruct (sp_choice mine_rule b) as [q|].
  { rewrite Hcases in Hact. by simplify_eq. }
  destruct (sp_choice safe_rule b) as [q|] eqn:Hsafe.
  { rewrite Hcases in Hact. simplify_eq.
    destruct (sp_choice_cell safe_rule b p Hsafe) as (cell & _ & _ & Hp).
    unfold cov_nbrs in Hp. apply list_elem_of_filter in Hp as [_ Hp].
    by apply neighbors_on_board in Hp. }
  destruct (decide (covered st = ∅)).
  { rewrite Hcases in Hact. by simplify_eq. }
  destruct Hcases as (q & g & _ & Hq & Heq).
  rewrite Heq in Hact. simplify_eq. by apply Hcov in Hq as [? _].
Qed.

(** Every round of [play_loop] is a step of [agent_play], so the board
    it ends on is a board of [agent_play]. *)
Lemma play_loop_agent_play (fuel : nat) :
  forall ag b out r,
    agent_play b -> play_loop fuel ag b out = Ok r -> agent_play r.2.
Proof.
  induction fuel as [|fuel IH]; intros ag b out r Hplay Hloop; simpl in Hloop.
  - destruct (_game_over b); [by simplify_eq | discriminate].
  - destruct (_game_over b) eqn:Hgo; [by simplify_eq|].
    inv_bind Hloop. destruct x as [[[p|p]|] ag1].
    + inv_bind Hloop.
      apply (IH _ _ _ _ (agent_play_flag b x ag ag1 p Hplay Hgo Hx Hx0) Hloop).
    + inv_bind Hloop. destruct x as [b' success].
      pose proof (Phase1_reveal_on_board ag ag1 b p
                    (sound_wf b (agent_play_sound b Hplay)) Hx) as Hp.
      pose proof (agent_play_reveal b b' p success Hplay Hp Hx0) as Hplay'.
      destruct success; [by eapply IH | by simplify_eq].
    + by simplify_eq.
Qed.

Lemma play_game_agent_play (fuel : nat) (R C M : Z) (rng : Rng)
    (ag : Agent) (b : Board) r :
  Board_init R C M rng = Ok b ->
  play_game fuel ag b = Ok r -> agent_play r.2.
Proof.
  intros Hinit Hgame. pose proof (agent_play_init R C M rng b Hinit) as Hplay.
  unfold play_game in Hgame. inv_bind Hgame. inv_bind Hgame.
  apply (play_loop_agent_play fuel ag x0 (mkOutcome 0 0 0) r); [|done].
  destruct x; [by simplify_eq|].
  inv_bind Hx0. destruct x as [b' alive]. simplify_eq.
  apply (agent_play_reveal b x0 (0, 0) alive Hplay); [|done].
  pose proof (sound_wf b (agent_play_sound b Hplay)) as Hwf.
  destruct (_game_over b) eqn:Hgo.
  - exfalso. pose proof (Board_init_assert R C M rng b Hinit) as HM.
    destruct (Board_init_spec R C M rng HM) as (b1 & Hb1 & _ & _ & _ & _ & Hgo1 & _).
    rewrite Hinit in Hb1. simplify_eq. congruence.
  - unfold reveal in Hx1. rewrite Hgo in Hx1. simpl in Hx1.
    inv_bind Hx1.
    apply (grid_get_Ok_on_grid _ _ (_flagged b) (0, 0) x (wf_flagged b Hwf));
      simpl; [lia | lia | done].
Qed.
End Driver.

Lemma line7_mid_open_play : @agent_play counter_random line7_mid_open.
Proof.
  apply (@agent_play_reveal counter_random line7_mid line7_mid_open (0, 0) true).
  - apply (@agent_play_init counter_random 1 7 1 3%nat). by vm_compute.
  - unfold on_board, inb. simpl. lia.
  - by vm_compute.
Qed.

Lemma single_point_actions_sound_witness :
  @agent_play counter_random line7_mid_open /\
  _game_over line7_mid_open = false /\
  on_board line7_mid_open (0, 3) /\ is_mine line7_mid_open (0, 3) = Ok true.
Proof.
  split; [apply line7_mid_open_play|]. split; [reflexivity|].
  apply (@single_point_actions_sound counter_random line7_mid_open
           (@Phase1Agent_init counter_random 0)
           (@mkAgent counter_random 0%nat true) (act_flag (0, 3))).
  - apply line7_mid_open_play.
  - reflexivity.
  - vm_compute. reflexivity.
Defined.

(** ** The frontier graph *)

Lemma adj_of_insert (g : gmap Coord (gset Coord)) (a x : Coord) (s : gset Coord) :
  adj_of (<[a := s]> g) x = if decide (a = x) then s else adj_of g x.
Proof.
  unfold adj_of. rewrite lookup_insert. by case_decide.
Qed.

Lemma elem_of_add_edge (g : gmap Coord (gset Coord)) (a b x y : Coord) :
  y ∈ adj_of (add_edge g a b) x <->
  y ∈ adj_of g x \/ (x = a /\ y = b) \/ (x = b /\ y = a).
Proof.
  unfold add_edge. rewrite !adj_of_insert.
  destruct (decide (b = x)) as [->|Hbx].
  - destruct (decide (a = x)) as [->|Hax]; set_solver.
  - destruct (decide (a = x)) as [->|Hax]; set_solver.
Qed.

Lemma elem_of_add_edges (g : gmap Coord (gset Coord)) (a : Coord)
    (rest : list Coord) (x y : Coord) :
  y ∈ adj_of (foldl (fun m b => add_edge m a b) g rest) x <->
  y ∈ adj_of g x \/ (x = a /\ y ∈ rest) \/ (y = a /\ x ∈ rest).
Proof.
  revert g. induction rest as [|b rest IH]; intros g; simpl.
  - rewrite !elem_of_nil. tauto.
  - rewrite IH, elem_of_add_edge, !elem_of_cons. split.
    + intros [[?|[[-> ->]|[-> ->]]]|[[-> ?]|[-> ?]]]; tauto.
    + intros [?|[[-> [->|?]]|[-> [->|?]]]]; tauto.
Qed.

(** The edges [link_pairs] adds join cells of [covs]; any two different
    cells of [covs] are joined. *)
Lemma link_pairs_edges (covs : list Coord) :
  forall g x y,
    (y ∈ adj_of (link_pairs g covs) x ->
     y ∈ adj_of g x \/ (x ∈ covs /\ y ∈ covs)) /\
    (y ∈ adj_of g x -> y ∈ adj_of (link_pairs g covs) x) /\
    (x ∈ covs -> y ∈ covs -> x <> y -> y ∈ adj_of (link_pairs g covs) x).
Proof.
  induction covs as [|a rest IH]; intros g x y; simpl.
  - rewrite !elem_of_nil. tauto.
  - destruct (IH (foldl (fun m b => add_edge m a b) g rest) x y) as (H1 & H2 & H3).
    rewrite !elem_of_cons. split_and!.
    + intros Hin. destruct (H1 Hin) as [Hold|[? ?]]; [|tauto].
      apply elem_of_add_edges in Hold as [?|[[-> ?]|[-> ?]]]; tauto.
    + intros Hin. apply H2, elem_of_add_edges. tauto.
    + intros [->|Hx] [->|Hy] Hne; try done.
      * apply H2, elem_of_add_edges. tauto.
      * apply H2, elem_of_add_edges. tauto.
      * by apply H3.
Qed.

Lemma build_adj_edges (cc : list (Coord * list Coord)) :
  forall g x y,
    (y ∈ adj_of (foldl (fun g item => link_pairs g (snd item)) g cc) x ->
     y ∈ adj_of g x \/ exists item, item ∈ cc /\ x ∈ item.2 /\ y ∈ item.2) /\
    (y ∈ adj_of g x ->
     y ∈ adj_of (foldl (fun g item => link_pairs g (snd item)) g cc) x) /\
    (forall item, item ∈ cc -> x ∈ item.2 -> y ∈ item.2 -> x <> y ->
     y ∈ adj_of (foldl (fun g item => link_pairs g (snd item)) g cc) x).
Proof.
  induction cc as [|it cc IH]; intros g x y; simpl.
  - split_and!; [tauto | tauto |]. intros item Hin. by apply elem_of_nil in Hin.
  - destruct (IH (link_pairs g it.2) x y) as (H1 & H2 & H3).
    destruct (link_pairs_edges it.2 g x y) as (L1 & L2 & L3).
    split_and!.
    + intros Hin. destruct (H1 Hin) as [Hold|(item & Hi & Hx & Hy)].
      * destruct (L1 Hold) as [?|[? ?]]; [tauto|].
        right. exists it. split; [apply list_elem_of_here | done].
      * right. exists item. split; [by apply list_elem_of_further | done].
    + intros Hin. apply H2, L2, Hin.
    + intros item Hi Hx Hy Hne. apply elem_of_cons in Hi as [->|Hi].
      * apply H2, L3; done.
      * by apply (H3 item).
Qed.

Lemma adj_of_empty (x : Coord) : adj_of ∅ x = ∅.
Proof. unfold adj_of. by rewrite lookup_empty. Qed.

(** The graph of [build_adj]: an edge joins two cells of one entry of
    [constraint_cells], in both directions. *)
Lemma build_adj_spec (cc : list (Coord * list Coord)) (x y : Coord) :
  (y ∈ adj_of (build_adj cc) x ->
   exists item, item ∈ cc /\ x ∈ item.2 /\ y ∈ item.2) /\
  (forall item, item ∈ cc -> x ∈ item.2 -> y ∈ item.2 -> x <> y ->
   y ∈ adj_of (build_adj cc) x).
Proof.
  unfold build_adj. destruct (build_adj_edges cc ∅ x y) as (H1 & _ & H3).
  split; [|done]. intros Hin. destruct (H1 Hin) as [Hold|?]; [|done].
  rewrite adj_of_empty in Hold. by apply elem_of_empty in Hold.
Qed.

Lemma build_adj_sym (cc : list (Coord * list Coord)) (x y : Coord) :
  y ∈ adj_of (build_adj cc) x -> x ∈ adj_of (build_adj cc) y.
Proof.
  intros Hin. destruct (decide (x = y)) as [->|Hne]; [done|].
  apply build_adj_spec in Hin as (item & Hi & Hx & Hy).
  by apply (proj2 (build_adj_spec cc y x) item).
Qed.

(** ** Connected components *)

Section Components.
Variable g : gmap Coord (gset Coord).
Variable F : gset Coord.
Hypothesis g_sym : forall x y, y ∈ adj_of g x -> x ∈ adj_of g y.
Hypothesis g_in : forall x y, y ∈ adj_of g x -> y ∈ F.

Lemma visit_fold_spec (l : list Coord) :
  forall vis comp q, l ⊆ elements F ->
  exists vis' comp' q',
    foldl visit_nbr (vis, comp, q) l = (vis', comp', q') /\
    (forall z, z ∈ vis' <-> z ∈ vis \/ z ∈ l) /\
    (forall z, z ∈ comp' <-> z ∈ comp \/ (z ∈ l /\ z ∉ vis)) /\
    (forall z, z ∈ q' <-> z ∈ q \/ (z ∈ l /\ z ∉ vis)) /\
    (size (F ∖ vis') + length q' = size (F ∖ vis) + length q)%nat.
Proof.
  induction l as [|y l IH]; intros vis comp q Hl.
  - exists vis, comp, q. split; [done|].
    split_and!; try done; intros z; rewrite elem_of_nil; tauto.
  - assert (Hl' : l ⊆ elements F).
    { intros z Hz. apply Hl. by apply list_elem_of_further. }
    assert (HyF : y ∈ F).
    { apply elem_of_elements, Hl, list_elem_of_here. }
    simpl. destruct (decide (y ∈ vis)) as [Hy|Hy].
    + destruct (IH vis comp q Hl') as (vis' & comp' & q' & Heq & Hv & Hc & Hq & Hm).
      exists vis', comp', q'. split; [done|]. split_and!; [| | |done].
      * intros z. rewrite Hv, elem_of_cons. split; [tauto|].
        intros [?|[->|?]]; tauto.
      * intros z. rewrite Hc, elem_of_cons. split; [tauto|].
        intros [?|[[->|?] ?]]; tauto.
      * intros z. rewrite Hq, elem_of_cons. split; [tauto|].
        intros [?|[[->|?] ?]]; tauto.
    + destruct (IH ({[y]} ∪ vis) ({[y]} ∪ comp) (y :: q) Hl')
        as (vis' & comp' & q' & Heq & Hv & Hc & Hq & Hm).
      exists vis', comp', q'. split; [done|]. split_and!.
      * intros z. rewrite Hv, elem_of_union, elem_of_singleton, elem_of_cons. tauto.
      * intros z. rewrite Hc, !elem_of_union, !elem_of_singleton, elem_of_cons.
        destruct (decide (z = y)) as [->|Hne]; intuition.
      * intros z. rewrite Hq, !elem_of_cons, elem_of_union, elem_of_singleton.
        destruct (decide (z = y)) as [->|Hne]; intuition.
      * rewrite Hm. simpl.
        assert (Hsplit : F ∖ vis = {[y]} ∪ F ∖ ({[y]} ∪ vis)).
        { apply set_eq. intros z.
          rewrite elem_of_union, !elem_of_difference, elem_of_union,
            elem_of_singleton.
          destruct (decide (z = y)) as [->|Hne]; tauto. }
        rewrite Hsplit at 1.
        pose proof (@size_union Coord (gset Coord) _ _ _ _ _ _ _ _ _
                      {[y]} (F ∖ ({[y]} ∪ vis))) as Hsize.
        pose proof (@size_singleton Coord (gset Coord) _ _ _ _ _ _ _ _ _ y) as Hone.
        rewrite Hsize, Hone; [lia|].
        intros z. rewrite elem_of_singleton, elem_of_difference, elem_of_union,
          elem_of_singleton. tauto.
Qed.

Lemma component_loop_spec (fuel : nat) (V0 : gset Coord) :
  closed_under g V0 ->
  forall vis comp q,
    (forall z, z ∈ vis <-> z ∈ V0 \/ z ∈ comp) ->
    (forall z, z ∈ comp -> z ∉ V0) ->
    (forall z, z ∈ q -> z ∈ comp) ->
    (forall x, x ∈ comp -> x ∉ q -> forall y, y ∈ adj_of g x -> y ∈ comp) ->
    (size (F ∖ vis) + length q <= fuel)%nat ->
    exists vis' comp',
      component_loop fuel g vis comp q = Ok (vis', comp') /\
      (forall z, z ∈ vis' <-> z ∈ V0 \/ z ∈ comp') /\
      (forall z, z ∈ comp' -> z ∉ V0) /\
      (forall z, z ∈ comp -> z ∈ comp') /\
      closed_under g comp'.
Proof.
  intros HV0. induction fuel as [|fuel IH]; intros vis comp q Hvis Hdisj Hq Hdone Hm.
  - destruct q as [|x q]; [|simpl in Hm; lia].
    exists vis, comp. split; [done|]. split_and!; try done.
    intros x y Hx. apply Hdone; [done|]. apply not_elem_of_nil.
  - destruct q as [|x q].
    { exists vis, comp. split; [done|]. split_and!; try done.
      intros x y Hx. apply Hdone; [done|]. apply not_elem_of_nil. }
    simpl.
    destruct (visit_fold_spec (elements (adj_of g x)) vis comp q)
      as (vis' & comp' & q' & Heq & Hv & Hc & Hq' & Hm').
    { intros z Hz. apply elem_of_elements in Hz. apply elem_of_elements.
      by apply (g_in x). }
    rewrite Heq.
    assert (Hxc : x ∈ comp) by apply Hq, list_elem_of_here.
    destruct (IH vis' comp' q') as (vis2 & comp2 & Hres & Hvis2 & Hdisj2 & Hsub2 & Hcl2).
    + intros z. rewrite Hv, Hc. split.
      * intros [Hz|Hz]; [apply Hvis in Hz; tauto|].
        destruct (decide (z ∈ vis)) as [Hzv|Hzv]; [apply Hvis in Hzv; tauto | tauto].
      * intros [?|[?|[? ?]]]; [left; apply Hvis; tauto | left; apply Hvis; tauto | tauto].
    + intros z Hz. apply Hc in Hz as [Hz|[Hz Hnv]]; [by apply Hdisj|].
      intros Hz0. apply Hnv, Hvis. by left.
    + intros z Hz. apply Hc. apply Hq' in Hz as [Hz|?]; [|tauto].
      left. apply Hq. by apply list_elem_of_further.
    + intros x' Hx' Hnq y Hy. apply Hc.
      apply Hc in Hx' as [Hx'|[Hx' Hnv]].
      * destruct (decide (x' = x)) as [->|Hne].
        -- destruct (decide (y ∈ vis)) as [Hyv|Hyv].
           ++ apply Hvis in Hyv as [Hy0|?]; [|tauto].
              exfalso. apply (Hdisj x Hxc). apply (HV0 y x Hy0). by apply g_sym.
           ++ right. split; [by apply elem_of_elements | done].
        -- left. apply (Hdone x'); [done | | done].
           intros Hin. apply elem_of_cons in Hin as [?|Hin]; [done|].
           apply Hnq, Hq'. by left.
      * exfalso. apply Hnq, Hq'. by right.
    + simpl in Hm. lia.
    + exists vis2, comp2. split; [done|]. split_and!; try done.
      intros z Hz. apply Hsub2, Hc. by left.
Qed.

Lemma components_loop_spec (fuel : nat) (vs : list Coord) :
  (size F < fuel)%nat ->
  forall visited comps,
    closed_under g visited ->
    (forall z, z ∈ visited <-> exists c, c ∈ comps /\ z ∈ c) ->
    (forall c, c ∈ comps -> closed_under g c) ->
    exists comps',
      components_loop fuel g vs visited comps = Ok comps' /\
      (forall c, c ∈ comps' -> closed_under g c) /\
      (forall v, v ∈ vs -> exists c, c ∈ comps' /\ v ∈ c) /\
      (forall c, c ∈ comps -> c ∈ comps').
Proof.
  intros Hfuel.
  induction vs as [|v vs IH]; intros visited comps Hcl Hcover Hcomps.
  - exists comps. split; [done|]. split_and!; try done.
    intros v Hv. by apply elem_of_nil in Hv.
  - simpl. destruct (decide (v ∈ visited)) as [Hv|Hv].
    + destruct (IH visited comps Hcl Hcover Hcomps) as (comps' & Heq & Hc' & Hvs & Hkeep).
      exists comps'. split; [done|]. split_and!; try done.
      intros w Hw. apply elem_of_cons in Hw as [->|Hw]; [|by apply Hvs].
      apply Hcover in Hv as (c & Hc & Hvc). exists c. split; [by apply Hkeep | done].
    + destruct (component_loop_spec fuel visited Hcl
                  ({[v]} ∪ visited) {[v]} [v])
        as (vis' & comp & Heq & Hvis' & Hdisj & Hsub & Hclc).
      * intros z. rewrite elem_of_union. tauto.
      * intros z Hz. apply elem_of_singleton in Hz as ->. done.
      * intros z Hz. apply list_elem_of_singleton in Hz as ->.
        by apply elem_of_singleton.
      * intros x Hx Hnq. apply elem_of_singleton in Hx as ->.
        exfalso. apply Hnq, list_elem_of_here.
      * simpl.
        pose proof (subseteq_size (F ∖ ({[v]} ∪ visited)) F) as Hle.
        assert (F ∖ ({[v]} ∪ visited) ⊆ F) as Hs by set_solver.
        specialize (Hle Hs). lia.
      * rewrite Heq. simpl.
        destruct (IH vis' (comps ++ [comp])) as (comps' & Heq' & Hc' & Hvs & Hkeep).
        -- intros x y Hx Hy. apply Hvis'. apply Hvis' in Hx as [Hx|Hx].
           ++ left. by apply (Hcl x y).
           ++ right. by apply (Hclc x y).
        -- intros z. rewrite Hvis', Hcover. split.
           ++ intros [(c & Hc & Hz)|Hz].
              ** exists c. split; [apply elem_of_app; by left | done].
              ** exists comp. split; [apply elem_of_app; right; apply list_elem_of_here | done].
           ++ intros (c & Hc & Hz). apply elem_of_app in Hc as [Hc|Hc].
              ** left. by exists c.
              ** apply list_elem_of_singleton in Hc as ->. by right.
        -- intros c Hc. apply elem_of_app in Hc as [Hc|Hc]; [by apply Hcomps|].
           apply list_elem_of_singleton in Hc as ->. done.
        -- exists comps'. split; [done|]. split_and!; try done.
           ++ intros w Hw. apply elem_of_cons in Hw as [->|Hw]; [|by apply Hvs].
              exists comp. split.
              ** apply Hkeep, elem_of_app. right. apply list_elem_of_here.
              ** apply Hsub. by apply elem_of_singleton.
           ++ intros c Hc. apply Hkeep, elem_of_app. by left.
Qed.

(** The traversal returns; no edge leaves a component; every frontier
    cell is in a component. *)
Lemma connected_components_spec :
  exists comps, connected_components g F = Ok comps /\
    (forall c, c ∈ comps -> closed_under g c) /\
    (forall v, v ∈ F -> exists c, c ∈ comps /\ v ∈ c).
Proof.
  unfold connected_components.
  destruct (components_loop_spec (S (size F)) (elements F) ltac:(lia) ∅ [])
    as (comps & Heq & Hcl & Hcover & _).
  - intros x y Hx. by apply elem_of_empty in Hx.
  - intros z. split; [intros Hz; by apply elem_of_empty in Hz|].
    intros (c & Hc & _). by apply elem_of_nil in Hc.
  - intros c Hc. by apply elem_of_nil in Hc.
  - exists comps. split; [done|]. split; [done|].
    intros v Hv. apply Hcover. by apply elem_of_elements.
Qed.
End Components.

(** ** The frontier and its constraints *)

Lemma filter_none {A : Type} (P : A -> Prop) `{!forall x, Decision (P x)} (l : list A) :
  (forall x, x ∈ l -> ~ P x) -> filter P l = [].
Proof.
  induction l as [|x l IH]; intros Hall; [done|].
  rewrite filter_cons, decide_False by (apply Hall, list_elem_of_here).
  apply IH. intros y Hy. apply Hall. by apply list_elem_of_further.
Qed.

Lemma filter_every {A : Type} (P : A -> Prop) `{!forall x, Decision (P x)} (l : list A) :
  (forall x, x ∈ l -> P x) -> filter P l = l.
Proof.
  induction l as [|x l IH]; intros Hall; [done|].
  rewrite filter_cons, decide_True by (apply Hall, list_elem_of_here).
  f_equal. apply IH. intros y Hy. apply Hall. by apply list_elem_of_further.
Qed.

Lemma elem_of_dict_set {V : Type} (d : list (Coord * V)) (k : Coord) (v : V) :
  (k, v) ∈ dict_set d k v /\
  (forall item, item ∈ dict_set d k v -> item ∈ d \/ item = (k, v)) /\
  (forall item, item ∈ d -> item.1 <> k -> item ∈ dict_set d k v).
Proof.
  induction d as [|[k' v'] d (IH1 & IH2 & IH3)]; simpl.
  - split_and!.
    + apply list_elem_of_here.
    + intros item Hi. right. by apply list_elem_of_singleton in Hi.
    + intros item Hi. by apply elem_of_nil in Hi.
  - destruct (decide (k' = k)) as [->|Hne]; split_and!.
    + apply list_elem_of_here.
    + intros item Hi. apply elem_of_cons in Hi as [->|Hi]; [by right|].
      left. by apply list_elem_of_further.
    + intros item Hi Hk. apply elem_of_cons in Hi as [->|Hi]; [done|].
      by apply list_elem_of_further.
    + by apply list_elem_of_further.
    + intros item Hi. apply elem_of_cons in Hi as [->|Hi].
      * left. apply list_elem_of_here.
      * destruct (IH2 item Hi) as [?|?]; [|by right].
        left. by apply list_elem_of_further.
    + intros item Hi Hk. apply elem_of_cons in Hi as [->|Hi].
      * apply list_elem_of_here.
      * apply list_elem_of_further. by apply IH3.
Qed.

Lemma build_frontier_spec (b : Board) (st : AgentView) (items : list Coord) :
  view_of b st -> items ⊆ numbered b ->
  forall frontier cc,
    (forall item, item ∈ cc -> item.2 = cov_nbrs b item.1) ->
    exists F cc',
      build_frontier b st ((fun p => (p, adjz b p)) <$> items) frontier cc
      = Ok (F, cc') /\
      (forall z, z ∈ F <->
         z ∈ frontier \/ exists cell, cell ∈ items /\ z ∈ cov_nbrs b cell) /\
      (forall item, item ∈ cc' -> item.2 = cov_nbrs b item.1) /\
      (forall item, item ∈ cc' -> item ∈ cc \/ item.1 ∈ items) /\
      (forall item, item ∈ cc -> item ∈ cc') /\
      (forall cell, cell ∈ items -> cov_nbrs b cell <> [] ->
         (cell, cov_nbrs b cell) ∈ cc').
Proof.
  intros Hv. induction items as [|c items IH]; intros Hsub frontier cc Hcc.
  - exists frontier, cc. split; [done|]. split_and!; try done.
    + intros z. split; [tauto|]. intros [?|(cell & Hc & _)]; [done|].
      by apply elem_of_nil in Hc.
    + intros item Hi. by left.
    + intros cell Hc. by apply elem_of_nil in Hc.
  - assert (Hsub' : items ⊆ numbered b).
    { intros x Hx. apply Hsub. by apply list_elem_of_further. }
    simpl. rewrite (neighbor_buckets_spec b st c Hv) by apply Hsub, list_elem_of_here.
    simpl. destruct (cov_nbrs b c) as [|v covs] eqn:Hcov.
    + destruct (IH Hsub' frontier cc Hcc) as (F & cc' & Heq & HF & Hcc' & Hfrom & Hkeep & Hhas).
      exists F, cc'. split; [done|]. split_and!; try done.
      * intros z. rewrite HF. split.
        -- intros [?|(cell & Hc & Hz)]; [by left|].
           right. exists cell. split; [by apply list_elem_of_further | done].
        -- intros [?|(cell & Hc & Hz)]; [by left|].
           apply elem_of_cons in Hc as [->|Hc].
           ++ rewrite Hcov in Hz. by apply elem_of_nil in Hz.
           ++ right. by exists cell.
      * intros item Hi. destruct (Hfrom item Hi) as [?|?]; [by left|].
        right. by apply list_elem_of_further.
      * intros cell Hc Hne. apply elem_of_cons in Hc as [->|Hc]; [done|].
        by apply Hhas.
    + destruct (elem_of_dict_set cc c (v :: covs)) as (D1 & D2 & D3).
      destruct (IH Hsub' (frontier ∪ list_to_set (v :: covs))
                  (dict_set cc c (v :: covs)))
        as (F & cc' & Heq & HF & Hcc' & Hfrom & Hkeep & Hhas).
      { intros item Hi. destruct (D2 item Hi) as [Hold| ->]; [by apply Hcc|].
        simpl. by rewrite Hcov. }
      assert (Hpres : forall item, item ∈ cc -> item ∈ dict_set cc c (v :: covs)).
      { intros item Hi. destruct (decide (item.1 = c)) as [Heq1|Hne1]; [|by apply D3].
        pose proof (Hcc item Hi) as H2. rewrite Heq1, Hcov in H2.
        destruct item as [k w]. simpl in *. by subst. }
      exists F, cc'. split; [done|]. split_and!; try done.
      * intros z. rewrite HF, elem_of_union, elem_of_list_to_set. split.
        -- intros [[?|Hz]|(cell & Hc & Hz)].
           ++ by left.
           ++ right. exists c. split; [apply list_elem_of_here | by rewrite Hcov].
           ++ right. exists cell. split; [by apply list_elem_of_further | done].
        -- intros [?|(cell & Hc & Hz)]; [by left; left|].
           apply elem_of_cons in Hc as [->|Hc].
           ++ left; right. by rewrite Hcov in Hz.
           ++ right. by exists cell.
      * intros item Hi. destruct (Hfrom item Hi) as [Hd|?].
        -- destruct (D2 item Hd) as [?| ->]; [by left|].
           right. apply list_elem_of_here.
        -- right. by apply list_elem_of_further.
      * intros item Hi. by apply Hkeep, Hpres.
      * intros cell Hc Hne. apply elem_of_cons in Hc as [->|Hc]; [|by apply Hhas].
        rewrite Hcov. by apply Hkeep.
Qed.

(** ** C10: no constraint straddles two components *)

(** All covered neighbours of a numbered cell fall in one component. *)
Lemma component_holds_constraint (b : Board) (cc : list (Coord * list Coord))
    (comp : gset Coord) (cell v : Coord) :
  closed_under (build_adj cc) comp ->
  (cell, cov_nbrs b cell) ∈ cc ->
  v ∈ cov_nbrs b cell -> v ∈ comp ->
  forall w, w ∈ cov_nbrs b cell -> w ∈ comp.
Proof.
  intros Hcl Hcc Hv Hvc w Hw.
  destruct (decide (v = w)) as [->|Hne]; [done|].
  apply (Hcl v w Hvc).
  by apply (proj2 (build_adj_spec cc v w) (cell, cov_nbrs b cell)).
Qed.

(** C10.  In a Phase2 decision the traversal returns its components,
    and for every numbered cell the local-constraint loop never takes
    the branch that drops a constraint with covered neighbours outside
    the component; a numbered cell with a covered neighbour has all its
    covered neighbours in one component, which keeps its constraint. *)
Theorem constraints_never_straddle (b : Board) :
  wf_board b ->
  exists st F cc comps,
    state_for_agent b = Ok st /\
    build_frontier b st (numbers st) ∅ [] = Ok (F, cc) /\
    connected_components (build_adj cc) F = Ok comps /\
    forall cell n, (cell, n) ∈ numbers st ->
      exists cov flg nreq,
        neighbor_buckets b cell st = Ok (cov, flg, nreq) /\
        (forall comp, comp ∈ comps ->
           local_constraint_of comp cov flg nreq <> lc_outside) /\
        (cov <> [] ->
         exists comp, comp ∈ comps /\ (forall v, v ∈ cov -> v ∈ comp) /\
           local_constraint_of comp cov flg nreq
           = lc_kept (list_to_set cov, nreq - len flg)).
Proof.
  intros Hwf.
  destruct (state_for_agent_spec b Hwf) as (st & Hst & Hnum & Hcov & Hflg).
  assert (Hv : view_of b st) by (by constructor).
  destruct (build_frontier_spec b st (numbered b) Hv ltac:(done) ∅ [])
    as (F & cc & Hbf & HF & Hcc & Hfrom & _ & Hhas).
  { intros item Hi. by apply elem_of_nil in Hi. }
  assert (Hin : forall x y, y ∈ adj_of (build_adj cc) x -> y ∈ F).
  { intros x y Hxy. apply build_adj_spec in Hxy as (item & Hi & _ & Hy).
    apply HF. right. exists item.1. split.
    - destruct (Hfrom item Hi) as [Hn|?]; [by apply elem_of_nil in Hn | done].
    - by rewrite <- (Hcc item Hi). }
  destruct (connected_components_spec (build_adj cc) F (build_adj_sym cc) Hin)
    as (comps & Hcomps & Hclosed & Hcover).
  exists st, F, cc, comps. rewrite Hnum. split; [done|]. split; [done|].
  split; [done|]. intros cell n Hcell.
  apply list_elem_of_fmap in Hcell as (c & Heq & Hc). simplify_eq.
  exists (cov_nbrs b c), (flg_nbrs b c), (adjz b c).
  split; [by apply neighbor_buckets_spec|].
  assert (Hall : forall comp v, comp ∈ comps -> v ∈ cov_nbrs b c -> v ∈ comp ->
            forall w, w ∈ cov_nbrs b c -> w ∈ comp).
  { intros comp v Hcomp Hvc Hvin.
    apply (component_holds_constraint b cc comp c v); try done.
    - by apply Hclosed.
    - apply Hhas; [done|]. intros Hnil. rewrite Hnil in Hvc.
      by apply elem_of_nil in Hvc. }
  split.
  - intros comp Hcomp. unfold local_constraint_of.
    destruct (decide (list_to_set (filter (fun v => v ∈ comp) (cov_nbrs b c))
                      = (∅ : gset Coord))) as [He|Hne]; [done|].
    assert (Hex : exists v, v ∈ cov_nbrs b c /\ v ∈ comp).
    { destruct (filter (fun v => v ∈ comp) (cov_nbrs b c)) as [|v l] eqn:Hf;
        [done|].
      assert (Hvf : v ∈ filter (fun v => v ∈ comp) (cov_nbrs b c)).
      { rewrite Hf. apply list_elem_of_here. }
      exists v. apply list_elem_of_filter in Hvf. tauto. }
    destruct Hex as (v & Hvc & Hvin).
    rewrite filter_none; [done|].
    intros w Hw Hout. apply Hout. by apply (Hall comp v).
  - intros Hne. destruct (cov_nbrs b c) as [|v covs] eqn:Hcv; [done|].
    assert (HvF : v ∈ F).
    { apply HF. right. exists c. split; [done|]. rewrite Hcv.
      apply list_elem_of_here. }
    destruct (Hcover v HvF) as (comp & Hcomp & Hvin).
    assert (Hsub : forall w, w ∈ v :: covs -> w ∈ comp).
    { apply (Hall comp v Hcomp); [apply list_elem_of_here | done]. }
    exists comp. split; [done|]. split; [done|].
    unfold local_constraint_of.
    rewrite (filter_every (fun w => w ∈ comp)) by done.
    rewrite decide_False.
    + rewrite filter_none; [done|]. intros w Hw Hout. by apply Hout, Hsub.
    + intros He. assert (Hvs : v ∈ (list_to_set (v :: covs) : gset Coord)).
      { apply elem_of_list_to_set, list_elem_of_here. }
      rewrite He in Hvs. by apply elem_of_empty in Hvs.
Qed.

Lemma constraints_never_straddle_witness :
  wf_board line7_mid_open /\
  exists st F cc comps,
    state_for_agent line7_mid_open = Ok st /\
    build_frontier line7_mid_open st (numbers st) ∅ [] = Ok (F, cc) /\
    connected_components (build_adj cc) F = Ok comps.
Proof.
  pose proof (sound_wf _ (@agent_play_sound counter_random _ line7_mid_open_play))
    as Hwf.
  split; [exact Hwf|].
  destruct (constraints_never_straddle line7_mid_open Hwf)
    as (st & F & cc & comps & H1 & H2 & H3 & _).
  exists st, F, cc, comps. split; [exact H1|]. split; [exact H2 | exact H3].
Defined.

(** ** The enumerator *)

Lemma count_bind {A B : Type} (P : B -> bool) (f : A -> list B) (l : list A) :
  count P (l ≫= f) = foldr (fun x acc => count P (f x) + acc) 0 l.
Proof.
  induction l as [|x l IH]; [done|].
  rewrite bind_cons, count_app, IH. done.
Qed.

Lemma extensions_nil (P : gmap Coord bool -> bool) (a : gmap Coord bool) :
  extensions P a [] = if P a then 1 else 0.
Proof.
  unfold extensions. simpl. rewrite count_cons, count_nil.
  rewrite (right_id ∅ (∪) a). lia.
Qed.

Lemma extensions_cons (P : gmap Coord bool -> bool) (a : gmap Coord bool)
    (v : Coord) (rest : list Coord) :
  a !! v = None ->
  extensions P a (v :: rest)
  = extensions P (<[v := true]> a) rest + extensions P (<[v := false]> a) rest.
Proof.
  intros Hv. unfold extensions. simpl. rewrite count_bind.
  induction (all_assignments rest) as [|e l IH]; [done|].
  simpl. rewrite IH, !count_cons, count_nil.
  rewrite <- !insert_union_l, <- !(insert_union_r a e) by done. lia.
Qed.

Lemma extensions_zero (P : gmap Coord bool -> bool) (a : gmap Coord bool)
    (rest : list Coord) :
  (forall a', a ⊆ a' -> P a' = false) -> extensions P a rest = 0.
Proof.
  intros HP. unfold extensions. apply count_zero. intros e _.
  apply HP, map_union_subseteq_l.
Qed.

Lemma count_omap_true (f : Coord -> option bool) (l : list Coord) :
  count id (omap f l) = count (fun v => default false (f v)) l.
Proof.
  induction l as [|x l IH]; [done|]. simpl. rewrite count_cons.
  destruct (f x) as [[|]|]; simpl; rewrite ?count_cons; simpl;
    change (list_omap Coord bool f l) with (omap f l); lia.
Qed.

Lemma len_omap (f : Coord -> option bool) (l : list Coord) :
  len (omap f l) = count (fun v => bool_decide (is_Some (f v))) l.
Proof.
  induction l as [|x l IH]; [done|]. simpl. rewrite count_cons.
  destruct (f x) as [y|]; simpl;
    change (list_omap Coord bool f l) with (omap f l).
  - try rewrite bool_decide_eq_true_2 by eauto.
    unfold len in *. simpl length. lia.
  - try rewrite bool_decide_eq_false_2 by (intros [? ?]; done). lia.
Qed.

Lemma count_mono {A : Type} (f g : A -> bool) (l : list A) :
  (forall x, f x = true -> g x = true) -> count f l <= count g l.
Proof.
  intros Hfg. induction l as [|x l IH]; [done|]. rewrite !count_cons.
  destruct (f x) eqn:Hf; [rewrite (Hfg x Hf); lia|]. destruct (g x); lia.
Qed.

Lemma count_sum_bound {A : Type} (f g h : A -> bool) (l : list A) :
  (forall x, f x = true -> g x = true \/ h x = true) ->
  count f l <= count g l + count h l.
Proof.
  intros Hf. induction l as [|x l IH]; [done|]. rewrite !count_cons.
  destruct (f x) eqn:Hfx; [|destruct (g x), (h x); lia].
  destruct (Hf x Hfx) as [-> | ->]; [destruct (h x) | destruct (g x)]; lia.
Qed.

(** The pruning is sound: a partial assignment that [valid_partial]
    rejects has no model among the assignments that extend it. *)
Lemma valid_partial_prunes_no_model (lcs : list Constraint)
    (a a' : gmap Coord bool) :
  a ⊆ a' -> is_model lcs a' = true -> valid_partial lcs a = true.
Proof.
  intros Hsub Hmodel. unfold valid_partial, is_model in *.
  rewrite forallb_forall in *. intros [varset req] Hc.
  specialize (Hmodel _ Hc). simpl in Hmodel. apply Z.eqb_eq in Hmodel.
  unfold valid_constraint, assigned_in.
  rewrite count_omap_true, len_omap.
  assert (Hlow : count (fun v => default false (a !! v)) (elements varset)
                 <= mines_in a' varset).
  { apply count_mono. intros v Hv. unfold mine_in.
    destruct (a !! v) as [x|] eqn:Hav; [|done]. simpl in Hv. subst x.
    by rewrite (lookup_weaken _ _ _ _ Hav Hsub). }
  assert (Hsplit : count (fun v => bool_decide (is_Some (a !! v))) (elements varset)
                   + count (fun v => negb (bool_decide (is_Some (a !! v))))
                       (elements varset)
                   = Z.of_nat (size varset)).
  { rewrite count_negb. reflexivity. }
  assert (Hhigh : mines_in a' varset
                  <= count (fun v => default false (a !! v)) (elements varset)
                     + count (fun v => negb (bool_decide (is_Some (a !! v))))
                         (elements varset)).
  { apply count_sum_bound. intros v Hv. unfold mine_in in Hv.
    destruct (a !! v) as [x|] eqn:Hav.
    - left. rewrite (lookup_weaken _ _ _ _ Hav Hsub) in Hv. done.
    - right. rewrite bool_decide_eq_false_2; [done|]. intros [? ?]; done. }
  destruct (_ >? req) eqn:H1; [lia|].
  destruct (_ <? req) eqn:H2; [lia | done].
Qed.

Lemma mines_assigned_spec (a : gmap Coord bool) (varset : gset Coord) :
  (forall v, v ∈ varset -> is_Some (a !! v)) ->
  mines_assigned a varset = Ok (mines_in a varset).
Proof.
  intros Hdef. unfold mines_assigned.
  rewrite (filter_res_total _ (mine_in a)); [done|].
  intros v Hv. apply elem_of_elements in Hv.
  destruct (Hdef v Hv) as [x Hx]. unfold map_get, mine_in. by rewrite Hx.
Qed.

Lemma hard_constraints_ok_spec (lcs : list Constraint) (a : gmap Coord bool) :
  (forall c, c ∈ lcs -> forall v, v ∈ c.1 -> is_Some (a !! v)) ->
  hard_constraints_ok lcs a = Ok (is_model lcs a).
Proof.
  induction lcs as [|[varset req] lcs IH]; intros Hdef; [done|].
  simpl. rewrite mines_assigned_spec.
  2:{ intros v Hv. by apply (Hdef (varset, req)); [apply list_elem_of_here|]. }
  simpl. destruct (mines_in a varset =? req); [|done].
  apply IH. intros c Hc. apply Hdef. by apply list_elem_of_further.
Qed.

Lemma tally_all_spec (a : gmap Coord bool) (vars : list Coord) :
  forall cs, NoDup vars ->
    (forall v, v ∈ vars -> is_Some (a !! v)) ->
    (forall v, v ∈ vars -> is_Some (cs !! v)) ->
    exists cs', tally_all a cs vars = Ok cs' /\
      (forall v, is_Some (cs !! v) -> is_Some (cs' !! v)) /\
      forall v, get_counts cs' v =
        if decide (v ∈ vars)
        then ((get_counts cs v).1 + (if mine_in a v then 1 else 0),
              (get_counts cs v).2 + 1)
        else get_counts cs v.
Proof.
  induction vars as [|x vars IH]; intros cs Hnd Ha Hcs.
  - exists cs. split; [done|]. split; [done|]. intros v.
    rewrite decide_False; [done|]. apply not_elem_of_nil.
  - apply NoDup_cons in Hnd as [Hx Hnd]. simpl. unfold tally.
    destruct (Ha x) as [m Hm]; [apply list_elem_of_here|].
    destruct (Hcs x) as [[mc tc] Hc]; [apply list_elem_of_here|].
    unfold map_get. rewrite Hm, Hc. simpl.
    destruct (IH (<[x := (if m then mc + 1 else mc, tc + 1)]> cs) Hnd)
      as (cs' & Heq & Hdom & Hget).
    + intros v Hv. apply Ha. by apply list_elem_of_further.
    + intros v Hv. rewrite lookup_insert_is_Some'. right.
      apply Hcs. by apply list_elem_of_further.
    + exists cs'. split; [done|]. split.
      * intros v Hv. apply Hdom. rewrite lookup_insert_is_Some'. by right.
      * intros v. rewrite Hget. unfold get_counts.
        destruct (decide (v = x)) as [->|Hne].
        -- rewrite decide_False by done. rewrite lookup_insert_eq.
           rewrite decide_True by apply list_elem_of_here.
           rewrite Hc. unfold mine_in. rewrite Hm. simpl.
           destruct m; f_equal; lia.
        -- rewrite lookup_insert_ne by done.
           destruct (decide (v ∈ vars)) as [Hin|Hnin].
           ++ rewrite decide_True; [done|]. by apply list_elem_of_further.
           ++ rewrite decide_False; [done|].
              intros Hin. apply elem_of_cons in Hin as [?|?]; done.
Qed.

Lemma dfs_cons (lcs : list Constraint) (vars_list : list Coord) (v : Coord)
    (rest : list Coord) (s : EnumState) :
  dfs lcs vars_list (v :: rest) s =
  (let s1 := with_assign s (<[v := true]> (assign s)) in
   s2 ← (if valid_partial lcs (assign s1)
         then dfs lcs vars_list rest s1 else Ok s1);
   let s3 := with_assign s2 (<[v := false]> (assign s2)) in
   s4 ← (if valid_partial lcs (assign s3)
         then dfs lcs vars_list rest s3 else Ok s3);
   match assign s4 !! v with
   | Some _ => Ok (with_assign s4 (delete v (assign s4)))
   | None => Fail KeyError
   end).
Proof. reflexivity. Qed.

Section Enumerator.
Variable lcs : list Constraint.
Variable vars_list : list Coord.
Hypothesis vars_nodup : NoDup vars_list.
Hypothesis lcs_vars : forall c, c ∈ lcs -> forall v, v ∈ c.1 -> v ∈ vars_list.

(** What [dfs] adds to the tallies from a partial assignment: the
    models among its extensions over the variables left. *)
Lemma dfs_spec (rest : list Coord) :
  forall s, NoDup rest ->
    (forall v, v ∈ rest -> assign s !! v = None) ->
    (forall v, v ∈ vars_list -> is_Some (assign s !! v) \/ v ∈ rest) ->
    (forall v, v ∈ vars_list -> is_Some (counts s !! v)) ->
    exists s', dfs lcs vars_list rest s = Ok s' /\
      assign s' = assign s /\
      total_models s' = total_models s + extensions (is_model lcs) (assign s) rest /\
      (forall v, v ∈ vars_list -> is_Some (counts s' !! v)) /\
      forall v, v ∈ vars_list ->
        get_counts (counts s') v =
        ((get_counts (counts s) v).1
         + extensions (fun a => is_model lcs a && mine_in a v) (assign s) rest,
         (get_counts (counts s) v).2
         + extensions (is_model lcs) (assign s) rest).
Proof.
  induction rest as [|x rest IH]; intros s Hnd Hfresh Hdef Hcs.
  - simpl. rewrite hard_constraints_ok_spec.
    2:{ intros c Hc v Hv. destruct (Hdef v (lcs_vars c Hc v Hv)) as [?|Hn]; [done|].
        by apply elem_of_nil in Hn. }
    simpl. rewrite !extensions_nil.
    destruct (is_model lcs (assign s)) eqn:Hmodel.
    + destruct (tally_all_spec (assign s) vars_list (counts s) vars_nodup)
        as (cs' & -> & Hdom & Hget).
      { intros v Hv. destruct (Hdef v Hv) as [?|Hn]; [done|].
        by apply elem_of_nil in Hn. }
      { done. }
      simpl. eexists. split; [reflexivity|]. simpl.
      split_and!; try done.
      * intros v Hv. by apply Hdom, Hcs.
      * intros v Hv. rewrite Hget, decide_True, extensions_nil by done.
        rewrite Hmodel. simpl. done.
    + exists s. split; [done|]. split_and!; try done; try lia.
      intros v Hv. rewrite extensions_nil, Hmodel. simpl.
      destruct (get_counts (counts s) v) as [mc tc]. simpl. f_equal; lia.
  - apply NoDup_cons in Hnd as [Hx Hnd].
    assert (Hxa : assign s !! x = None) by apply Hfresh, list_elem_of_here.
    (* one branch: the variable set to [t] *)
    assert (Hbranch : forall (t : bool) (s0 : EnumState),
      assign s0 = <[x := t]> (assign s) ->
      (forall v, v ∈ vars_list -> is_Some (counts s0 !! v)) ->
      exists s1,
        (if valid_partial lcs (assign s0)
         then dfs lcs vars_list rest s0 else Ok s0) = Ok s1 /\
        assign s1 = assign s0 /\
        total_models s1
        = total_models s0 + extensions (is_model lcs) (assign s0) rest /\
        (forall v, v ∈ vars_list -> is_Some (counts s1 !! v)) /\
        forall v, v ∈ vars_list ->
          get_counts (counts s1) v =
          ((get_counts (counts s0) v).1
           + extensions (fun a => is_model lcs a && mine_in a v) (assign s0) rest,
           (get_counts (counts s0) v).2
           + extensions (is_model lcs) (assign s0) rest)).
    { intros t s0 Ha0 Hcs0.
      destruct (valid_partial lcs (assign s0)) eqn:Hvalid.
      - apply IH; [done | | | done].
        + intros v Hv. rewrite Ha0, lookup_insert_ne.
          * apply Hfresh. by apply list_elem_of_further.
          * intros ->. done.
        + intros v Hv. rewrite Ha0, lookup_insert_is_Some'.
          destruct (Hdef v Hv) as [?|Hin]; [by left; right|].
          apply elem_of_cons in Hin as [->|?]; [by left; left | by right].
      - assert (Hno : forall a', assign s0 ⊆ a' -> is_model lcs a' = false).
        { intros a' Hsub. destruct (is_model lcs a') eqn:Hm; [|done].
          rewrite (valid_partial_prunes_no_model lcs _ a' Hsub Hm) in Hvalid.
          done. }
        exists s0. split; [done|]. split; [done|].
        rewrite (extensions_zero _ _ rest Hno). split; [lia|]. split; [done|].
        intros v Hv. rewrite extensions_zero.
        + destruct (get_counts (counts s0) v). simpl. f_equal; lia.
        + intros a' Hsub. by rewrite (Hno a' Hsub). }
    rewrite dfs_cons. cbv zeta.
    destruct (Hbranch true (with_assign s (<[x := true]> (assign s))))
      as (s2 & -> & Ha2 & Ht2 & Hcs2 & Hg2); [done | done |].
    cbn [mbind res_bind].
    destruct (Hbranch false (with_assign s2 (<[x := false]> (assign s2))))
      as (s4 & -> & Ha4 & Ht4 & Hcs4 & Hg4).
    { simpl. rewrite Ha2. simpl. apply insert_insert_eq. }
    { done. }
    cbn [mbind res_bind].
    simpl in *. rewrite Ha4, lookup_insert_eq.
    eexists. split; [reflexivity|]. simpl.
    rewrite Ha2. simpl. rewrite insert_insert_eq.
    split; [by rewrite delete_insert_eq, delete_id|].
    rewrite !(extensions_cons _ _ x rest Hxa).
    rewrite Ha2 in Ht4, Hg4. simpl in Ht4, Hg4.
    rewrite insert_insert_eq in Ht4, Hg4.
    split; [lia|]. split; [done|].
    intros v Hv. rewrite (Hg4 v Hv), (Hg2 v Hv). simpl.
    rewrite !(extensions_cons _ _ x rest Hxa). f_equal; lia.
Qed.
End Enumerator.

Lemma get_counts_init (vars : list Coord) (v : Coord) :
  v ∈ vars -> init_counts vars !! v = Some (0, 0).
Proof.
  intros Hv. unfold init_counts. induction vars as [|x vars IH].
  - by apply elem_of_nil in Hv.
  - simpl. destruct (decide (x = v)) as [->|Hne].
    + apply lookup_insert_eq.
    + rewrite lookup_insert_ne by done. apply IH.
      apply elem_of_cons in Hv as [?|?]; [congruence | done].
Qed.

Lemma extensions_empty (P : gmap Coord bool -> bool) (vars : list Coord) :
  extensions P ∅ vars = count P (all_assignments vars).
Proof.
  unfold extensions. apply count_ext. intros e _.
  by rewrite (left_id ∅ (∪) e).
Qed.

(** The enumerator against the reference, for variables without
    repetition and constraints over them. *)
Lemma enumerate_spec (lcs : list Constraint) (vars_list : list Coord) :
  NoDup vars_list ->
  (forall c, c ∈ lcs -> forall v, v ∈ c.1 -> v ∈ vars_list) ->
  exists e, enumerate lcs vars_list = Ok e /\
    assign e = ∅ /\
    total_models e = brute_total lcs vars_list /\
    forall v, v ∈ vars_list ->
      counts e !! v = Some (brute_mines lcs vars_list v, brute_total lcs vars_list).
Proof.
  intros Hnd Hvars. unfold enumerate.
  destruct (dfs_spec lcs vars_list Hnd Hvars vars_list
              (mkEnum ∅ (init_counts vars_list) 0) Hnd)
    as (e & Heq & Ha & Ht & Hdom & Hget).
  - intros v _. apply lookup_empty.
  - intros v Hv. by right.
  - intros v Hv. simpl. rewrite get_counts_init by done. eauto.
  - exists e. split; [done|]. split; [done|]. simpl in *.
    rewrite extensions_empty in Ht. split; [unfold brute_total; lia|].
    intros v Hv. specialize (Hget v Hv). unfold get_counts in Hget.
    rewrite get_counts_init in Hget by done.
    destruct (Hdom v Hv) as [[mc tc] Hc]. rewrite Hc in Hget |- *.
    simpl in Hget. rewrite !extensions_empty in Hget.
    unfold brute_mines, brute_total. by rewrite Hget.
Qed.

Lemma local_constraints_loop_vars (b : Board) (st : AgentView)
    (comp : gset Coord) (items : list (Coord * Z)) :
  forall acc lcs,
    (forall c, c ∈ acc -> forall v, v ∈ c.1 -> v ∈ comp) ->
    local_constraints_loop b st comp items acc = Ok lcs ->
    forall c, c ∈ lcs -> forall v, v ∈ c.1 -> v ∈ comp.
Proof.
  induction items as [|[cell n] items IH]; intros acc lcs Hacc Hloop.
  - simpl in Hloop. by simplify_eq.
  - simpl in Hloop. inv_bind Hloop. destruct x as [[cov flg] nreq].
    unfold local_constraint_of in Hloop.
    destruct (decide (list_to_set (filter (fun v => v ∈ comp) cov)
                      = (∅ : gset Coord))); [by eapply IH|].
    destruct (filter (fun v => v ∉ comp) cov); [|by eapply IH].
    eapply IH; [|exact Hloop].
    intros c Hc v Hv. apply elem_of_app in Hc as [Hc|Hc]; [by apply (Hacc c)|].
    apply list_elem_of_singleton in Hc as ->. simpl in Hv.
    apply elem_of_list_to_set, list_elem_of_filter in Hv. tauto.
Qed.

(** ** C1: the enumerator counts the models *)

(** C1.  For a component and the local constraints the agent derives
    for it, the enumeration returns; its total is the number of
    assignments of the component's variables in which every constraint
    has exactly its required number of mines; each variable's pair is
    (the number of those models in which it is a mine, that total), so
    its probability is the quotient of the two; and [valid_partial]
    accepts every partial assignment that a model extends. *)
Theorem enumerator_matches_brute_force (b : Board) (st : AgentView)
    (comp : gset Coord) (lcs : list Constraint) :
  build_local_constraints b st comp = Ok lcs ->
  exists e, enumerate lcs (elements comp) = Ok e /\
    total_models e = brute_total lcs (elements comp) /\
    (forall v, v ∈ comp ->
       exists mine_count total,
         counts e !! v = Some (mine_count, total) /\
         mine_count = brute_mines lcs (elements comp) v /\
         total = total_models e /\
         prob mine_count total
         = prob (brute_mines lcs (elements comp) v)
                (brute_total lcs (elements comp))) /\
    (forall a a', is_model lcs a = true -> a' ⊆ a ->
       valid_partial lcs a' = true).
Proof.
  intros Hlcs.
  assert (Hvars : forall c, c ∈ lcs -> forall v, v ∈ c.1 -> v ∈ elements comp).
  { intros c Hc v Hv. apply elem_of_elements.
    apply (local_constraints_loop_vars b st comp (numbers st) [] lcs) with (c := c);
      try done.
    intros c' Hc'. by apply elem_of_nil in Hc'. }
  destruct (enumerate_spec lcs (elements comp) (NoDup_elements comp) Hvars)
    as (e & Heq & _ & Ht & Hcounts).
  exists e. split; [done|]. split; [done|]. split.
  - intros v Hv. apply elem_of_elements in Hv.
    exists (brute_mines lcs (elements comp) v), (brute_total lcs (elements comp)).
    split; [by apply Hcounts|]. by rewrite Ht.
  - intros a a' Hm Hsub. by apply (valid_partial_prunes_no_model lcs a' a).
Qed.

Lemma line7_mid_view_eq : state_for_agent line7_mid_open = Ok line7_mid_view.
Proof. vm_compute. reflexivity. Qed.

Lemma enumerator_matches_brute_force_witness :
  state_for_agent line7_mid_open = Ok line7_mid_view /\
  build_local_constraints line7_mid_open line7_mid_view {[(0, 3)]}
  = Ok [({[(0, 3)]}, 1)] /\
  exists e, enumerate [({[(0, 3)]}, 1)] (elements ({[(0, 3)]} : gset Coord)) = Ok e /\
    total_models e
    = brute_total [({[(0, 3)]}, 1)] (elements ({[(0, 3)]} : gset Coord)).
Proof.
  split; [apply line7_mid_view_eq|].
  assert (Hlcs : build_local_constraints line7_mid_open line7_mid_view {[(0, 3)]}
                 = Ok [({[(0, 3)]}, 1)]) by (vm_compute; reflexivity).
  split; [exact Hlcs|].
  destruct (enumerator_matches_brute_force line7_mid_open line7_mid_view
              {[(0, 3)]} [({[(0, 3)]}, 1)] Hlcs) as (e & He & Ht & _).
  exists e. split; [exact He | exact Ht].
Defined.

Example enumerate_one_of_two :
  (e ← enumerate [({[(0, 0); (0, 1)]}, 1)] [(0, 0); (0, 1)];
   Ok (total_models e, counts e !! (0, 0), counts e !! (0, 1)))
  = Ok (2, Some (1, 2), Some (1, 2)).
Proof. vm_compute. reflexivity. Qed.

Example enumerate_chain :
  (e ← enumerate [({[(0, 0); (0, 1)]}, 1); ({[(0, 1); (0, 2)]}, 1)]
                 [(0, 0); (0, 1); (0, 2)];
   Ok (total_models e, counts e !! (0, 0), counts e !! (0, 1)))
  = Ok (2, Some (1, 2), Some (1, 2)).
Proof. vm_compute. reflexivity. Qed.

(** ** C7: where the guesses come from *)

(** With no numbered cell in sight, [Phase2Agent.choose_action] reveals
    the cell that the module-level generator draws: the action is a
    function of that generator's state [glob], and the agent's seed only
    decides the state its own generator is left in. *)
Lemma Phase2_guess_without_frontier `{PyRandom} (max_component_size : Z)
    (ag : Agent) (glob : Rng) (b : Board) :
  wf_board b -> numbered b = [] ->
  exists st, state_for_agent b = Ok st /\
    if decide (covered st = ∅)
    then Phase2_choose_action max_component_size ag glob b = Ok (None, ag, glob)
    else exists c glob' g,
      choice glob (elements (covered st)) = Ok (c, glob') /\
      Phase2_choose_action max_component_size ag glob b
      = Ok (Some (act_reveal c), mkAgent _ g false, glob').
Proof.
  intros Hwf Hnone.
  destruct (Phase1_choose_action_spec ag b Hwf) as (st & Hst & Hnum & Hcases).
  exists st. split; [done|].
  unfold sp_choice in Hcases. rewrite Hnone in Hcases. simpl in Hcases.
  unfold Phase2_choose_action.
  destruct (decide (covered st = ∅)) as [He|Hne].
  { rewrite Hcases. done. }
  destruct Hcases as (p & g & Hch & Hp & ->). simpl. rewrite Hst. simpl.
  rewrite decide_False by done.
  assert (Hnil : numbers st = []).
  { rewrite Hnone in Hnum. by apply fmap_nil_inv in Hnum. }
  rewrite Hnil. simpl. rewrite decide_True by done.
  destruct (choice_elem glob (elements (covered st))) as (c & glob' & Hc & _).
  { intros Hn. apply Hne. apply leibniz_equiv. by apply elements_empty_inv. }
  exists c, glob', g. split; [done|]. by rewrite Hc.
Qed.

(** C7, at the failing input.  On the fresh board [Board(2, 2, 1, seed=0)]
    two calls of [Phase2Agent(seed=0).choose_action] return different
    actions when the module-level generator is in different states. *)
Theorem Phase2_same_seed_different_actions :
  exists b, @Board_init counter_random 2 2 1 (@Random counter_random 0) = Ok b /\
    exists a1 a2 r1 r2,
      @Phase2_choose_action counter_random 14
        (@Phase2Agent_init counter_random 0) 0%nat b = Ok (Some a1, r1.1, r1.2) /\
      @Phase2_choose_action counter_random 14
        (@Phase2Agent_init counter_random 0) 1%nat b = Ok (Some a2, r2.1, r2.2) /\
      a1 <> a2.
Proof.
  eexists. split; [vm_compute; reflexivity|].
  eexists _, _, (_, _), (_, _). simpl.
  split; [vm_compute; reflexivity|]. split; [vm_compute; reflexivity|].
  discriminate.
Qed.

(** * The rest of the board's interface *)

(** ** [neighbors] *)

Lemma elem_of_neighbor_cell (c1 c2 : bool) (x y : Coord) :
  x ∈ (if c1 then [] else if c2 then [y] else []) -> x = y.
Proof.
  destruct c1, c2; intros Hx;
    [by apply elem_of_nil in Hx .. | | by apply elem_of_nil in Hx].
  by apply list_elem_of_singleton in Hx.
Qed.

Lemma NoDup_neighbors (b : Board) (p : Coord) : NoDup (neighbors b p).
Proof.
  unfold neighbors. apply NoDup_bind.
  - intros dr1 dr2 q _ _ H1 H2.
    apply list_elem_of_bind in H1 as (dc1 & H1 & _).
    apply list_elem_of_bind in H2 as (dc2 & H2 & _).
    apply elem_of_neighbor_cell in H1, H2. subst q. inversion H2. lia.
  - intros dr _. apply NoDup_bind.
    + intros dc1 dc2 q _ _ H1 H2.
      apply elem_of_neighbor_cell in H1, H2. subst q. inversion H2. lia.
    + intros dc _. destruct (_ && _); [apply NoDup_nil_2|].
      destruct (in_bounds _ _); [apply NoDup_singleton | apply NoDup_nil_2].
    + unfold offsets. compute_done.
  - unfold offsets. compute_done.
Qed.

(** X1.  [neighbors] returns, without repetition, exactly the cells of
    the grid that differ from the given one by at most one row and one
    column: never the cell itself, never a cell outside the grid, at
    most eight cells, and all eight for a cell whose diagonal neighbours
    are on the grid.  Being neighbours is symmetric between cells of the
    grid. *)
Theorem neighbors_are_the_adjacent_cells (b : Board) (p : Coord) :
  NoDup (neighbors b p) /\
  (length (neighbors b p) <= 8)%nat /\
  (forall q, q ∈ neighbors b p <->
     in_bounds b q = true /\ q <> p /\
     Z.abs (fst q - fst p) <= 1 /\ Z.abs (snd q - snd p) <= 1) /\
  (in_bounds b (fst p - 1, snd p - 1) = true ->
   in_bounds b (fst p + 1, snd p + 1) = true ->
   length (neighbors b p) = 8%nat) /\
  (forall q, in_bounds b p = true -> q ∈ neighbors b p -> p ∈ neighbors b q).
Proof.
  split; [apply NoDup_neighbors|]. split; [apply neighbors_length|].
  split; [|split].
  - intros q. rewrite elem_of_neighbors, in_bounds_spec. split.
    + intros (? & ? & ? & ?). split_and!; [done | done | lia | lia].
    + intros (? & ? & ? & ?). split_and!; [done | done | lia ..].
  - intros H1 H2. apply in_bounds_spec in H1, H2.
    unfold on_board, inb in H1, H2. simpl in H1, H2.
    unfold neighbors, offsets, in_bounds. simpl.
    repeat match goal with
    | |- context [?x <=? ?y] => destruct (Z.leb_spec x y); try lia
    | |- context [?x <? ?y] => destruct (Z.ltb_spec x y); try lia
    end; reflexivity.
  - intros q Hp Hq. apply in_bounds_spec in Hp. by apply neighbors_sym.
Qed.

(** ** [Board.__init__] *)

Section Fresh.
Context `{PyRandom}.

(** X2.  The constructor raises nothing but its AssertionError, and
    raises it exactly when [1 <= mines < rows * cols] fails; otherwise it
    returns a board of the given size and mine count. *)
Theorem Board_init_raises_only_its_assertion (R C M : Z) (rng : Rng) :
  match Board_init R C M rng with
  | Ok b => 1 <= M < R * C /\ rows b = R /\ cols b = C /\ mines_count b = M
  | Fail e => e = AssertionError /\ ~ (1 <= M < R * C)
  end.
Proof.
  destruct (decide (1 <= M < R * C)) as [HM|HM].
  - destruct (Board_init_spec R C M rng HM) as (b & -> & _ & ? & ? & ? & _).
    done.
  - unfold Board_init.
    destruct ((1 <=? M) && (M <? R * C)) eqn:Ha; [lia|]. simpl. done.
Qed.

(** What [__init__] leaves behind: nothing revealed, nothing flagged. *)
Lemma Board_init_covered (R C M : Z) (rng : Rng) (b : Board) :
  Board_init R C M rng = Ok b ->
  wf_board b /\ rows b = R /\ cols b = C /\
  _game_over b = false /\ _win_cached b = None /\
  forall p, on_board b p -> revb b p = false /\ flgb b p = false.
Proof.
  intros Hinit. pose proof (Board_init_assert R C M rng b Hinit) as HM.
  destruct (Board_init_spec R C M rng HM)
    as (b1 & Hb1 & Hwf & Hr & Hc & _ & Hgo & Hwc & Hcells).
  rewrite Hinit in Hb1. simplify_eq. split_and!; try done.
  intros p Hp. by destruct (Hcells p Hp) as (_ & ? & ?).
Qed.

(** X3.  A new board is in progress and not won, no cell of it is
    revealed or flagged, [covered_cells] lists the whole grid in
    row-major order, and the agent's view of it has no number and no
    flag. *)
Theorem fresh_board_is_all_covered (R C M : Z) (rng : Rng) (b : Board) :
  Board_init R C M rng = Ok b ->
  game_over b = false /\ won b = false /\
  (forall p, on_board b p -> revealed b p = Ok false /\ flagged b p = Ok false) /\
  covered_cells b = Ok (all_cells R C) /\
  exists st, state_for_agent b = Ok st /\ numbers st = [] /\
    flagged_cells st = ∅ /\ covered st = list_to_set (all_cells R C).
Proof.
  intros Hinit.
  destruct (Board_init_covered R C M rng b Hinit)
    as (Hwf & Hr & Hc & Hgo & Hwc & Hcells).
  split; [done|]. split; [unfold won; by rewrite Hwc|]. split; [|split].
  - intros p Hp. destruct (Hcells p Hp) as [Hrv Hfl].
    by rewrite (read_revealed b Hwf p Hp), (read_flagged b Hwf p Hp), Hrv, Hfl.
  - unfold covered_cells. rewrite (filter_res_total _ (covb b)).
    + rewrite Hr, Hc. f_equal. apply filter_every. intros p Hp.
      apply elem_of_all_cells in Hp. rewrite <- Hr, <- Hc in Hp.
      destruct (Hcells p Hp) as [Hrv Hfl]. unfold covb. by rewrite Hrv, Hfl.
    + intros p Hp. apply elem_of_all_cells in Hp. by apply read_covered.
  - destruct (state_for_agent_spec b Hwf) as (st & Hst & Hnum & Hcov & Hflg).
    exists st. split; [done|]. split; [|split].
    + rewrite Hnum. unfold numbered. rewrite filter_none; [done|].
      intros p Hp [_ Hrv]. apply elem_of_all_cells in Hp.
      destruct (Hcells p Hp) as [Hrv' _]. congruence.
    + apply leibniz_equiv. intros p. rewrite Hflg. split; [|set_solver].
      intros [Hp Hfl]. destruct (Hcells p Hp) as [_ Hfl']. congruence.
    + apply leibniz_equiv. intros p.
      rewrite Hcov, elem_of_list_to_set, elem_of_all_cells, <- Hr, <- Hc.
      split; [by intros [? _]|]. intros Hp. split; [done|].
      destruct (Hcells p Hp) as [Hrv Hfl]. unfold covb. by rewrite Hrv, Hfl.
Qed.

(** X4.  On every board of a game, [adj] of a cell of the grid is -1 on
    a mine and otherwise the number of mines among the cell's
    neighbours, a number from 0 to 8. *)
Theorem adj_counts_neighbouring_mines (b : Board) (p : Coord) :
  playable b -> on_board b p ->
  exists a m, adj b p = Ok a /\ is_mine b p = Ok m /\
    (m = true -> a = -1) /\
    (m = false -> 0 <= a <= 8 /\
       exists ms, filter_res (is_mine b) (neighbors b p) = Ok ms /\ a = len ms).
Proof.
  intros Hplay Hp. pose proof (playable_wf b Hplay) as Hwf.
  exists (adjz b p), (mineb b p).
  split; [by apply read_adj|]. split; [by apply read_mine|].
  rewrite (wf_adj b Hwf p Hp). split; [by intros ->|]. intros ->.
  pose proof (count_bounds (mineb b) (neighbors b p)) as Hb.
  pose proof (neighbors_length b p) as Hl. unfold len in Hb.
  split; [lia|]. eexists. split; [|reflexivity].
  apply filter_res_total. intros q Hq.
  apply neighbors_on_board in Hq. by apply read_mine.
Qed.
End Fresh.

Lemma fresh_board_is_all_covered_witness :
  game_over line7 = false /\ covered_cells line7 = Ok (all_cells 1 7).
Proof.
  destruct (@fresh_board_is_all_covered counter_random 1 7 1 6%nat line7 line7_init)
    as (H1 & _ & _ & H2 & _).
  split; [exact H1 | exact H2].
Defined.

Lemma adj_counts_neighbouring_mines_witness :
  exists a m, adj line7 (0, 5) = Ok a /\ is_mine line7 (0, 5) = Ok m /\
    (m = false -> 0 <= a <= 8).
Proof.
  assert (Hp : on_board line7 (0, 5)) by (unfold on_board, inb; simpl; lia).
  destruct (@adj_counts_neighbouring_mines counter_random line7 (0, 5)
              line7_playable Hp) as (a & m & Ha & Hm & _ & H0).
  exists a, m. split; [exact Ha|]. split; [exact Hm|].
  intros E. exact (proj1 (H0 E)).
Defined.

(** ** [covered_cells] and [state_for_agent] *)

(** X5.  [covered_cells] returns, in row-major order and without
    repetition, exactly the cells of the grid that are neither revealed
    nor flagged: the cells of the [covered] set of [state_for_agent]. *)
Theorem covered_cells_lists_the_covered_set (b : Board) :
  wf_board b ->
  exists l st, covered_cells b = Ok l /\ state_for_agent b = Ok st /\
    StronglySorted row_major l /\ NoDup l /\
    (forall p, p ∈ l <-> p ∈ covered st) /\
    (forall p, p ∈ l <->
       in_bounds b p = true /\ revealed b p = Ok false /\ flagged b p = Ok false).
Proof.
  intros Hwf.
  destruct (state_for_agent_spec b Hwf) as (st & Hst & _ & Hcov & _).
  exists (filter (fun p => covb b p = true) (all_cells (rows b) (cols b))), st.
  assert (Hmem : forall p,
    p ∈ filter (fun p => covb b p = true) (all_cells (rows b) (cols b)) <->
    on_board b p /\ covb b p = true).
  { intros p. rewrite list_elem_of_filter, elem_of_all_cells. tauto. }
  split_and!.
  - unfold covered_cells. apply filter_res_total. intros p Hp.
    apply elem_of_all_cells in Hp. by apply read_covered.
  - done.
  - apply StronglySorted_filter, all_cells_row_major.
  - apply NoDup_filter, NoDup_all_cells.
  - intros p. by rewrite Hmem, Hcov.
  - intros p. rewrite Hmem, in_bounds_spec. split.
    + intros [Hp Hc]. split; [done|].
      rewrite (read_revealed b Hwf p Hp), (read_flagged b Hwf p Hp).
      unfold covb in Hc. by destruct (revb b p), (flgb b p).
    + intros (Hp & Hrv & Hfl). split; [done|].
      rewrite (read_revealed b Hwf p Hp) in Hrv.
      rewrite (read_flagged b Hwf p Hp) in Hfl.
      unfold covb. inversion Hrv as [Hr']. inversion Hfl as [Hf'].
      by rewrite Hr', Hf'.
Qed.

Lemma covered_cells_lists_the_covered_set_witness :
  exists l st, covered_cells line7_mid_open = Ok l /\
    state_for_agent line7_mid_open = Ok st /\
    forall p, p ∈ l <-> p ∈ covered st.
Proof.
  assert (Hwf : wf_board line7_mid_open)
    by exact (sound_wf _ (@agent_play_sound counter_random _ line7_mid_open_play)).
  destruct (covered_cells_lists_the_covered_set line7_mid_open Hwf)
    as (l & st & H1 & H2 & _ & _ & H3 & _).
  exists l, st. split; [exact H1|]. split; [exact H2 | exact H3].
Defined.

(** X6.  [state_for_agent] sorts every cell of the grid into exactly one
    of its three parts, and nothing else: a flagged cell into [flagged]
    (also when it is revealed), an unflagged revealed cell into [numbers]
    with its adjacency count, any other cell into [covered]. *)
Theorem state_for_agent_partitions_the_grid (b : Board) :
  wf_board b ->
  exists st, state_for_agent b = Ok st /\
    NoDup (numbers st).*1 /\
    (forall p, in_bounds b p = true ->
       (p ∈ flagged_cells st <-> flagged b p = Ok true) /\
       (p ∈ (numbers st).*1 <->
          flagged b p = Ok false /\ revealed b p = Ok true) /\
       (p ∈ covered st <->
          flagged b p = Ok false /\ revealed b p = Ok false) /\
       (p ∈ (numbers st).*1 -> dict_get (numbers st) p = adj b p)) /\
    (forall p, in_bounds b p = false ->
       (p ∉ flagged_cells st) /\ (p ∉ (numbers st).*1) /\ (p ∉ covered st)).
Proof.
  intros Hwf.
  destruct (state_for_agent_spec b Hwf) as (st & Hst & Hnum & Hcov & Hflg).
  assert (Hkeys : (numbers st).*1 = numbered b).
  { rewrite Hnum, <- list_fmap_compose. apply list_fmap_id. }
  exists st. split; [done|]. split; [|split].
  - rewrite Hkeys. unfold numbered. apply NoDup_filter, NoDup_all_cells.
  - intros p Hp. apply in_bounds_spec in Hp.
    rewrite Hkeys, numbered_spec, Hcov, Hflg.
    rewrite (read_revealed b Hwf p Hp), (read_flagged b Hwf p Hp),
      (read_adj b Hwf p Hp).
    unfold covb. split_and!.
    + split; [intros [_ ->]; done | intros ?; simplify_eq; done].
    + split; [intros (_ & -> & ->); done | intros [? ?]; by simplify_eq].
    + split.
      * intros [_ Hc]. by destruct (revb b p), (flgb b p).
      * intros [? ?]. simplify_eq. split; [done|].
        by destruct (revb b p), (flgb b p); simplify_eq.
    + intros Hin. rewrite Hnum. apply dict_get_map.
      by apply numbered_spec.
  - intros p Hp. rewrite Hkeys, numbered_spec, Hcov, Hflg.
    assert (~ on_board b p).
    { intros Hon. apply in_bounds_spec in Hon. congruence. }
    tauto.
Qed.

Lemma state_for_agent_partitions_the_grid_witness :
  exists st, state_for_agent line7_mid_open = Ok st /\ NoDup (numbers st).*1.
Proof.
  assert (Hwf : wf_board line7_mid_open)
    by exact (sound_wf _ (@agent_play_sound counter_random _ line7_mid_open_play)).
  destruct (state_for_agent_partitions_the_grid line7_mid_open Hwf)
    as (st & H1 & H2 & _).
  exists st. split; [exact H1 | exact H2].
Defined.

(** ** Indexing outside the grid and from the end *)

Lemma py_get_off {A : Type} (l : list A) (i : Z) :
  ~ (- Z.of_nat (length l) <= i < Z.of_nat (length l)) ->
  py_get l i = Fail IndexError.
Proof.
  intros Hi. unfold py_get.
  destruct (i <? 0) eqn:Hneg;
    destruct (0 <=? _) eqn:H0; destruct (_ <? Z.of_nat (length l)) eqn:H1;
    simpl; try done; lia.
Qed.

Lemma py_set_off {A : Type} (l : list A) (i : Z) (x : A) :
  ~ (- Z.of_nat (length l) <= i < Z.of_nat (length l)) ->
  py_set l i x = Fail IndexError.
Proof.
  intros Hi. unfold py_set.
  destruct (i <? 0) eqn:Hneg;
    destruct (0 <=? _) eqn:H0; destruct (_ <? Z.of_nat (length l)) eqn:H1;
    simpl; try done; lia.
Qed.

Lemma py_get_range {A : Type} (l : list A) (i : Z) (x : A) :
  py_get l i = Ok x ->
  - Z.of_nat (length l) <= i < Z.of_nat (length l) /\ x ∈ l.
Proof.
  intros Hget.
  destruct (decide (- Z.of_nat (length l) <= i < Z.of_nat (length l)))
    as [Hi|Hi]; [|by rewrite py_get_off in Hget].
  split; [done|]. unfold py_get in Hget.
  destruct (_ && _); [|done].
  destruct (l !! _) as [y|] eqn:Hy; [|done]. simplify_eq.
  by eapply list_elem_of_lookup_2.
Qed.

Lemma py_get_wrap {A : Type} (l : list A) (i : Z) :
  - Z.of_nat (length l) <= i ->
  py_get l i = py_get l (if i <? 0 then i + Z.of_nat (length l) else i).
Proof.
  intros Hi. unfold py_get. destruct (i <? 0) eqn:Hneg; [|by rewrite Hneg].
  destruct (i + Z.of_nat (length l) <? 0) eqn:Hneg'; [lia | done].
Qed.

Lemma py_set_wrap {A : Type} (l : list A) (i : Z) (x : A) :
  - Z.of_nat (length l) <= i ->
  py_set l i x = py_set l (if i <? 0 then i + Z.of_nat (length l) else i) x.
Proof.
  intros Hi. unfold py_set. destruct (i <? 0) eqn:Hneg; [|by rewrite Hneg].
  destruct (i + Z.of_nat (length l) <? 0) eqn:Hneg'; [lia | done].
Qed.

Section GridEdges.
Context {A : Type}.
Variables (R C : Z) (g : list (list A)).
Hypothesis Hd : grid_dims R C g.

Lemma grid_get_off (p : Coord) :
  ~ (- R <= fst p < R /\ - C <= snd p < C) -> grid_get g p = Fail IndexError.
Proof.
  intros Hp. unfold grid_get. destruct Hd as [Hlen Hrows].
  destruct (py_get g (fst p)) as [row|e] eqn:Hrow; simpl.
  - apply py_get_range in Hrow as [Hr Hin].
    rewrite Forall_forall in Hrows. apply Hrows in Hin.
    apply py_get_off. lia.
  - destruct (decide (- Z.of_nat (length g) <= fst p < Z.of_nat (length g)))
      as [Hi|Hi]; [|rewrite py_get_off in Hrow by done; by simplify_eq].
    unfold py_get in Hrow. destruct (_ && _) eqn:Hc; [|by simplify_eq].
    destruct (g !! _); by simplify_eq.
Qed.

Lemma grid_set_off (p : Coord) (x : A) :
  ~ (- R <= fst p < R /\ - C <= snd p < C) -> grid_set g p x = Fail IndexError.
Proof.
  intros Hp. unfold grid_set. destruct Hd as [Hlen Hrows].
  destruct (py_get g (fst p)) as [row|e] eqn:Hrow; simpl.
  - apply py_get_range in Hrow as [Hr Hin].
    rewrite Forall_forall in Hrows. apply Hrows in Hin.
    rewrite py_set_off by lia. done.
  - destruct (decide (- Z.of_nat (length g) <= fst p < Z.of_nat (length g)))
      as [Hi|Hi]; [|rewrite py_get_off in Hrow by done; by simplify_eq].
    unfold py_get in Hrow. destruct (_ && _) eqn:Hc; [|by simplify_eq].
    destruct (g !! _); by simplify_eq.
Qed.

Lemma grid_get_wrap (p : Coord) :
  - R <= fst p < R -> - C <= snd p < C ->
  grid_get g p = grid_get g (if fst p <? 0 then fst p + R else fst p,
                             if snd p <? 0 then snd p + C else snd p).
Proof.
  intros Hr Hc. unfold grid_get. simpl. destruct Hd as [Hlen Hrows].
  rewrite (py_get_wrap g (fst p)) by lia.
  replace (Z.of_nat (length g)) with R by lia.
  destruct (py_get g _) as [row|e] eqn:Hrow; [simpl|done].
  apply py_get_range in Hrow as [_ Hin].
  rewrite Forall_forall in Hrows. apply Hrows in Hin.
  rewrite (py_get_wrap row (snd p)) by lia.
  by replace (Z.of_nat (length row)) with C by lia.
Qed.

Lemma grid_set_wrap (p : Coord) (x : A) :
  - R <= fst p < R -> - C <= snd p < C ->
  grid_set g p x = grid_set g (if fst p <? 0 then fst p + R else fst p,
                               if snd p <? 0 then snd p + C else snd p) x.
Proof.
  intros Hr Hc. unfold grid_set. simpl. destruct Hd as [Hlen Hrows].
  rewrite (py_get_wrap g (fst p)) by lia.
  replace (Z.of_nat (length g)) with R by lia.
  destruct (py_get g _) as [row|e] eqn:Hrow; [simpl|done].
  apply py_get_range in Hrow as [_ Hin].
  rewrite Forall_forall in Hrows. apply Hrows in Hin.
  rewrite (py_set_wrap row (snd p)) by lia.
  replace (Z.of_nat (length row)) with C by lia.
  destruct (py_set row _ x) as [row'|e]; [simpl|done].
  rewrite (py_set_wrap g (fst p)) by lia.
  by replace (Z.of_nat (length g)) with R by lia.
Qed.

(** Writing back the value that was read undoes a write. *)
Lemma grid_set_undo (g' : list (list A)) (p : Coord) (x y : A) :
  inb R C p -> grid_get g p = Ok y -> grid_set g p x = Ok g' ->
  grid_set g' p y = Ok g.
Proof.
  intros [Hr Hc] Hget Hset. destruct Hd as [Hlen Hrows].
  unfold grid_get in Hget. unfold grid_set in Hset |- *.
  destruct (py_get_inrange g (fst p)) as (row & Hrow & Hlook); [lia|].
  rewrite Hrow in Hget, Hset. simpl in Hget, Hset.
  assert (Hrl : length row = Z.to_nat C).
  { rewrite Forall_lookup in Hrows. eauto. }
  destruct (py_get_inrange row (snd p)) as (y' & Hy & Hylook); [lia|].
  rewrite Hy in Hget. simplify_eq.
  rewrite py_set_inrange in Hset by lia. simpl in Hset.
  rewrite py_set_inrange in Hset by lia. simplify_eq.
  destruct (py_get_inrange (<[Z.to_nat (fst p) := <[Z.to_nat (snd p) := x]> row]> g)
              (fst p)) as (row' & -> & Hlook'); [rewrite length_insert; lia|].
  rewrite list_lookup_insert_eq in Hlook' by lia. simplify_eq. simpl.
  rewrite py_set_inrange by (rewrite length_insert; lia). simpl.
  rewrite py_set_inrange by (rewrite length_insert; lia).
  rewrite !list_insert_insert_eq.
  by rewrite (list_insert_id row), (list_insert_id g).
Qed.
End GridEdges.

Lemma set_flagged_undo (b : Board) (g : list (list bool)) :
  set_flagged (set_flagged b g) (_flagged b) = b.
Proof. by destruct b. Qed.

(** ** [flag] and [unflag] *)

(** X7.  On a board in progress, [flag] on a revealed cell changes
    nothing; on a covered cell it sets the flag, and [unflag] on the same
    cell then gives back the very board [flag] was called on. *)
Theorem flag_then_unflag_restores_the_board (b : Board) (p : Coord) :
  wf_board b -> in_bounds b p = true -> game_over b = false ->
  flagged b p = Ok false ->
  exists b', flag b p = Ok b' /\
    (revealed b p = Ok true -> b' = b) /\
    (revealed b p = Ok false ->
       flagged b' p = Ok true /\ revealed b' p = Ok false /\
       unflag b' p = Ok b).
Proof.
  intros Hwf Hp Hgo Hfl. apply in_bounds_spec in Hp.
  unfold game_over in Hgo. unfold flag, unflag. rewrite Hgo. simpl.
  rewrite (read_revealed b Hwf p Hp). simpl.
  destruct (revb b p) eqn:Hrv; simpl.
  { exists b. split; [done|]. split; [done|]. intros ?. by simplify_eq. }
  destruct (grid_set_inb _ _ _ p true (wf_flagged b Hwf) Hp)
    as (g & Hg & Hdg & Hget & _).
  rewrite Hg. simpl. eexists. split; [reflexivity|].
  split; [intros ?; by simplify_eq|]. intros _.
  split; [exact Hget|]. split.
  - unfold revealed. simpl. fold (revealed b p).
    by rewrite (read_revealed b Hwf p Hp), Hrv.
  - change (_game_over (set_flagged b g)) with (_game_over b).
    change (_flagged (set_flagged b g)) with g. rewrite Hgo.
    rewrite (grid_set_undo _ _ _ (wf_flagged b Hwf) g p true false Hp Hfl Hg).
    simpl. by rewrite set_flagged_undo.
Qed.

Lemma flag_then_unflag_restores_the_board_witness :
  exists b', flag line7 (0, 1) = Ok b' /\ unflag b' (0, 1) = Ok line7.
Proof.
  destruct (flag_then_unflag_restores_the_board line7 (0, 1) line7_wf
              eq_refl eq_refl eq_refl) as (b' & H1 & _ & H2).
  exists b'. split; [exact H1|]. exact (proj2 (proj2 (H2 eq_refl))).
Defined.

(** ** Coordinates outside the grid *)

(** X8.  While the game is in progress, a coordinate outside
    [-rows, rows) x [-cols, cols) makes every read and every action raise
    IndexError; none of them changes the board. *)
Theorem coordinates_off_the_grid_raise (b : Board) (p : Coord) :
  wf_board b -> game_over b = false ->
  ~ (- rows b <= fst p < rows b /\ - cols b <= snd p < cols b) ->
  is_mine b p = Fail IndexError /\ adj b p = Fail IndexError /\
  revealed b p = Fail IndexError /\ flagged b p = Fail IndexError /\
  reveal b p = Fail IndexError /\ flag b p = Fail IndexError /\
  unflag b p = Fail IndexError.
Proof.
  intros Hwf Hgo Hp. unfold game_over in Hgo.
  pose proof (grid_get_off _ _ _ (wf_mine b Hwf) p Hp) as Hm.
  pose proof (grid_get_off _ _ _ (wf_adj_dims b Hwf) p Hp) as Ha.
  pose proof (grid_get_off _ _ _ (wf_revealed b Hwf) p Hp) as Hr.
  pose proof (grid_get_off _ _ _ (wf_flagged b Hwf) p Hp) as Hf.
  pose proof (grid_set_off _ _ _ (wf_flagged b Hwf) p false Hp) as Hs.
  unfold is_mine, adj, revealed, flagged, reveal, flag, unflag.
  rewrite Hgo. unfold flagged, revealed. simpl. by rewrite Hm, Ha, Hr, Hf, Hs.
Qed.

Lemma coordinates_off_the_grid_raise_witness :
  reveal line7 (0, 7) = Fail IndexError /\ flag line7 (1, 0) = Fail IndexError.
Proof.
  split.
  - apply (coordinates_off_the_grid_raise line7 (0, 7) line7_wf eq_refl).
    simpl. lia.
  - apply (coordinates_off_the_grid_raise line7 (1, 0) line7_wf eq_refl).
    simpl. lia.
Defined.

(** X9.  A coordinate with a negative part in [-rows, rows) x
    [-cols, cols) is not [in_bounds], yet the reads, [flag] and [unflag]
    accept it and act on the cell counted from the end of the row or
    column. *)
Theorem negative_coordinates_wrap_around (b : Board) (p : Coord) :
  wf_board b ->
  - rows b <= fst p < rows b -> - cols b <= snd p < cols b ->
  in_bounds b (wrap b p) = true /\
  (in_bounds b p = true <-> wrap b p = p) /\
  is_mine b p = is_mine b (wrap b p) /\
  adj b p = adj b (wrap b p) /\
  revealed b p = revealed b (wrap b p) /\
  flagged b p = flagged b (wrap b p) /\
  flag b p = flag b (wrap b p) /\
  unflag b p = unflag b (wrap b p).
Proof.
  intros Hwf Hr Hc.
  pose proof (grid_get_wrap _ _ _ (wf_mine b Hwf) p Hr Hc) as Hm.
  pose proof (grid_get_wrap _ _ _ (wf_adj_dims b Hwf) p Hr Hc) as Ha.
  pose proof (grid_get_wrap _ _ _ (wf_revealed b Hwf) p Hr Hc) as Hrv.
  pose proof (grid_get_wrap _ _ _ (wf_flagged b Hwf) p Hr Hc) as Hf.
  fold (wrap b p) in Hm, Ha, Hrv, Hf.
  split_and!; try done.
  - unfold wrap, in_bounds. simpl.
    destruct (fst p <? 0) eqn:E1, (snd p <? 0) eqn:E2; lia.
  - rewrite in_bounds_spec. unfold wrap, on_board, inb. destruct p as [r c].
    simpl in *. destruct (r <? 0) eqn:E1, (c <? 0) eqn:E2; split;
      try (intros ?; simplify_eq); try lia; try done.
  - unfold flag, revealed. rewrite Hrv.
    by rewrite (grid_set_wrap _ _ _ (wf_flagged b Hwf) p true Hr Hc).
  - unfold unflag.
    by rewrite (grid_set_wrap _ _ _ (wf_flagged b Hwf) p false Hr Hc).
Qed.

Lemma negative_coordinates_wrap_around_witness :
  in_bounds line7 (0, -1) = false /\ wrap line7 (0, -1) = (0, 6) /\
  is_mine line7 (0, -1) = is_mine line7 (0, 6) /\
  flag line7 (0, -1) = flag line7 (0, 6).
Proof.
  assert (Hr : - rows line7 <= fst (0, -1) < rows line7) by (simpl; lia).
  assert (Hc : - cols line7 <= snd (0, -1) < cols line7) by (simpl; lia).
  destruct (negative_coordinates_wrap_around line7 (0, -1) line7_wf Hr Hc)
    as (_ & _ & H1 & _ & _ & _ & H2 & _).
  split; [reflexivity|]. split; [reflexivity|]. split; [exact H1 | exact H2].
Defined.

(** ** What a call of [reveal] changes *)

(** The three ways [reveal] ends on a cell of the grid. *)
Lemma reveal_cases (b : Board) (p : Coord) (b' : Board) (alive : bool) :
  wf_board b -> on_board b p -> reveal b p = Ok (b', alive) ->
  (b' = b /\ alive = true /\
   (_game_over b = true \/ flgb b p = true \/ revb b p = true)) \/
  (wf_board b' /\ rows b' = rows b /\ cols b' = cols b /\
   mines_count b' = mines_count b /\ _mine b' = _mine b /\
   _flagged b' = _flagged b /\ _adj b' = _adj b /\
   _game_over b = false /\ covb b p = true /\ revb b' p = true /\
   ((mineb b p = true /\ alive = false /\
     _game_over b' = true /\ _win_cached b' = Some false /\
     forall x, on_board b x -> x <> p -> revb b' x = revb b x) \/
    (mineb b p = false /\ alive = true /\
     (_game_over b' = false /\ _win_cached b' = _win_cached b \/
      _game_over b' = true /\ _win_cached b' = Some true) /\
     (forall x, on_board b x -> revb b x = true -> revb b' x = true) /\
     (forall x, on_board b x -> newly b b' x ->
        mineb b x = false /\ flgb b x = false)))).
Proof.
  intros Hwf Hp Hrev.
  destruct (_game_over b) eqn:Hgo.
  { rewrite reveal_game_over in Hrev by done. simplify_eq. left. tauto. }
  destruct (flgb b p) eqn:Hfl.
  { rewrite reveal_flagged in Hrev by done. simplify_eq. left. tauto. }
  destruct (revb b p) eqn:Hrv.
  { rewrite reveal_revealed in Hrev by done. simplify_eq. left. tauto. }
  right. assert (Hcov : covb b p = true) by (unfold covb; by rewrite Hrv, Hfl).
  destruct (mineb b p) eqn:Hmine.
  - destruct (reveal_mine b p Hwf Hp Hgo Hfl Hrv Hmine)
      as (g & Heq & Hwf' & Hnew & Hother).
    rewrite Heq in Hrev. simplify_eq.
    split; [by apply wf_set_over|]. split_and!; try done.
    left. split_and!; done.
  - destruct (reveal_safe b p Hwf Hp Hgo Hfl Hrv Hmine)
      as (b1 & Hfill & Hwf1 & Hsame & Hmono & Heq).
    rewrite Heq in Hrev.
    pose proof Hsame as (Er & Ec & Emc & Emi & Efl & Ead & Ego & Ewc).
    destruct (_reveal_region_closed b p b1 Hwf Hp Hfill) as [[Hp1|Hp1] _];
      [|congruence].
    pose proof (_reveal_region_no_mine b p b1 Hwf Hp Hmine Hfill) as Hsafe.
    destruct (existsb (pendingb b1) (all_cells (rows b) (cols b)));
      simplify_eq.
    + split_and!; try done. right. split_and!; try done.
      left. split; congruence.
    + split; [by apply wf_set_over|]. split_and!; try done.
      right. split_and!; try done. right. done.
Qed.

(** X10.  [reveal] on a cell of the grid only uncovers: the size, the
    mines, the adjacency counts and the flags of the board stay as they
    were, and every cell that was revealed stays revealed. *)
Theorem reveal_only_uncovers (b : Board) (p : Coord) :
  wf_board b -> in_bounds b p = true ->
  exists b' alive, reveal b p = Ok (b', alive) /\
    rows b' = rows b /\ cols b' = cols b /\
    (forall x, is_mine b' x = is_mine b x) /\
    (forall x, adj b' x = adj b x) /\
    (forall x, flagged b' x = flagged b x) /\
    (forall x, in_bounds b x = true -> revealed b x = Ok true ->
       revealed b' x = Ok true).
Proof.
  intros Hwf Hp. apply in_bounds_spec in Hp.
  assert (Hex : exists r, reveal b p = Ok r).
  { destruct (_game_over b) eqn:Hgo; [rewrite reveal_game_over; eauto|].
    destruct (flgb b p) eqn:Hfl; [rewrite reveal_flagged; eauto|].
    destruct (revb b p) eqn:Hrv; [rewrite reveal_revealed; eauto|].
    destruct (mineb b p) eqn:Hmine.
    - destruct (reveal_mine b p Hwf Hp Hgo Hfl Hrv Hmine) as (g & -> & _).
      eauto.
    - destruct (reveal_safe b p Hwf Hp Hgo Hfl Hrv Hmine)
        as (b1 & _ & _ & _ & _ & ->). eauto. }
  destruct Hex as [[b' alive] Hrev]. exists b', alive. split; [done|].
  destruct (reveal_cases b p b' alive Hwf Hp Hrev)
    as [(-> & _)|(Hwf' & Er & Ec & _ & Emi & Efl & Ead & _ & _ & Hp' & Hcase)];
    [done|].
  split; [done|]. split; [done|].
  unfold is_mine, adj, flagged. rewrite Emi, Efl, Ead.
  split; [done|]. split; [done|]. split; [done|].
  intros x Hx Hrv. apply in_bounds_spec in Hx.
  assert (Hx' : on_board b' x) by (unfold on_board; by rewrite Er, Ec).
  rewrite (read_revealed b Hwf x Hx) in Hrv.
  rewrite (read_revealed b' Hwf' x Hx'). f_equal.
  assert (Hrvx : revb b x = true) by congruence.
  destruct Hcase as [(_ & _ & _ & _ & Hother)|(_ & _ & _ & Hmono & _)].
  - destruct (decide (x = p)) as [->|Hne]; [done|]. by rewrite Hother.
  - by apply Hmono.
Qed.

Lemma reveal_only_uncovers_witness :
  exists b' alive, reveal line7_gap (0, 0) = Ok (b', alive) /\
    revealed b' (0, 2) = Ok true.
Proof.
  destruct (reveal_only_uncovers line7_gap (0, 0)
              (@playable_wf counter_random _ line7_gap_playable) eq_refl)
    as (b' & alive & H1 & _ & _ & _ & _ & _ & H2).
  exists b', alive. split; [exact H1|]. exact (H2 (0, 2) eq_refl eq_refl).
Defined.

(** A count moves by one when the test changes on one cell. *)
Lemma count_update {A : Type} `{EqDecision A} (f g : A -> bool) (l : list A) (p : A) :
  NoDup l -> p ∈ l -> f p = false -> g p = true ->
  (forall x, x ∈ l -> x <> p -> g x = f x) ->
  count g l = count f l + 1.
Proof.
  induction l as [|y l IH]; intros Hnd Hin Hf Hg Hother.
  { by apply elem_of_nil in Hin. }
  apply NoDup_cons in Hnd as [Hy Hnd]. rewrite !count_cons.
  destruct (decide (y = p)) as [->|Hne].
  - rewrite Hf, Hg. rewrite (count_ext g f l); [lia|].
    intros x Hx. apply Hother; [by apply list_elem_of_further|].
    intros ->. done.
  - rewrite (Hother y) by (done || apply list_elem_of_here).
    apply elem_of_cons in Hin as [->|Hin]; [done|].
    rewrite IH; [lia | done ..|].
    intros x Hx. apply Hother. by apply list_elem_of_further.
Qed.

Section GameInvariants.
Context `{PyRandom}.

(** X11.  On every board of a game, a flagged cell is not revealed:
    [flag] refuses revealed cells, [reveal] ignores flagged ones and the
    flood fill goes around them. *)
Theorem flagged_cells_are_never_revealed (b : Board) (p : Coord) :
  playable b -> in_bounds b p = true -> flagged b p = Ok true ->
  revealed b p = Ok false.
Proof.
  intros Hplay Hp Hfl. apply in_bounds_spec in Hp.
  pose proof (playable_wf b Hplay) as Hwf.
  rewrite (read_flagged b Hwf p Hp) in Hfl.
  rewrite (read_revealed b Hwf p Hp). f_equal.
  assert (Hflb : flgb b p = true) by congruence. clear Hfl Hwf.
  revert p Hp Hflb.
  induction Hplay as [R C M rng b Hinit | b b' Hplay IH Hstep]; intros p Hp Hfl.
  - destruct (Board_init_covered R C M rng b Hinit) as (_ & _ & _ & _ & _ & Hc).
    by destruct (Hc p Hp).
  - pose proof (playable_wf b Hplay) as Hwf0.
    destruct Hstep as [q alive Hq Hrev | q Hq Hflag | q Hq Hun].
    + destruct (reveal_cases b q b' alive Hwf0 Hq Hrev)
        as [(-> & _)|(_ & Er & Ec & _ & _ & Efl & _ & Hgo & Hcov & Hq' & Hcase)];
        [by apply IH|].
      assert (Hp0 : on_board b p) by (unfold on_board; by rewrite <- Er, <- Ec).
      rewrite (flgb_eq b b') in Hfl by done.
      pose proof (IH p Hp0 Hfl) as Hrv0.
      destruct Hcase as [(_ & _ & _ & _ & Hother)|(_ & _ & _ & _ & Hnew)].
      * destruct (decide (p = q)) as [->|Hne]; [|by rewrite Hother].
        unfold covb in Hcov. rewrite Hfl, andb_false_r in Hcov. done.
      * destruct (revb b' p) eqn:Hrv'; [|done].
        destruct (Hnew p Hp0 (conj Hrv0 Hrv')). congruence.
    + destruct (flag_spec b q Hwf0 Hq)
        as (b1 & Heq & _ & Er & Ec & _ & _ & Erv & _ & _ & _ & Hother & Hnew).
      rewrite Heq in Hflag. simplify_eq.
      assert (Hp0 : on_board b p) by (unfold on_board; by rewrite <- Er, <- Ec).
      rewrite (revb_eq b b') by done.
      destruct (decide (p = q)) as [->|Hne].
      * rewrite Hnew in Hfl. destruct (revb b q) eqn:Hrq; [|done].
        exfalso. rewrite orb_true_r in Hfl.
        pose proof (IH q Hp0 Hfl). congruence.
      * rewrite Hother in Hfl by done. by apply IH.
    + destruct (unflag_spec b q Hwf0 Hq)
        as (b1 & Heq & _ & Er & Ec & _ & _ & Erv & _ & _ & _ & Hother & Hnew).
      rewrite Heq in Hun. simplify_eq.
      assert (Hp0 : on_board b p) by (unfold on_board; by rewrite <- Er, <- Ec).
      rewrite (revb_eq b b') by done.
      destruct (decide (p = q)) as [->|Hne].
      * rewrite Hnew in Hfl. destruct (_game_over b); [by apply IH | done].
      * rewrite Hother in Hfl by done. by apply IH.
Qed.

(** X12.  On every board of a game, the game is lost exactly when a mine
    is revealed, and then exactly one mine is: no revealed mine while the
    game is in progress or won. *)
Theorem lost_exactly_when_a_mine_is_revealed (b : Board) :
  playable b ->
  revealed_mines b = if game_over b && negb (won b) then 1 else 0.
Proof.
  unfold game_over, won.
  induction 1 as [R C M rng b Hinit | b b' Hplay IH Hstep].
  - destruct (Board_init_covered R C M rng b Hinit)
      as (_ & _ & _ & -> & _ & Hc). simpl.
    apply count_zero. intros x Hx. apply elem_of_all_cells in Hx.
    destruct (Hc x Hx) as [-> _]. done.
  - pose proof (playable_wf b Hplay) as Hwf0.
    assert (Hflags : forall b1, rows b1 = rows b -> cols b1 = cols b ->
      _mine b1 = _mine b -> _revealed b1 = _revealed b ->
      _game_over b1 = _game_over b -> _win_cached b1 = _win_cached b ->
      revealed_mines b1
      = if _game_over b1 && negb (default false (_win_cached b1)) then 1 else 0).
    { intros b1 Er Ec Emi Erv Ego Ewc. rewrite Ego, Ewc, <- IH.
      unfold revealed_mines. rewrite Er, Ec. apply count_ext. intros x _.
      by rewrite (revb_eq b b1 x), (mineb_eq b b1 x). }
    destruct Hstep as [q alive Hq Hrev | q Hq Hflag | q Hq Hun].
    + destruct (reveal_cases b q b' alive Hwf0 Hq Hrev)
        as [(-> & _)|(_ & Er & Ec & _ & Emi & _ & _ & Hgo & Hcov & Hq' & Hcase)];
        [done|].
      rewrite Hgo in IH. simpl in IH. unfold revealed_mines. rewrite Er, Ec.
      destruct Hcase as [(Hm & _ & -> & -> & Hother)|(Hm & _ & Hst & Hmono & Hnew)].
      * simpl. fold (revealed_mines b) in IH. rewrite <- (Z.add_0_l 1), <- IH.
        apply (count_update _ _ _ q).
        -- apply NoDup_all_cells.
        -- by apply elem_of_all_cells.
        -- unfold covb in Hcov. by destruct (revb b q).
        -- by rewrite Hq', (mineb_eq b b' q), Hm.
        -- intros x Hx Hne. apply elem_of_all_cells in Hx.
           by rewrite Hother, (mineb_eq b b' x).
      * assert (Hst' : _game_over b' && negb (default false (_win_cached b')) = false).
        { destruct Hst as [[-> _]|[-> ->]]; done. }
        rewrite Hst', <- IH. apply count_ext. intros x Hx.
        apply elem_of_all_cells in Hx. rewrite (mineb_eq b b' x) by done.
        destruct (mineb b x) eqn:Hmx; [|by rewrite !andb_false_r].
        rewrite !andb_true_r. destruct (revb b x) eqn:Hrx; [by apply Hmono|].
        destruct (revb b' x) eqn:Hrx'; [|done].
        destruct (Hnew x Hx (conj Hrx Hrx')). congruence.
    + destruct (flag_spec b q Hwf0 Hq)
        as (b1 & Heq & _ & Er & Ec & _ & Emi & Erv & _ & Ego & Ewc & _).
      rewrite Heq in Hflag. simplify_eq. by apply Hflags.
    + destruct (unflag_spec b q Hwf0 Hq)
        as (b1 & Heq & _ & Er & Ec & _ & Emi & Erv & _ & Ego & Ewc & _).
      rewrite Heq in Hun. simplify_eq. by apply Hflags.
Qed.
End GameInvariants.

Lemma flagged_cells_are_never_revealed_witness :
  exists b', flag line7 (0, 1) = Ok b' /\ revealed b' (0, 1) = Ok false.
Proof.
  assert (Hp : on_board line7 (0, 1)) by (unfold on_board, inb; simpl; lia).
  assert (Hfl : flag line7 (0, 1) = Ok (set_flagged line7
    [[false; true; false; false; false; false; false]])) by reflexivity.
  eexists. split; [exact Hfl|].
  apply (@flagged_cells_are_never_revealed counter_random).
  - apply (@playable_step counter_random line7); [apply line7_playable|].
    by apply (step_flag _ _ (0, 1)).
  - reflexivity.
  - reflexivity.
Defined.

Lemma lost_exactly_when_a_mine_is_revealed_witness :
  revealed_mines line7_lost = 1.
Proof.
  exact (@lost_exactly_when_a_mine_is_revealed counter_random line7_lost
           line7_lost_playable).
Defined.

(** * The agents at play *)

(** ** [neighbor_buckets] *)

Lemma bucket_filter (st : AgentView) (l : list Coord) :
  bucket st l =
  (filter (fun nb => nb ∉ flagged_cells st /\ nb ∈ covered st) l,
   filter (fun nb => nb ∈ flagged_cells st) l).
Proof.
  induction l as [|nb l IH]; [done|]. simpl. rewrite IH, !filter_cons.
  destruct (decide (nb ∈ flagged_cells st)) as [Hf|Hf].
  - rewrite decide_False by tauto. done.
  - destruct (decide (nb ∈ covered st)) as [Hc|Hc].
    + rewrite decide_True by tauto. done.
    + rewrite decide_False by tauto. done.
Qed.

Lemma dict_get_cases {V : Type} (d : list (Coord * V)) (k : Coord) :
  match dict_get d k with
  | Ok v => (k, v) ∈ d
  | Fail e => e = KeyError /\ k ∉ d.*1
  end.
Proof.
  induction d as [|[k' v'] d IH]; simpl.
  - split; [done|]. apply not_elem_of_nil.
  - destruct (decide (k' = k)) as [->|Hne]; [apply list_elem_of_here|].
    destruct (dict_get d k) as [v|e].
    + by apply list_elem_of_further.
    + destruct IH as [-> Hk]. split; [done|].
      rewrite not_elem_of_cons. split; [congruence | done].
Qed.

Lemma filter_disjoint_length {A : Type} (P Q : A -> Prop)
    `{!forall x, Decision (P x)} `{!forall x, Decision (Q x)} (l : list A) :
  (forall x, P x -> Q x -> False) ->
  (length (filter P l) + length (filter Q l) <= length l)%nat.
Proof.
  intros Hd. induction l as [|x l IH]; [done|]. rewrite !filter_cons.
  destruct (decide (P x)) as [HP|HP], (decide (Q x)) as [HQ|HQ]; simpl;
    [by destruct (Hd x) | lia ..].
Qed.

(** X13.  [neighbor_buckets] raises KeyError exactly when the cell has
    no entry in [numbers]; otherwise it returns the cell's number, the
    neighbours that are in [flagged], and the neighbours that are in
    [covered] and not in [flagged], each in the order of [neighbors]; no
    cell is in both lists and the lists hold at most eight cells. *)
Theorem neighbor_buckets_sorts_the_neighbours (b : Board) (cell : Coord)
    (st : AgentView) :
  match neighbor_buckets b cell st with
  | Ok (cov, flg, n) =>
      (cell, n) ∈ numbers st /\
      cov = filter (fun nb => nb ∉ flagged_cells st /\ nb ∈ covered st)
                   (neighbors b cell) /\
      flg = filter (fun nb => nb ∈ flagged_cells st) (neighbors b cell) /\
      (forall nb, nb ∈ cov -> nb ∉ flg) /\
      len cov + len flg <= 8
  | Fail e => e = KeyError /\ cell ∉ (numbers st).*1
  end.
Proof.
  unfold neighbor_buckets. rewrite bucket_filter.
  pose proof (dict_get_cases (numbers st) cell) as Hget.
  destruct (dict_get (numbers st) cell) as [n|e]; simpl; [|done].
  split; [done|]. split; [done|]. split; [done|]. split.
  - intros nb Hc Hf. apply list_elem_of_filter in Hc as [[Hc _] _].
    apply list_elem_of_filter in Hf as [Hf _]. done.
  - pose proof (neighbors_length b cell) as Hl.
    pose proof (filter_disjoint_length
      (fun nb => nb ∉ flagged_cells st /\ nb ∈ covered st)
      (fun nb => nb ∈ flagged_cells st) (neighbors b cell)) as Hd.
    unfold len. assert (forall x : Coord,
      x ∉ flagged_cells st /\ x ∈ covered st -> x ∈ flagged_cells st -> False)
      by tauto.
    specialize (Hd H). lia.
Qed.

(** ** The target of [Phase1Agent.choose_action] *)

Lemma sp_choice_covered (rule : list Coord -> list Coord -> Z -> bool)
    (b : Board) (p : Coord) :
  sp_choice rule b = Some p -> on_board b p /\ covb b p = true.
Proof.
  intros Hc. destruct (sp_choice_cell rule b p Hc) as (cell & _ & _ & Hp).
  unfold cov_nbrs in Hp. apply list_elem_of_filter in Hp as [Hcov Hp].
  split; [by apply neighbors_on_board in Hp | done].
Qed.

Section Phase1Target.
Context `{PyRandom}.

(** [choose_action] returns, and what it returns is about a covered
    cell; it returns [None] only when no cell is covered. *)
Lemma Phase1_choose_action_covered (ag : Agent) (b : Board) :
  wf_board b ->
  exists r ag', Phase1_choose_action ag b = Ok (r, ag') /\
    match r with
    | Some a => on_board b (target a) /\ covb b (target a) = true
    | None => forall p, on_board b p -> covb b p = false
    end.
Proof.
  intros Hwf.
  destruct (state_for_agent_spec b Hwf) as (st0 & Hst0 & _ & Hcov & _).
  destruct (Phase1_choose_action_spec ag b Hwf) as (st & Hst & _ & Hcases).
  rewrite Hst0 in Hst. simplify_eq.
  destruct (sp_choice mine_rule b) as [q|] eqn:Hmine.
  { eexists _, _. split; [exact Hcases|]. by apply (sp_choice_covered mine_rule). }
  destruct (sp_choice safe_rule b) as [q|] eqn:Hsafe.
  { eexists _, _. split; [exact Hcases|]. by apply (sp_choice_covered safe_rule). }
  destruct (decide (covered st = ∅)) as [Hemp|Hne].
  { eexists _, _. split; [exact Hcases|]. intros p Hp.
    destruct (covb b p) eqn:Hc; [|done].
    assert (Hin : p ∈ covered st) by (by apply Hcov).
    rewrite Hemp in Hin. by apply elem_of_empty in Hin. }
  destruct Hcases as (q & g & _ & Hq & Heq).
  eexists _, _. split; [exact Heq|]. by apply Hcov.
Qed.

(** X14.  On a well-formed board [Phase1Agent.choose_action] raises
    nothing; the cell of the action it returns is a cell of the grid that
    is neither revealed nor flagged, and it returns [None] exactly when
    [covered_cells] is empty. *)
Theorem Phase1_acts_on_a_covered_cell (ag : Agent) (b : Board) :
  wf_board b ->
  exists r ag', Phase1_choose_action ag b = Ok (r, ag') /\
    (r = None <-> covered_cells b = Ok []) /\
    forall a, r = Some a ->
      in_bounds b (target a) = true /\
      revealed b (target a) = Ok false /\ flagged b (target a) = Ok false.
Proof.
  intros Hwf.
  destruct (Phase1_choose_action_covered ag b Hwf) as (r & ag' & Heq & Hr).
  exists r, ag'. split; [done|].
  assert (Hcc : covered_cells b
    = Ok (filter (fun p => covb b p = true) (all_cells (rows b) (cols b)))).
  { unfold covered_cells. apply filter_res_total. intros p Hp.
    apply elem_of_all_cells in Hp. by apply read_covered. }
  rewrite Hcc. split.
  - destruct r as [a|].
    + destruct Hr as [Hp Hc]. split; [done|]. intros Hnil. exfalso.
      assert (Hin : target a ∈ filter (fun p => covb b p = true)
                                      (all_cells (rows b) (cols b))).
      { apply list_elem_of_filter. split; [done | by apply elem_of_all_cells]. }
      simplify_eq. rewrite Hnil in Hin. by apply elem_of_nil in Hin.
    + split; [|done]. intros _. f_equal. apply filter_none.
      intros p Hp. apply elem_of_all_cells in Hp. rewrite (Hr p Hp). done.
  - intros a ->. destruct Hr as [Hp Hc]. split; [by apply in_bounds_spec|].
    rewrite (read_revealed b Hwf _ Hp), (read_flagged b Hwf _ Hp).
    unfold covb in Hc. by destruct (revb b (target a)), (flgb b (target a)).
Qed.
End Phase1Target.

Lemma Phase1_acts_on_a_covered_cell_witness :
  exists r ag', @Phase1_choose_action counter_random
                  (@Phase1Agent_init counter_random 0) line7_mid_open
                = Ok (r, ag') /\
    forall a, r = Some a -> in_bounds line7_mid_open (target a) = true.
Proof.
  assert (Hwf : wf_board line7_mid_open)
    by exact (sound_wf _ (@agent_play_sound counter_random _ line7_mid_open_play)).
  destruct (@Phase1_acts_on_a_covered_cell counter_random
              (@Phase1Agent_init counter_random 0) line7_mid_open Hwf)
    as (r & ag' & H1 & _ & H2).
  exists r, ag'. split; [exact H1|]. intros a Ha. exact (proj1 (H2 a Ha)).
Defined.

(** ** The rounds of [play_game] *)

Lemma reveal_total (b : Board) (p : Coord) :
  wf_board b -> on_board b p -> exists b' alive, reveal b p = Ok (b', alive).
Proof.
  intros Hwf Hp.
  destruct (_game_over b) eqn:Hgo; [rewrite reveal_game_over; eauto|].
  destruct (flgb b p) eqn:Hfl; [rewrite reveal_flagged; eauto|].
  destruct (revb b p) eqn:Hrv; [rewrite reveal_revealed; eauto|].
  destruct (mineb b p) eqn:Hmine.
  - destruct (reveal_mine b p Hwf Hp Hgo Hfl Hrv Hmine) as (g & -> & _). eauto.
  - destruct (reveal_safe b p Hwf Hp Hgo Hfl Hrv Hmine)
      as (b1 & _ & _ & _ & _ & ->). eauto.
Qed.

(** A flag on a mine keeps what the agent relies on. *)
Lemma sound_board_flag_mine (b b' : Board) (p : Coord) :
  sound_board b -> on_board b p -> mineb b p = true ->
  flag b p = Ok b' -> sound_board b'.
Proof.
  intros Hs Hp Hmine Hflag. pose proof Hs as [Hwf Hsr Hsf].
  destruct (flag_spec b p Hwf Hp)
    as (b1 & Heq & Hwf1 & Er & Ec & _ & Emi & Erv & _ & Ego & _ & Hother & _).
  rewrite Heq in Hflag. simplify_eq.
  assert (Hon : forall x, on_board b' x <-> on_board b x).
  { intros x. unfold on_board. by rewrite Er, Ec. }
  constructor; [done | |].
  - rewrite Ego. intros Hgo' x Hx Hr. rewrite (mineb_eq b b') by done.
    apply Hsr; [done | by apply Hon | by rewrite <- (revb_eq b b')].
  - intros x Hx Hf. rewrite (mineb_eq b b') by done. apply Hon in Hx.
    destruct (decide (x = p)) as [->|Hne]; [done|].
    apply Hsf; [done|]. by rewrite <- Hother.
Qed.

(** While the game is in progress some cell is still covered. *)
Lemma in_progress_has_covered (b : Board) :
  sound_board b -> board_inv b -> _game_over b = false ->
  exists p, on_board b p /\ covb b p = true.
Proof.
  intros [Hwf Hsr Hsf] Hinv Hgo.
  pose proof (inv_won b Hinv) as Hwon.
  unfold won in Hwon. rewrite (inv_progress b Hinv Hgo) in Hwon. simpl in Hwon.
  symmetry in Hwon. apply negb_false_iff in Hwon.
  apply existsb_exists in Hwon as (p & Hin & Hpend).
  apply list_elem_of_In, elem_of_all_cells in Hin.
  exists p. split; [done|]. unfold pendingb in Hpend. unfold covb.
  apply andb_true_iff in Hpend as [Hm Hr]. rewrite Hr. simpl.
  destruct (flgb b p) eqn:Hf; [|done].
  rewrite (Hsf p Hin Hf) in Hm. done.
Qed.

Lemma covered_count_drop (b b' : Board) (p : Coord) :
  rows b' = rows b -> cols b' = cols b -> on_board b p ->
  covb b p = true -> covb b' p = false ->
  (forall x, on_board b x -> covb b' x = true -> covb b x = true) ->
  (covered_count b' < covered_count b)%nat.
Proof.
  intros Er Ec Hp Hc Hc' Hsub. unfold covered_count. rewrite Er, Ec.
  apply (filter_length_drop _ _ _ p).
  - by apply elem_of_all_cells.
  - done.
  - congruence.
  - intros y Hy. apply elem_of_all_cells in Hy. by apply Hsub.
Qed.

Lemma covered_count_le (b : Board) :
  (covered_count b <= Z.to_nat (rows b * cols b))%nat.
Proof.
  unfold covered_count.
  etrans; [apply length_filter|]. rewrite length_all_cells.
  destruct (decide (0 <= rows b)), (decide (0 <= cols b)); nia.
Qed.

(** What a flag on a covered cell of a board in progress does. *)
Lemma flag_covered (b : Board) (p : Coord) :
  wf_board b -> on_board b p -> _game_over b = false -> covb b p = true ->
  exists b', flag b p = Ok b' /\ wf_board b' /\
    rows b' = rows b /\ cols b' = cols b /\ mines_count b' = mines_count b /\
    _mine b' = _mine b /\ _revealed b' = _revealed b /\
    _game_over b' = false /\ _win_cached b' = _win_cached b /\
    (covered_count b' < covered_count b)%nat /\
    flag_count b' = flag_count b + 1.
Proof.
  intros Hwf Hp Hgo Hc.
  destruct (flag_spec b p Hwf Hp)
    as (b' & Heq & Hwf' & Er & Ec & Emc & Emi & Erv & _ & Ego & Ewc & Hother & Hnew).
  unfold covb in Hc. apply andb_true_iff in Hc as [Hr Hf].
  apply negb_true_iff in Hr, Hf. rewrite Hgo, Hr in Hnew. simpl in Hnew.
  exists b'. split_and!; try done; [congruence | |].
  - apply (covered_count_drop b b' p); try done.
    + unfold covb. by rewrite Hr, Hf.
    + unfold covb. by rewrite Hnew, andb_false_r.
    + intros x Hx. unfold covb. rewrite (revb_eq b b' x) by done.
      destruct (decide (x = p)) as [->|Hne]; [by rewrite Hr, Hf|].
      by rewrite Hother.
  - unfold flag_count. rewrite Er, Ec. apply (count_update _ _ _ p).
    + apply NoDup_all_cells.
    + by apply elem_of_all_cells.
    + done.
    + done.
    + intros x Hx Hne. apply elem_of_all_cells in Hx. by apply Hother.
Qed.

(** What a reveal of a covered cell of a board in progress does. *)
Lemma reveal_covered (b : Board) (p : Coord) :
  wf_board b -> on_board b p -> _game_over b = false -> covb b p = true ->
  exists b' alive, reveal b p = Ok (b', alive) /\
    rows b' = rows b /\ cols b' = cols b /\ _mine b' = _mine b /\
    (alive = false -> _game_over b' = true) /\
    (covered_count b' < covered_count b)%nat /\
    flag_count b' = flag_count b.
Proof.
  intros Hwf Hp Hgo Hc.
  destruct (reveal_total b p Hwf Hp) as (b' & alive & Hrev).
  exists b', alive. split; [done|].
  destruct (reveal_cases b p b' alive Hwf Hp Hrev)
    as [(_ & _ & [Hx|[Hx|Hx]])
       |(_ & Er & Ec & _ & Emi & Efl & _ & _ & _ & Hp' & Hcase)].
  - congruence.
  - unfold covb in Hc. rewrite Hx, andb_false_r in Hc. done.
  - unfold covb in Hc. rewrite Hx in Hc. done.
  - split_and!; try done.
    + destruct Hcase as [(_ & _ & ? & _)|(_ & -> & _)]; done.
    + apply (covered_count_drop b b' p); try done.
      * unfold covb. by rewrite Hp'.
      * intros x Hx. unfold covb. rewrite (flgb_eq b b' x) by done.
        destruct (revb b x) eqn:Hrx; [|by destruct (revb b' x)].
        assert (Hrx' : revb b' x = true); [|by rewrite Hrx'].
        destruct Hcase as [(_ & _ & _ & _ & Hother)|(_ & _ & _ & Hmono & _)].
        -- destruct (decide (x = p)) as [->|Hne]; [done|]. by rewrite Hother.
        -- by apply Hmono.
    + unfold flag_count. rewrite Er, Ec. apply count_ext. intros x _.
      by apply flgb_eq.
Qed.

Section Rounds.
Context {St : Type}.
Variable choose_action : St -> Board -> res (option Action * St).
Variable last_move_was_logic : St -> bool.

(** More fuel does not change what the loop returns. *)
Lemma play_loop_of_fuel (fuel : nat) :
  forall fuel' st b out r, (fuel <= fuel')%nat ->
    play_loop_of choose_action last_move_was_logic fuel st b out = Ok r ->
    play_loop_of choose_action last_move_was_logic fuel' st b out = Ok r.
Proof.
  induction fuel as [|fuel IH]; intros fuel' st b out r Hle Hloop.
  - simpl in Hloop. destruct fuel'; simpl; destruct (_game_over b); done.
  - destruct fuel' as [|fuel']; [lia|]. simpl in Hloop |- *.
    destruct (_game_over b); [done|].
    destruct (choose_action st b) as [[[[p|p]|] st1]|e]; simpl in *; try done.
    + destruct (flag b p) as [b'|e]; simpl in *; [|done].
      apply IH; [lia | done].
    + destruct (reveal b p) as [[b' success]|e]; simpl in *; [|done].
      destruct success; [|done]. apply IH; [lia | done].
Qed.

(** The method is sound on the boards the agent can rely on: it returns,
    its action is about a covered cell, a flag is on a mine, and it gives
    up only when no cell is covered. *)
Hypothesis choose_action_sound : forall st b,
  sound_board b -> _game_over b = false ->
  exists r st', choose_action st b = Ok (r, st') /\
    match r with
    | Some a => on_board b (target a) /\ covb b (target a) = true /\
        (forall p, a = act_flag p -> mineb b p = true)
    | None => forall p, on_board b p -> covb b p = false
    end.

(** The loop ends with the game over, within one round per covered
    cell; its counters follow the board. *)
Lemma play_loop_of_finishes (fuel : nat) :
  forall st b out,
    sound_board b -> board_inv b -> (covered_count b < fuel)%nat ->
    exists out' st' b',
      play_loop_of choose_action last_move_was_logic fuel st b out
      = Ok (out', st', b') /\
      sound_board b' /\ board_inv b' /\ _game_over b' = true /\
      rows b' = rows b /\ cols b' = cols b /\ _mine b' = _mine b /\
      flags_set out' - flags_set out = flag_count b' - flag_count b /\
      0 <= flags_set out' - flags_set out <= logic_moves out' - logic_moves out /\
      0 <= guess_moves out' - guess_moves out /\
      (logic_moves out' - logic_moves out) + (guess_moves out' - guess_moves out)
      <= Z.of_nat (covered_count b) - Z.of_nat (covered_count b').
Proof.
  induction fuel as [|fuel IH]; intros st b out Hs Hinv Hfuel; [lia|].
  simpl. destruct (_game_over b) eqn:Hgo.
  { eexists _, _, _. split; [reflexivity|]. split_and!; try done; lia. }
  pose proof (sound_wf b Hs) as Hwf.
  destruct (choose_action_sound st b Hs Hgo) as (r & st1 & -> & Hr). simpl.
  destruct r as [[p|p]|]; simpl in Hr.
  - destruct Hr as (Hp & Hc & Hm). specialize (Hm p eq_refl).
    destruct (flag_covered b p Hwf Hp Hgo Hc)
      as (b1 & Hflag & Hwf1 & Er & Ec & Emc & Emi & Erv & Ego & Ewc & Hcnt & Hfc).
    rewrite Hflag. simpl.
    assert (Hs1 : sound_board b1) by (by eapply sound_board_flag_mine).
    assert (Hinv1 : board_inv b1).
    { apply (board_inv_flags b b1); try done. congruence. }
    destruct (IH st1 b1
                (mkOutcome (logic_moves out + 1) (guess_moves out) (flags_set out + 1))
                Hs1 Hinv1 ltac:(lia))
      as (out' & st' & b' & -> & Hs' & Hinv' & Hgo' & Er' & Ec' & Emi'
          & Hf & Hl & Hg & Hm').
    simpl in Hf, Hl, Hg, Hm'.
    eexists _, _, _. split; [reflexivity|].
    split_and!; try done; try congruence; try lia.
  - destruct Hr as (Hp & Hc & _).
    destruct (reveal_covered b p Hwf Hp Hgo Hc)
      as (b1 & alive & Hrev & Er & Ec & Emi & Hdead & Hcnt & Hfc).
    rewrite Hrev. simpl.
    pose proof (sound_board_reveal b b1 p alive Hs Hp Hrev) as Hs1.
    pose proof (board_inv_reveal b p b1 alive Hinv Hp Hrev) as Hinv1.
    destruct alive.
    + destruct (IH st1 b1
          (if last_move_was_logic st1
           then mkOutcome (logic_moves out + 1) (guess_moves out) (flags_set out)
           else mkOutcome (logic_moves out) (guess_moves out + 1) (flags_set out))
          Hs1 Hinv1 ltac:(lia))
        as (out' & st' & b' & -> & Hs' & Hinv' & Hgo' & Er' & Ec' & Emi'
            & Hf & Hl & Hg & Hm').
      eexists _, _, _. split; [reflexivity|].
      destruct (last_move_was_logic st1); simpl in Hf, Hl, Hg, Hm';
        split_and!; try done; try congruence; try lia.
    + eexists _, _, _. split; [reflexivity|].
      destruct (last_move_was_logic st1); simpl;
        split_and!; try done; try (by apply Hdead); try lia.
  - exfalso. destruct (in_progress_has_covered b Hs Hinv Hgo) as (p & Hp & Hc).
    rewrite (Hr p Hp) in Hc. done.
Qed.

(** [play_game] on a new board with at least one row and one column:
    the first click, then the loop. *)
Lemma play_game_of_finishes `{PyRandom} (R C M : Z) (rng : Rng) (b : Board)
    (st : St) :
  0 < R -> 0 < C -> Board_init R C M rng = Ok b ->
  exists out st' b',
    (forall fuel, (Z.to_nat (R * C) <= fuel)%nat ->
       play_game_of choose_action last_move_was_logic fuel st b
       = Ok (out, st', b')) /\
    sound_board b' /\ board_inv b' /\ _game_over b' = true /\
    rows b' = R /\ cols b' = C /\ _mine b' = _mine b /\
    flags_set out = flag_count b' /\
    0 <= flags_set out <= logic_moves out /\ 0 <= guess_moves out /\
    logic_moves out + guess_moves out < R * C.
Proof.
  intros HR HC Hinit.
  destruct (Board_init_covered R C M rng b Hinit)
    as (Hwf & Er & Ec & Hgo & Hwc & Hfresh).
  pose proof (sound_board_init R C M rng b Hinit) as Hs.
  pose proof (board_inv_init R C M rng b HR HC Hinit) as Hinv.
  assert (Hp : on_board b (0, 0)) by (unfold on_board, inb; simpl; lia).
  assert (Hc : covb b (0, 0) = true).
  { destruct (Hfresh (0, 0) Hp) as [Hr Hf]. unfold covb. by rewrite Hr, Hf. }
  assert (Hseen : any_res (revealed b) (all_cells (rows b) (cols b)) = Ok false).
  { rewrite (any_res_total _ (revb b)).
    - f_equal. apply not_true_is_false. intros Hex.
      apply existsb_exists in Hex as (x & Hin & Hx).
      apply list_elem_of_In, elem_of_all_cells in Hin.
      destruct (Hfresh x Hin). congruence.
    - intros x Hx. apply elem_of_all_cells in Hx. by apply read_revealed. }
  assert (Hflags0 : flag_count b = 0).
  { unfold flag_count. apply count_zero. intros x Hx.
    apply elem_of_all_cells in Hx. by destruct (Hfresh x Hx). }
  destruct (reveal_covered b (0, 0) Hwf Hp Hgo Hc)
    as (b1 & alive & Hrev & Er1 & Ec1 & Emi1 & _ & Hcnt & Hfc).
  pose proof (sound_board_reveal b b1 (0, 0) alive Hs Hp Hrev) as Hs1.
  pose proof (board_inv_reveal b (0, 0) b1 alive Hinv Hp Hrev) as Hinv1.
  pose proof (covered_count_le b) as Hle. rewrite Er, Ec in Hle.
  destruct (play_loop_of_finishes (Z.to_nat (R * C)) st b1 (mkOutcome 0 0 0)
              Hs1 Hinv1 ltac:(lia))
    as (out & st' & b' & Hloop & Hs' & Hinv' & Hgo' & Er' & Ec' & Emi'
        & Hf & Hl & Hg & Hm).
  simpl in Hf, Hl, Hg, Hm.
  exists out, st', b'. split.
  { intros fuel Hfuel. unfold play_game_of. rewrite Hseen. simpl.
    rewrite Hrev. simpl. by apply (play_loop_of_fuel (Z.to_nat (R * C))). }
  split_and!; try done; try congruence; try lia.
Qed.
End Rounds.

(** ** [Phase1Agent.play_game] *)

Section Phase1Game.
Context `{PyRandom}.

(** [play_loop] is the loop with [Phase1Agent.choose_action] as its
    method. *)
Lemma play_loop_dispatch (fuel : nat) :
  forall ag b out,
    play_loop fuel ag b out
    = play_loop_of Phase1_choose_action _last_move_was_logic fuel ag b out.
Proof.
  induction fuel as [|fuel IH]; intros ag b out; simpl; [done|].
  destruct (_game_over b); [done|].
  destruct (Phase1_choose_action ag b) as [[[[p|p]|] ag1]|e]; simpl; try done.
  - destruct (flag b p) as [b'|e]; simpl; [apply IH | done].
  - destruct (reveal b p) as [[b' success]|e]; simpl; [|done].
    destruct success; [apply IH | done].
Qed.

Lemma play_game_dispatch (fuel : nat) (ag : Agent) (b : Board) :
  play_game fuel ag b
  = play_game_of Phase1_choose_action _last_move_was_logic fuel ag b.
Proof.
  unfold play_game, play_game_of.
  destruct (any_res _ _) as [seen|e]; simpl; [|done].
  destruct (if seen then _ else _) as [b1|e]; simpl; [|done].
  apply play_loop_dispatch.
Qed.

Lemma Phase1_choose_action_sound (ag : Agent) (b : Board) :
  sound_board b -> _game_over b = false ->
  exists r ag', Phase1_choose_action ag b = Ok (r, ag') /\
    match r with
    | Some a => on_board b (target a) /\ covb b (target a) = true /\
        (forall p, a = act_flag p -> mineb b p = true)
    | None => forall p, on_board b p -> covb b p = false
    end.
Proof.
  intros Hs Hgo. pose proof (sound_wf b Hs) as Hwf.
  destruct (Phase1_choose_action_covered ag b Hwf) as (r & ag' & Heq & Hr).
  exists r, ag'. split; [done|]. destruct r as [a|]; [|done].
  destruct Hr as [Hp Hc]. split; [done|]. split; [done|]. intros p ->.
  pose proof (Phase1_action_inv ag ag' b (act_flag p) Hwf Heq) as Hinv.
  by destruct (mine_rule_sound b p Hs Hgo Hinv) as (_ & _ & ?).
Qed.

(** The flags of a board, read with [flagged]. *)
Lemma flag_count_read (b : Board) :
  wf_board b ->
  exists fl, filter_res (flagged b) (all_cells (rows b) (cols b)) = Ok fl /\
    flag_count b = len fl /\ forall p, p ∈ fl -> on_board b p /\ flgb b p = true.
Proof.
  intros Hwf. eexists. split; [|split; [reflexivity|]].
  - apply filter_res_total. intros p Hp. apply elem_of_all_cells in Hp.
    by apply read_flagged.
  - intros p Hp. apply list_elem_of_filter in Hp as [Hf Hp].
    by apply elem_of_all_cells in Hp.
Qed.

(** X15.  [Phase1Agent.play_game] on a new board with at least one row
    and one column raises nothing and always ends with the game over,
    after fewer moves than the grid has cells.  The flags it counted are
    the flags on the final board, all of them on mines; a flag counts as
    a logic move. *)
Theorem Phase1_play_game_ends_the_game (R C M : Z) (rng : Rng) (b : Board)
    (ag : Agent) :
  0 < R -> 0 < C -> Board_init R C M rng = Ok b ->
  exists out ag' b',
    (forall fuel, (Z.to_nat (R * C) <= fuel)%nat ->
       play_game fuel ag b = Ok (out, ag', b')) /\
    game_over b' = true /\
    (forall p, is_mine b' p = is_mine b p) /\
    (exists fl, filter_res (flagged b') (all_cells R C) = Ok fl /\
       flags_set out = len fl /\ forall p, p ∈ fl -> is_mine b' p = Ok true) /\
    0 <= flags_set out <= logic_moves out /\ 0 <= guess_moves out /\
    logic_moves out + guess_moves out < R * C.
Proof.
  intros HR HC Hinit.
  destruct (play_game_of_finishes Phase1_choose_action _last_move_was_logic
              Phase1_choose_action_sound R C M rng b ag HR HC Hinit)
    as (out & ag' & b' & Hrun & Hs' & Hinv' & Hgo' & Er' & Ec' & Emi'
        & Hf & Hl & Hg & Hm).
  exists out, ag', b'. split.
  { intros fuel Hfuel. rewrite play_game_dispatch. by apply Hrun. }
  split; [done|]. split; [intros p; unfold is_mine; by rewrite Emi'|].
  split; [|done].
  destruct (flag_count_read b' (sound_wf b' Hs')) as (fl & Hfl & Hlen & Hin).
  rewrite Er', Ec' in Hfl. exists fl. split; [done|]. split; [congruence|].
  intros p Hp. destruct (Hin p Hp) as [Hon Hflg].
  rewrite (read_mine b' (sound_wf b' Hs') p Hon). f_equal.
  by apply (sound_flags b' Hs').
Qed.

(** X16.  A board whose size passed the constructor's assertion without
    giving it a cell (both sizes negative) cannot be played: the first
    click of [play_game] raises IndexError. *)
Theorem play_game_without_cells_raises (R C M : Z) (rng : Rng) (b : Board)
    (ag : Agent) (fuel : nat) :
  Board_init R C M rng = Ok b -> ~ (0 < R /\ 0 < C) ->
  play_game fuel ag b = Fail IndexError.
Proof.
  intros Hinit Hneg.
  destruct (Board_init_covered R C M rng b Hinit) as (Hwf & Er & Ec & Hgo & _).
  unfold play_game. rewrite Er, Ec, (all_cells_degenerate R C Hneg). simpl.
  unfold reveal, flagged. rewrite Hgo. simpl.
  rewrite (grid_get_off _ _ _ (wf_flagged b Hwf) (0, 0)); [done|].
  rewrite Er, Ec. simpl. lia.
Qed.
End Phase1Game.

Lemma Phase1_play_game_ends_the_game_witness :
  exists out ag' b',
    @play_game counter_random 7 (@Phase1Agent_init counter_random 0) line7
    = Ok (out, ag', b') /\ game_over b' = true.
Proof.
  destruct (@Phase1_play_game_ends_the_game counter_random 1 7 1 6%nat line7
              (@Phase1Agent_init counter_random 0)
              ltac:(lia) ltac:(lia) line7_init)
    as (out & ag' & b' & H1 & H2 & _).
  exists out, ag', b'. split; [|exact H2].
  apply H1. simpl. lia.
Defined.

Lemma play_game_without_cells_raises_witness :
  @play_game counter_random 5 (@Phase1Agent_init counter_random 0)
    (mkBoard (-1) (-2) 1 [] [] [] [] false None)
  = Fail IndexError.
Proof.
  apply (@play_game_without_cells_raises counter_random (-1) (-2) 1 0%nat);
    [reflexivity | lia].
Defined.

(** * The frontier of [Phase2Agent] *)

(** ** The components split the frontier *)

Section Partition.
Variable g : gmap Coord (gset Coord).
Variable F : gset Coord.
Hypothesis g_in : forall x y, y ∈ adj_of g x -> y ∈ F.

Lemma component_loop_grows (fuel : nat) :
  forall vis comp q vis' comp',
    component_loop fuel g vis comp q = Ok (vis', comp') ->
    (forall z, z ∈ comp -> z ∈ vis) ->
    (forall z, z ∈ comp -> z ∈ comp') /\
    (forall z, z ∈ comp' -> z ∈ comp \/ (z ∈ F /\ z ∉ vis)) /\
    (forall z, z ∈ vis' <-> z ∈ vis \/ z ∈ comp').
Proof.
  induction fuel as [|fuel IH]; intros vis comp q vis' comp' Hloop Hsub.
  - destruct q; simpl in Hloop; simplify_eq. split_and!; try tauto.
    intros z. split; [tauto|]. intros [?|?]; [done | by apply Hsub].
  - destruct q as [|x q]; simpl in Hloop.
    { simplify_eq. split_and!; try tauto.
      intros z. split; [tauto|]. intros [?|?]; [done | by apply Hsub]. }
    destruct (visit_fold_spec F (elements (adj_of g x)) vis comp q)
      as (v1 & c1 & q1 & Heq & Hv & Hc & _).
    { intros z Hz. apply elem_of_elements in Hz. apply elem_of_elements.
      by apply (g_in x). }
    rewrite Heq in Hloop.
    destruct (IH v1 c1 q1 vis' comp' Hloop) as (Hmono & Hnew & Hvis).
    { intros z Hz. apply Hv. apply Hc in Hz as [Hz|[Hz _]]; [|by right].
      left. by apply Hsub. }
    split_and!.
    + intros z Hz. apply Hmono, Hc. by left.
    + intros z Hz. apply Hnew in Hz as [Hz|[HzF Hz]].
      * apply Hc in Hz as [Hz|[Hz Hnv]]; [by left|]. right. split; [|done].
        apply elem_of_elements in Hz. by apply (g_in x).
      * right. split; [done|]. intros Hzv. apply Hz, Hv. by left.
    + intros z. rewrite Hvis, Hv. split; [|tauto].
      intros [[Hz|Hz]|Hz]; [by left | | by right].
      destruct (decide (z ∈ vis)) as [Hzv|Hzv]; [by left|].
      right. apply Hmono, Hc. by right.
Qed.

Lemma components_loop_partition (fuel : nat) (vs : list Coord) :
  forall visited comps comps',
    components_loop fuel g vs visited comps = Ok comps' ->
    (forall v, v ∈ vs -> v ∈ F) ->
    (forall z, z ∈ visited <-> exists c, c ∈ comps /\ z ∈ c) ->
    (forall c, c ∈ comps -> c <> ∅ /\ forall z, z ∈ c -> z ∈ F) ->
    pairwise_disjoint comps ->
    (forall c, c ∈ comps' -> c <> ∅ /\ forall z, z ∈ c -> z ∈ F) /\
    pairwise_disjoint comps'.
Proof.
  induction vs as [|v vs IH]; intros visited comps comps' Hloop HvsF Hcover Hin Hdisj;
    simpl in Hloop.
  { by simplify_eq. }
  assert (HvsF' : forall w, w ∈ vs -> w ∈ F).
  { intros w Hw. apply HvsF. by apply list_elem_of_further. }
  destruct (decide (v ∈ visited)) as [Hv|Hv].
  { by apply (IH visited comps comps'). }
  inv_bind Hloop. destruct x as [vis' comp].
  destruct (component_loop_grows fuel ({[v]} ∪ visited) {[v]} [v] vis' comp Hx)
    as (Hmono & Hnew & Hvis).
  { intros z Hz. apply elem_of_union. by left. }
  assert (HcompF : forall z, z ∈ comp -> z ∈ F /\ z ∉ visited).
  { intros z Hz. apply Hnew in Hz as [Hz|[HzF Hz]].
    - apply elem_of_singleton in Hz as ->. split; [|done].
      apply HvsF, list_elem_of_here.
    - split; [done|]. intros Hzv. apply Hz, elem_of_union. by right. }
  apply (IH vis' (comps ++ [comp]) comps' Hloop HvsF').
  - intros z. rewrite Hvis, elem_of_union, elem_of_singleton, Hcover. split.
    + intros [[->|(c & Hc & Hz)]|Hz].
      * exists comp. split; [apply elem_of_app; right; apply list_elem_of_here|].
        apply Hmono. by apply elem_of_singleton.
      * exists c. split; [apply elem_of_app; by left | done].
      * exists comp. split; [apply elem_of_app; right; apply list_elem_of_here | done].
    + intros (c & Hc & Hz). apply elem_of_app in Hc as [Hc|Hc].
      * left. right. by exists c.
      * apply list_elem_of_singleton in Hc as ->. by right.
  - intros c Hc. apply elem_of_app in Hc as [Hc|Hc]; [by apply Hin|].
    apply list_elem_of_singleton in Hc as ->. split.
    + intros He. assert (Hvc : v ∈ comp) by (apply Hmono; by apply elem_of_singleton).
      rewrite He in Hvc. by apply elem_of_empty in Hvc.
    + intros z Hz. by apply HcompF.
  - intros i j c d z Hi Hj Hzc Hzd.
    apply lookup_app_Some in Hi as [Hi|[Hil Hi]];
      apply lookup_app_Some in Hj as [Hj|[Hjl Hj]].
    + by apply (Hdisj i j c d z).
    + exfalso. apply list_lookup_singleton_Some in Hj as [_ <-].
      apply (proj2 (HcompF z Hzd)), Hcover. exists c. split; [|done].
      by eapply list_elem_of_lookup_2.
    + exfalso. apply list_lookup_singleton_Some in Hi as [_ <-].
      apply (proj2 (HcompF z Hzc)), Hcover. exists d. split; [|done].
      by eapply list_elem_of_lookup_2.
    + apply list_lookup_singleton_Some in Hi as [Hi _].
      apply list_lookup_singleton_Some in Hj as [Hj _]. lia.
Qed.

Lemma connected_components_partition (comps : list (gset Coord)) :
  connected_components g F = Ok comps ->
  (forall c, c ∈ comps -> c <> ∅ /\ forall z, z ∈ c -> z ∈ F) /\
  pairwise_disjoint comps.
Proof.
  intros Hcc. unfold connected_components in Hcc.
  apply (components_loop_partition _ _ _ _ _ Hcc).
  - intros v Hv. by apply elem_of_elements.
  - intros z. split; [intros Hz; by apply elem_of_empty in Hz|].
    intros (c & Hc & _). by apply elem_of_nil in Hc.
  - intros c Hc. by apply elem_of_nil in Hc.
  - intros i j c d v Hi. by rewrite lookup_nil in Hi.
Qed.
End Partition.

(** The frontier, its graph and its components on a well-formed board. *)
Lemma frontier_components (b : Board) :
  wf_board b ->
  exists st F cc comps,
    state_for_agent b = Ok st /\ view_of b st /\
    build_frontier b st (numbers st) ∅ [] = Ok (F, cc) /\
    connected_components (build_adj cc) F = Ok comps /\
    (forall z, z ∈ F <-> exists cell, cell ∈ numbered b /\ z ∈ cov_nbrs b cell) /\
    (forall cell, cell ∈ numbered b -> cov_nbrs b cell <> [] ->
       (cell, cov_nbrs b cell) ∈ cc) /\
    (forall c, c ∈ comps -> closed_under (build_adj cc) c) /\
    (forall v, v ∈ F -> exists c, c ∈ comps /\ v ∈ c) /\
    (forall c, c ∈ comps -> c <> ∅ /\ forall z, z ∈ c -> z ∈ F) /\
    pairwise_disjoint comps.
Proof.
  intros Hwf.
  destruct (state_for_agent_spec b Hwf) as (st & Hst & Hnum & Hcov & Hflg).
  assert (Hv : view_of b st) by (by constructor).
  destruct (build_frontier_spec b st (numbered b) Hv ltac:(done) ∅ [])
    as (F & cc & Hbf & HF & Hcc & Hfrom & _ & Hhas).
  { intros item Hi. by apply elem_of_nil in Hi. }
  assert (Hin : forall x y, y ∈ adj_of (build_adj cc) x -> y ∈ F).
  { intros x y Hxy. apply build_adj_spec in Hxy as (item & Hi & _ & Hy).
    apply HF. right. exists item.1. split.
    - destruct (Hfrom item Hi) as [Hn|?]; [by apply elem_of_nil in Hn | done].
    - by rewrite <- (Hcc item Hi). }
  destruct (connected_components_spec (build_adj cc) F (build_adj_sym cc) Hin)
    as (comps & Hcomps & Hclosed & Hcover).
  destruct (connected_components_partition (build_adj cc) F Hin comps Hcomps)
    as (Hsub & Hdisj).
  exists st, F, cc, comps. rewrite Hnum. split_and!; try done.
  intros z. rewrite HF. split; [|tauto].
  intros [Hz|?]; [by apply elem_of_empty in Hz | done].
Qed.

(** X17.  The frontier that [Phase2Agent.choose_action] builds is the
    set of covered cells next to a revealed, unflagged cell, and the
    connected components split it: no component is empty, every cell of a
    component is a frontier cell, and every frontier cell lies in exactly
    one component. *)
Theorem components_split_the_frontier (b : Board) :
  wf_board b ->
  exists st F cc comps,
    state_for_agent b = Ok st /\
    build_frontier b st (numbers st) ∅ [] = Ok (F, cc) /\
    connected_components (build_adj cc) F = Ok comps /\
    (forall z, z ∈ F <->
       z ∈ covered st /\
       exists cell, cell ∈ (numbers st).*1 /\ z ∈ neighbors b cell) /\
    (forall c, c ∈ comps -> c <> ∅) /\
    (forall z, z ∈ F <-> exists c, c ∈ comps /\ z ∈ c) /\
    (forall i j c d z, comps !! i = Some c -> comps !! j = Some d ->
       z ∈ c -> z ∈ d -> i = j).
Proof.
  intros Hwf.
  destruct (frontier_components b Hwf)
    as (st & F & cc & comps & Hst & Hv & Hbf & Hcc & HF & _ & _ & Hcover
        & Hsub & Hdisj).
  exists st, F, cc, comps. split_and!; try done.
  - assert (Hkeys : (numbers st).*1 = numbered b).
    { rewrite (view_numbers b st Hv), <- list_fmap_compose. apply list_fmap_id. }
    intros z. rewrite HF, Hkeys, (view_covered b st Hv). unfold cov_nbrs. split.
    + intros (cell & Hcell & Hz). apply list_elem_of_filter in Hz as [Hc Hz].
      split; [|by exists cell]. split; [by apply neighbors_on_board in Hz | done].
    + intros [[_ Hc] (cell & Hcell & Hz)]. exists cell. split; [done|].
      by apply list_elem_of_filter.
  - intros c Hc. by destruct (Hsub c Hc).
  - intros z. split; [apply Hcover|]. intros (c & Hc & Hz).
    by apply (proj2 (Hsub c Hc)).
Qed.

Lemma components_split_the_frontier_witness :
  exists st F cc comps,
    state_for_agent line7_mid_open = Ok st /\
    build_frontier line7_mid_open st (numbers st) ∅ [] = Ok (F, cc) /\
    connected_components (build_adj cc) F = Ok comps /\
    forall z, z ∈ F <-> exists c, c ∈ comps /\ z ∈ c.
Proof.
  assert (Hwf : wf_board line7_mid_open)
    by exact (sound_wf _ (@agent_play_sound counter_random _ line7_mid_open_play)).
  destruct (components_split_the_frontier line7_mid_open Hwf)
    as (st & F & cc & comps & H1 & H2 & H3 & _ & _ & H4 & _).
  exists st, F, cc, comps. split; [exact H1|]. split; [exact H2|].
  split; [exact H3 | exact H4].
Defined.

(** ** The constraints of a component and the mines of the board *)

Lemma local_constraint_kept (comp : gset Coord) (cov flg : list Coord) (n : Z)
    (c : Constraint) :
  local_constraint_of comp cov flg n = lc_kept c ->
  (forall v, v ∈ cov -> v ∈ comp) /\ c = (list_to_set cov, n - len flg).
Proof.
  unfold local_constraint_of. case_decide; [done|].
  destruct (filter (fun v => v ∉ comp) cov) as [|w l] eqn:Hout; [|done].
  intros Heq. simplify_eq.
  assert (Hall : forall v, v ∈ cov -> v ∈ comp).
  { intros v Hv. destruct (decide (v ∈ comp)) as [|Hn]; [done|].
    assert (Hin : v ∈ filter (fun v => v ∉ comp) cov)
      by (by apply list_elem_of_filter).
    rewrite Hout in Hin. by apply elem_of_nil in Hin. }
  split; [done|]. by rewrite filter_every.
Qed.

Lemma local_constraints_loop_spec (b : Board) (st : AgentView)
    (comp : gset Coord) (items : list Coord) :
  view_of b st -> items ⊆ numbered b ->
  forall acc, exists lcs,
    local_constraints_loop b st comp ((fun p => (p, adjz b p)) <$> items) acc
    = Ok lcs /\
    forall c, c ∈ lcs ->
      c ∈ acc \/
      exists cell, cell ∈ items /\ (forall v, v ∈ cov_nbrs b cell -> v ∈ comp) /\
        c = (list_to_set (cov_nbrs b cell),
             adjz b cell - len (flg_nbrs b cell)).
Proof.
  intros Hv. induction items as [|cell items IH]; intros Hsub acc; simpl.
  { exists acc. split; [done|]. tauto. }
  assert (Hsub' : items ⊆ numbered b).
  { intros x Hx. apply Hsub. by apply list_elem_of_further. }
  rewrite (neighbor_buckets_spec b st cell Hv) by apply Hsub, list_elem_of_here.
  simpl.
  assert (Hskip : exists lcs,
    local_constraints_loop b st comp ((fun p => (p, adjz b p)) <$> items) acc
    = Ok lcs /\
    forall c, c ∈ lcs ->
      c ∈ acc \/
      exists cell0, cell0 ∈ cell :: items /\
        (forall v, v ∈ cov_nbrs b cell0 -> v ∈ comp) /\
        c = (list_to_set (cov_nbrs b cell0),
             adjz b cell0 - len (flg_nbrs b cell0))).
  { destruct (IH Hsub' acc) as (lcs & Heq & Hl). exists lcs. split; [done|].
    intros c Hc. destruct (Hl c Hc) as [?|(cell0 & ? & ?)]; [by left|].
    right. exists cell0. split; [by apply list_elem_of_further | done]. }
  destruct (local_constraint_of comp (cov_nbrs b cell) (flg_nbrs b cell)
              (adjz b cell)) as [| |c0] eqn:Hlc; [done | done |].
  apply local_constraint_kept in Hlc as [Hall ->].
  destruct (IH Hsub' (acc ++ [(list_to_set (cov_nbrs b cell),
                               adjz b cell - len (flg_nbrs b cell))]))
    as (lcs & Heq & Hl).
  exists lcs. split; [done|]. intros c Hc.
  destruct (Hl c Hc) as [Hin|(cell0 & ? & ?)].
  - apply elem_of_app in Hin as [?|Hin]; [by left|].
    apply list_elem_of_singleton in Hin as ->. right. exists cell.
    split; [apply list_elem_of_here | done].
  - right. exists cell0. split; [by apply list_elem_of_further | done].
Qed.

Lemma truth_lookup (b : Board) (vars : list Coord) (v : Coord) :
  truth b vars !! v = if decide (v ∈ vars) then Some (mineb b v) else None.
Proof.
  unfold truth. induction vars as [|a vars IH].
  { rewrite fmap_nil, list_to_map_nil, lookup_empty.
    destruct (decide (v ∈ [])) as [Hin|]; [by apply elem_of_nil in Hin | done]. }
  rewrite fmap_cons, list_to_map_cons.
  destruct (decide (a = v)) as [->|Hne].
  - rewrite lookup_insert_eq.
    destruct (decide (v ∈ v :: vars)) as [|Hn]; [done|].
    exfalso. apply Hn, list_elem_of_here.
  - rewrite lookup_insert_ne by done. rewrite IH.
    destruct (decide (v ∈ vars)) as [Hin|Hin];
      destruct (decide (v ∈ a :: vars)) as [Hin'|Hin']; try done.
    + exfalso. apply Hin'. by apply list_elem_of_further.
    + exfalso. apply elem_of_cons in Hin' as [?|?]; congruence.
Qed.

Lemma truth_in_all (b : Board) (vars : list Coord) :
  truth b vars ∈ all_assignments vars.
Proof.
  induction vars as [|a vars IH]; simpl; [apply list_elem_of_here|].
  apply list_elem_of_bind. exists (truth b vars). split; [|done].
  unfold truth. simpl. destruct (mineb b a);
    [apply list_elem_of_here | apply list_elem_of_further, list_elem_of_here].
Qed.

Lemma count_perm {A : Type} (f : A -> bool) (l1 l2 : list A) :
  l1 ≡ₚ l2 -> count f l1 = count f l2.
Proof. intros Hp. unfold count. by rewrite Hp. Qed.

(** On a board the agent can rely on, the mines are a model of the
    constraints of every component. *)
Lemma truth_is_model (b : Board) (st : AgentView) (comp : gset Coord)
    (lcs : list Constraint) :
  sound_board b -> _game_over b = false -> view_of b st ->
  build_local_constraints b st comp = Ok lcs ->
  is_model lcs (truth b (elements comp)) = true.
Proof.
  intros Hs Hgo Hv Hlcs. unfold build_local_constraints in Hlcs.
  rewrite (view_numbers b st Hv) in Hlcs.
  destruct (local_constraints_loop_spec b st comp (numbered b) Hv ltac:(done) [])
    as (lcs' & Heq & Hchar).
  rewrite Heq in Hlcs. simplify_eq.
  unfold is_model. apply forallb_forall. intros c Hc.
  apply list_elem_of_In in Hc.
  destruct (Hchar c Hc) as [Hnil|(cell & Hcell & Hall & ->)];
    [by apply elem_of_nil in Hnil|].
  simpl. apply Z.eqb_eq. unfold mines_in.
  assert (Hnd : NoDup (cov_nbrs b cell)).
  { unfold cov_nbrs. apply NoDup_filter, NoDup_neighbors. }
  rewrite (count_perm _ _ (cov_nbrs b cell)) by (by apply elements_list_to_set).
  rewrite <- (covered_mines_around b cell Hs Hgo Hcell).
  apply count_ext. intros v Hvc. unfold mine_in. rewrite truth_lookup.
  rewrite decide_True; [done|]. apply elem_of_elements. by apply Hall.
Qed.

Lemma count_and_eq {A : Type} (f g : A -> bool) (l : list A) :
  count (fun x => f x && g x) l = count f l ->
  forall x, x ∈ l -> f x = true -> g x = true.
Proof.
  induction l as [|y l IH]; intros Heq x Hx Hf; [by apply elem_of_nil in Hx|].
  rewrite !count_cons in Heq.
  pose proof (count_mono (fun x => f x && g x) f l) as Hle.
  assert (Hle' : count (fun x => f x && g x) l <= count f l).
  { apply Hle. intros z Hz. by apply andb_true_iff in Hz as [? _]. }
  apply elem_of_cons in Hx as [->|Hx].
  - rewrite Hf in Heq. simpl in Heq. destruct (g y); [done | lia].
  - apply IH; try done. destruct (f y), (g y); simpl in Heq; lia.
Qed.

(** A count that says "never a mine" or "always a mine" over the models
    of a component is right about the board. *)
Lemma certain_counts_sound (b : Board) (st : AgentView) (comp : gset Coord)
    (lcs : list Constraint) (v : Coord) :
  sound_board b -> _game_over b = false -> view_of b st ->
  build_local_constraints b st comp = Ok lcs -> v ∈ comp ->
  (brute_mines lcs (elements comp) v = 0 -> mineb b v = false) /\
  (brute_mines lcs (elements comp) v = brute_total lcs (elements comp) ->
   mineb b v = true).
Proof.
  intros Hs Hgo Hv Hlcs Hin.
  pose proof (truth_is_model b st comp lcs Hs Hgo Hv Hlcs) as Hmodel.
  pose proof (truth_in_all b (elements comp)) as Hall.
  assert (Hmine : mine_in (truth b (elements comp)) v = mineb b v).
  { unfold mine_in. rewrite truth_lookup.
    by rewrite decide_True by (by apply elem_of_elements). }
  unfold brute_mines, brute_total. split.
  - intros Hz. rewrite count_zero in Hz. specialize (Hz _ Hall).
    rewrite Hmodel, Hmine in Hz. done.
  - intros Heq. rewrite <- Hmine.
    by apply (count_and_eq _ _ _ Heq (truth b (elements comp))).
Qed.

(** ** The certainties of the enumeration *)

Lemma prob_zero (mine_count total : Z) :
  Qeq_bool (prob mine_count total) 0 = true -> mine_count = 0.
Proof.
  intros Hq. apply Qeq_bool_iff in Hq. unfold prob, Qeq in Hq. simpl in Hq. lia.
Qed.

Lemma prob_one (mine_count total : Z) :
  0 < total -> Qeq_bool (prob mine_count total) 1 = true -> mine_count = total.
Proof.
  intros Ht Hq. apply Qeq_bool_iff in Hq. unfold prob, Qeq in Hq. simpl in Hq.
  rewrite Z2Pos.id in Hq by done. lia.
Qed.

Section Rating.
Variable b : Board.
Variable cs : gmap Coord (Z * Z).

Lemma rate_var_sound (s : Search) (v : Coord) :
  counted b cs v -> search_sound b s ->
  exists s', rate_var cs s v = Ok s' /\ search_sound b s'.
Proof.
  intros (mc & t & Hcs & Ht & H0 & H1 & Hon & Hcov) [Hf Hs Hb].
  unfold rate_var, map_get. rewrite Hcs. simpl.
  eexists. split; [reflexivity|].
  destruct (Qeq_bool (prob mc t) 0) eqn:E0.
  { apply prob_zero in E0.
    destruct (negb _); constructor; simpl; intros w Hw; simplify_eq; eauto. }
  destruct (Qeq_bool (prob mc t) 1) eqn:E1.
  { apply prob_one in E1; [|done].
    destruct (negb _); constructor; simpl; intros w Hw; simplify_eq; eauto. }
  destruct (negb _); constructor; simpl; intros w Hw; simplify_eq; eauto.
Qed.

Lemma rate_vars_sound (vars : list Coord) :
  forall s, (forall v, v ∈ vars -> counted b cs v) -> search_sound b s ->
  exists s', rate_vars cs s vars = Ok s' /\ search_sound b s'.
Proof.
  induction vars as [|v vars IH]; intros s Hvars Hs; simpl; [eauto|].
  destruct (rate_var_sound s v) as (s1 & -> & Hs1);
    [apply Hvars, list_elem_of_here | done |].
  simpl. apply IH; [|done]. intros w Hw. apply Hvars. by apply list_elem_of_further.
Qed.
End Rating.

Lemma build_local_constraints_total (b : Board) (st : AgentView)
    (comp : gset Coord) :
  view_of b st ->
  exists lcs, build_local_constraints b st comp = Ok lcs /\
    forall c, c ∈ lcs -> forall v, v ∈ c.1 -> v ∈ comp.
Proof.
  intros Hv. unfold build_local_constraints. rewrite (view_numbers b st Hv).
  destruct (local_constraints_loop_spec b st comp (numbered b) Hv ltac:(done) [])
    as (lcs & Heq & Hchar).
  exists lcs. split; [done|]. intros c Hc v Hvc.
  destruct (Hchar c Hc) as [Hnil|(cell & _ & Hall & ->)];
    [by apply elem_of_nil in Hnil|].
  simpl in Hvc. apply elem_of_list_to_set in Hvc. by apply Hall.
Qed.

Lemma eval_components_sound (max_component_size : Z) (b : Board)
    (st : AgentView) (comps : list (gset Coord)) :
  sound_board b -> _game_over b = false -> view_of b st ->
  (forall c, c ∈ comps -> forall z, z ∈ c -> on_board b z /\ covb b z = true) ->
  forall s, search_sound b s ->
  exists s', eval_components max_component_size b st comps s = Ok s' /\
    search_sound b s'.
Proof.
  intros Hs Hgo Hv. induction comps as [|comp comps IH]; intros Hcov s Hss;
    simpl; [eauto|].
  assert (Hcov' : forall c, c ∈ comps ->
            forall z, z ∈ c -> on_board b z /\ covb b z = true).
  { intros c Hc. apply Hcov. by apply list_elem_of_further. }
  destruct (Z.of_nat (size comp) >? max_component_size); [by apply IH|].
  destruct (build_local_constraints_total b st comp Hv) as (lcs & Hlcs & Hvars).
  rewrite Hlcs. simpl. destruct lcs as [|c0 lcs0]; [by apply IH|].
  destruct (enumerate_spec (c0 :: lcs0) (elements comp) (NoDup_elements comp))
    as (e & -> & _ & Htot & Hcounts).
  { intros c Hc v Hvc. apply elem_of_elements. by apply (Hvars c). }
  simpl. destruct (total_models e =? 0) eqn:Hz; [by apply IH|].
  apply Z.eqb_neq in Hz.
  destruct (rate_vars_sound b (counts e) (elements comp) s) as (s1 & -> & Hs1);
    [|done|].
  { intros v Hvin. exists (brute_mines (c0 :: lcs0) (elements comp) v),
      (brute_total (c0 :: lcs0) (elements comp)).
    apply elem_of_elements in Hvin as Hvc.
    destruct (certain_counts_sound b st comp (c0 :: lcs0) v Hs Hgo Hv Hlcs Hvc)
      as [H0 H1].
    destruct (Hcov comp (list_elem_of_here _ _) v Hvc) as [Hon Hc].
    split; [by apply Hcounts|]. split; [|done].
    pose proof (count_bounds (is_model (c0 :: lcs0))
                  (all_assignments (elements comp))) as Hb.
    unfold brute_total in *. lia. }
  simpl. destruct (_ || _); [eauto | by apply IH].
Qed.

Section Phase2Sound.
Context `{PyRandom}.
Variable max_component_size : Z.

(** [Phase2Agent.choose_action] on a board the agent can rely on: it
    returns; its action is about a covered cell; a flag is on a mine and
    a reveal it calls logic is on a safe cell; it gives up only when no
    cell is covered. *)
Lemma Phase2_choose_action_sound (ag : Agent) (glob : Rng) (b : Board) :
  sound_board b -> _game_over b = false ->
  exists r ag' glob',
    Phase2_choose_action max_component_size ag glob b = Ok (r, ag', glob') /\
    match r with
    | Some a =>
        on_board b (target a) /\ covb b (target a) = true /\
        (forall p, a = act_flag p -> mineb b p = true) /\
        (forall p, a = act_reveal p -> _last_move_was_logic ag' = true ->
           mineb b p = false)
    | None => forall p, on_board b p -> covb b p = false
    end.
Proof.
  intros Hs Hgo. pose proof (sound_wf b Hs) as Hwf.
  destruct (frontier_components b Hwf)
    as (st & F & cc & comps & Hst & Hv & Hbf & Hcc & HF & _ & _ & _ & Hsub & _).
  destruct (Phase1_choose_action_spec ag b Hwf) as (st' & Hst' & _ & Hcases).
  rewrite Hst in Hst'. simplify_eq.
  unfold Phase2_choose_action.
  destruct (sp_choice mine_rule b) as [q|] eqn:Hmine.
  { rewrite Hcases. simpl. eexists _, _, _. split; [reflexivity|]. simpl.
    destruct (mine_rule_sound b q Hs Hgo Hmine) as (? & ? & ?).
    split_and!; try done; intros p Hp; by simplify_eq. }
  destruct (sp_choice safe_rule b) as [q|] eqn:Hsafe.
  { rewrite Hcases. simpl. eexists _, _, _. split; [reflexivity|]. simpl.
    destruct (safe_rule_sound b q Hs Hgo Hsafe) as (? & ? & ?).
    split_and!; try done; intros p Hp; by simplify_eq. }
  assert (Hcovd : forall c, c ∈ covered st' -> on_board b c /\ covb b c = true).
  { intros c Hc. by apply (view_covered b st' Hv). }
  destruct (decide (covered st' = ∅)) as [Hemp|Hne].
  { rewrite Hcases. simpl. eexists _, _, _. split; [reflexivity|]. simpl.
    intros p Hp. destruct (covb b p) eqn:Hc; [|done].
    assert (Hin : p ∈ covered st') by (by apply (view_covered b st' Hv)).
    rewrite Hemp in Hin. by apply elem_of_empty in Hin. }
  destruct Hcases as (q & g & _ & _ & ->). simpl. rewrite Hst. simpl.
  rewrite decide_False by done. rewrite Hbf. simpl.
  assert (Hguess : exists c glob',
    choice glob (elements (covered st')) = Ok (c, glob') /\
    on_board b c /\ covb b c = true).
  { destruct (choice_elem glob (elements (covered st'))) as (c & glob' & Hc & Hin).
    - intros Hn. apply Hne. apply leibniz_equiv. by apply elements_empty_inv.
    - exists c, glob'. split; [done|]. apply Hcovd. by apply elem_of_elements. }
  destruct Hguess as (c & glob' & Hch & Hcon & Hccov).
  destruct (decide (F = ∅)) as [HFe|HFne].
  { rewrite Hch. simpl. eexists _, _, _. split; [reflexivity|]. simpl.
    split_and!; try done; intros p Hp; by simplify_eq. }
  rewrite Hcc. simpl.
  assert (HFcov : forall z, z ∈ F -> on_board b z /\ covb b z = true).
  { intros z Hz. apply HF in Hz as (cell & _ & Hz). unfold cov_nbrs in Hz.
    apply list_elem_of_filter in Hz as [Hc Hz].
    split; [by apply neighbors_on_board in Hz | done]. }
  destruct (eval_components_sound max_component_size b st' comps Hs Hgo Hv)
    with (s := mkSearch None (11 # 10) None None) as (s & -> & [Hsf Hss Hsb]).
  { intros c0 Hc0 z Hz. apply HFcov. by apply (proj2 (Hsub c0 Hc0)). }
  { constructor; simpl; intros v Hv'; discriminate. }
  simpl. destruct (certain_flag s) as [cf|].
  { eexists _, _, _. split; [reflexivity|]. simpl.
    destruct (Hsf cf eq_refl) as (? & ? & ?).
    split_and!; try done; intros p Hp; by simplify_eq. }
  destruct (certain_safe s) as [csf|].
  { eexists _, _, _. split; [reflexivity|]. simpl.
    destruct (Hss csf eq_refl) as (? & ? & ?).
    split_and!; try done; intros p Hp; by simplify_eq. }
  destruct (best_cell s) as [bc|].
  { eexists _, _, _. split; [reflexivity|]. simpl.
    destruct (Hsb bc eq_refl) as (? & ?).
    split_and!; try done; intros p Hp; by simplify_eq. }
  rewrite Hch. simpl. eexists _, _, _. split; [reflexivity|]. simpl.
  split_and!; try done; intros p Hp; by simplify_eq.
Qed.

Lemma agent2_play_sound (b : Board) :
  agent2_play max_component_size b -> sound_board b.
Proof.
  induction 1 as [R C M rng b Hinit
                 | b b' p alive _ IH Hp Hrev
                 | b b' ag ag' glob glob' p _ IH Hgo Hact Hflag].
  - exact (sound_board_init R C M rng b Hinit).
  - exact (sound_board_reveal b b' p alive IH Hp Hrev).
  - destruct (Phase2_choose_action_sound ag glob b IH Hgo)
      as (r & ag1 & glob1 & Heq & Hr).
    rewrite Heq in Hact. simplify_eq. simpl in Hr.
    destruct Hr as (Hp & _ & Hm & _).
    by apply (sound_board_flag_mine b b' p IH Hp (Hm p eq_refl)).
Qed.

(** X18.  On every board of a game played by [Phase2Agent] that is still
    in progress, [choose_action] raises nothing; the cell of its action
    is a covered cell of the grid; a cell it flags is a mine, whether the
    single-point rule or the enumeration found it, and a cell it reveals
    as a logic move is not a mine.  It returns [None] only when no cell
    is covered. *)
Theorem Phase2_actions_are_sound (ag : Agent) (glob : Rng) (b : Board) :
  agent2_play max_component_size b -> game_over b = false ->
  exists r ag' glob',
    Phase2_choose_action max_component_size ag glob b = Ok (r, ag', glob') /\
    match r with
    | Some (act_flag p) =>
        in_bounds b p = true /\ revealed b p = Ok false /\
        flagged b p = Ok false /\ is_mine b p = Ok true
    | Some (act_reveal p) =>
        in_bounds b p = true /\ revealed b p = Ok false /\
        flagged b p = Ok false /\
        (_last_move_was_logic ag' = true -> is_mine b p = Ok false)
    | None => covered_cells b = Ok []
    end.
Proof.
  intros Hplay Hgo. pose proof (agent2_play_sound b Hplay) as Hs.
  pose proof (sound_wf b Hs) as Hwf.
  destruct (Phase2_choose_action_sound ag glob b Hs Hgo)
    as (r & ag' & glob' & Heq & Hr).
  exists r, ag', glob'. split; [done|].
  assert (Hread : forall p, on_board b p -> covb b p = true ->
    in_bounds b p = true /\ revealed b p = Ok false /\ flagged b p = Ok false).
  { intros p Hp Hc. split; [by apply in_bounds_spec|].
    rewrite (read_revealed b Hwf p Hp), (read_flagged b Hwf p Hp).
    unfold covb in Hc. by destruct (revb b p), (flgb b p). }
  destruct r as [[p|p]|]; simpl in Hr.
  - destruct Hr as (Hp & Hc & Hm & _). destruct (Hread p Hp Hc) as (? & ? & ?).
    split_and!; try done. by rewrite (read_mine b Hwf p Hp), (Hm p eq_refl).
  - destruct Hr as (Hp & Hc & _ & Hm). destruct (Hread p Hp Hc) as (? & ? & ?).
    split_and!; try done. intros Hl.
    by rewrite (read_mine b Hwf p Hp), (Hm p eq_refl Hl).
  - unfold covered_cells. rewrite (filter_res_total _ (covb b)).
    + f_equal. apply filter_none. intros p Hp. apply elem_of_all_cells in Hp.
      by rewrite (Hr p Hp).
    + intros p Hp. apply elem_of_all_cells in Hp. by apply read_covered.
Qed.
End Phase2Sound.

Lemma line7_mid_open_play2 : @agent2_play counter_random 14 line7_mid_open.
Proof.
  apply (@agent2_play_reveal counter_random 14 line7_mid line7_mid_open (0, 0) true).
  - apply (@agent2_play_init counter_random 14 1 7 1 3%nat). by vm_compute.
  - unfold on_board, inb. simpl. lia.
  - by vm_compute.
Qed.

Lemma Phase2_actions_are_sound_witness :
  exists r ag' glob',
    @Phase2_choose_action counter_random 14
      (@Phase2Agent_init counter_random 0) 0%nat line7_mid_open
    = Ok (r, ag', glob') /\
    match r with
    | Some (act_flag p) => is_mine line7_mid_open p = Ok true
    | Some (act_reveal p) =>
        _last_move_was_logic ag' = true -> is_mine line7_mid_open p = Ok false
    | None => covered_cells line7_mid_open = Ok []
    end.
Proof.
  destruct (@Phase2_actions_are_sound counter_random 14
              (@Phase2Agent_init counter_random 0) 0%nat line7_mid_open
              line7_mid_open_play2 eq_refl) as (r & ag' & glob' & H1 & H2).
  exists r, ag', glob'. split; [exact H1|].
  destruct r as [[p|p]|]; [exact (proj2 (proj2 (proj2 H2))) | | exact H2].
  exact (proj2 (proj2 (proj2 H2))).
Defined.

(** ** [Phase2Agent.play_game] *)

Section Phase2Game.
Context `{PyRandom}.
Variable max_component_size : Z.

Lemma Phase2_choose_sound (s : Agent * Rng) (b : Board) :
  sound_board b -> _game_over b = false ->
  exists r s', Phase2_choose max_component_size s b = Ok (r, s') /\
    match r with
    | Some a => on_board b (target a) /\ covb b (target a) = true /\
        (forall p, a = act_flag p -> mineb b p = true)
    | None => forall p, on_board b p -> covb b p = false
    end.
Proof.
  intros Hs Hgo.
  destruct (Phase2_choose_action_sound max_component_size s.1 s.2 b Hs Hgo)
    as (r & ag' & glob' & Heq & Hr).
  exists r, (ag', glob'). unfold Phase2_choose. rewrite Heq. simpl.
  split; [done|]. destruct r as [a|]; [|done]. tauto.
Qed.

(** X19.  [play_game] of a [Phase2Agent] on a new board with at least
    one row and one column raises nothing and always ends with the game
    over, after fewer moves than the grid has cells.  The flags it
    counted are the flags on the final board, all of them on mines. *)
Theorem Phase2_play_game_ends_the_game (R C M : Z) (rng : Rng) (b : Board)
    (ag : Agent) (glob : Rng) :
  0 < R -> 0 < C -> Board_init R C M rng = Ok b ->
  exists out st' b',
    (forall fuel, (Z.to_nat (R * C) <= fuel)%nat ->
       Phase2_play_game max_component_size fuel ag glob b = Ok (out, st', b')) /\
    game_over b' = true /\
    (forall p, is_mine b' p = is_mine b p) /\
    (exists fl, filter_res (flagged b') (all_cells R C) = Ok fl /\
       flags_set out = len fl /\ forall p, p ∈ fl -> is_mine b' p = Ok true) /\
    0 <= flags_set out <= logic_moves out /\ 0 <= guess_moves out /\
    logic_moves out + guess_moves out < R * C.
Proof.
  intros HR HC Hinit.
  destruct (play_game_of_finishes (Phase2_choose max_component_size)
              (fun s => _last_move_was_logic s.1)
              Phase2_choose_sound R C M rng b (ag, glob) HR HC Hinit)
    as (out & st' & b' & Hrun & Hs' & Hinv' & Hgo' & Er' & Ec' & Emi'
        & Hf & Hl & Hg & Hm).
  exists out, st', b'. split; [exact Hrun|].
  split; [done|]. split; [intros p; unfold is_mine; by rewrite Emi'|].
  split; [|done].
  destruct (flag_count_read b' (sound_wf b' Hs')) as (fl & Hfl & Hlen & Hin).
  rewrite Er', Ec' in Hfl. exists fl. split; [done|]. split; [congruence|].
  intros p Hp. destruct (Hin p Hp) as [Hon Hflg].
  rewrite (read_mine b' (sound_wf b' Hs') p Hon). f_equal.
  by apply (sound_flags b' Hs').
Qed.
End Phase2Game.

Lemma Phase2_play_game_ends_the_game_witness :
  exists out st' b',
    @Phase2_play_game counter_random 14 7
      (@Phase2Agent_init counter_random 0) 0%nat line7
    = Ok (out, st', b') /\ game_over b' = true.
Proof.
  destruct (@Phase2_play_game_ends_the_game counter_random 14 1 7 1 6%nat line7
              (@Phase2Agent_init counter_random 0) 0%nat
              ltac:(lia) ltac:(lia) line7_init)
    as (out & st' & b' & H1 & H2 & _).
  exists out, st', b'. split; [|exact H2].
  apply H1. simpl. lia.
Defined.

(** * [run_experiments] *)

Lemma truediv_unit (a b : Z) :
  0 <= a <= b -> 0 < b ->
  exists q, truediv a b = Some q /\ (0 <= q)%Q /\ (q <= 1)%Q.
Proof.
  intros Ha Hb. unfold truediv. destruct (b =? 0) eqn:Hz; [lia|].
  eexists. split; [reflexivity|].
  destruct b as [|p|p]; try lia.
  unfold Qdiv, Qmult, Qinv, Qle, inject_Z. simpl. lia.
Qed.

Lemma truediv_nonneg (a b : Z) :
  0 <= a -> 0 < b -> exists q, truediv a b = Some q /\ (0 <= q)%Q.
Proof.
  intros Ha Hb. unfold truediv. destruct (b =? 0) eqn:Hz; [lia|].
  eexists. split; [reflexivity|].
  destruct b as [|p|p]; try lia.
  unfold Qdiv, Qmult, Qinv, Qle, inject_Z. simpl. lia.
Qed.

Section Experiments.
Context `{PyRandint}.
Variables (R C M : Z) (phase1 : bool).
Hypothesis HR : 0 < R.
Hypothesis HC : 0 < C.
Hypothesis HM : 1 <= M < R * C.

(** One game on a valid configuration: it is played to its end. *)
Lemma one_game_spec (rng glob : Rng) (w tl tg tf : Z) :
  exists rng' glob' w' tl' tg' tf',
    one_game R C M phase1 (rng, glob, (w, tl, tg, tf))
    = Ok (rng', glob', (w', tl', tg', tf')) /\
    w <= w' <= w + 1 /\ 0 <= tf' - tf <= tl' - tl /\ 0 <= tg' - tg /\
    (tl' - tl) + (tg' - tg) < R * C.
Proof.
  unfold one_game. destruct (randint rng 0 (10 ^ 9)) as [s1 rng1].
  destruct (Board_init_spec R C M (Random s1) HM) as (b & Hinit & _).
  rewrite Hinit. simpl. destruct (randint rng1 0 (10 ^ 9)) as [s2 rng2].
  destruct phase1.
  - destruct (play_game_of_finishes Phase1_choose_action _last_move_was_logic
                Phase1_choose_action_sound R C M (Random s1) b
                (Phase1Agent_init s2) HR HC Hinit)
      as (out & ag' & b' & Hrun & _ & _ & _ & _ & _ & _ & _ & Hl & Hg & Hm).
    rewrite play_game_dispatch, (Hrun _ (le_n _)). simpl.
    eexists _, _, _, _, _, _. split; [reflexivity|].
    destruct (won b'); lia.
  - destruct (play_game_of_finishes (Phase2_choose 14)
                (fun s => _last_move_was_logic s.1)
                (Phase2_choose_sound 14) R C M (Random s1) b
                (Phase2Agent_init s2, glob) HR HC Hinit)
      as (out & st' & b' & Hrun & _ & _ & _ & _ & _ & _ & _ & Hl & Hg & Hm).
    unfold Phase2_play_game. rewrite (Hrun _ (le_n _)). simpl.
    eexists _, _, _, _, _, _. split; [reflexivity|].
    destruct (won b'); lia.
Qed.

Lemma games_loop_spec (gs : list Z) :
  forall rng glob w tl tg tf,
  exists rng' glob' w' tl' tg' tf',
    games_loop R C M phase1 gs (rng, glob, (w, tl, tg, tf))
    = Ok (rng', glob', (w', tl', tg', tf')) /\
    w <= w' <= w + len gs /\ 0 <= tf' - tf <= tl' - tl /\ 0 <= tg' - tg /\
    (tl' - tl) + (tg' - tg) <= len gs * (R * C - 1).
Proof.
  induction gs as [|g gs IH]; intros rng glob w tl tg tf; cbn [games_loop].
  { eexists _, _, _, _, _, _. split; [reflexivity|]. unfold len. simpl. lia. }
  destruct (one_game_spec rng glob w tl tg tf)
    as (rng1 & glob1 & w1 & tl1 & tg1 & tf1 & -> & Hw & Hf & Hg & Hm).
  cbn [mbind res_bind]. destruct (IH rng1 glob1 w1 tl1 tg1 tf1)
    as (rng2 & glob2 & w2 & tl2 & tg2 & tf2 & -> & Hw2 & Hf2 & Hg2 & Hm2).
  eexists _, _, _, _, _, _. split; [reflexivity|].
  unfold len in *. simpl length. rewrite Nat2Z.inj_succ. nia.
Qed.
End Experiments.

Lemma len_range (n : Z) : len (range n) = Z.max 0 n.
Proof. unfold len, range. rewrite length_fmap, length_seq. lia. Qed.

Section RunExperiments.
Context `{PyRandint}.

(** X20.  On a grid with at least one row and one column, a valid mine
    count and at least one game, [run_experiments] raises nothing, for
    either agent: every game is played to its end, and the dictionary it
    returns has [0 <= wins <= games], a win rate and a logic ratio between
    0 and 1, and no negative average. *)
Theorem run_experiments_returns (rows cols mines n : Z) (agent_kind : string)
    (rng glob : Rng) :
  0 < rows -> 0 < cols -> 1 <= mines < rows * cols -> 0 < n ->
  exists e, run_experiments rows cols mines n agent_kind rng glob = Returned e /\
    games e = n /\ 0 <= wins e <= n /\
    truediv (wins e) n = Some (win_rate e) /\
    (0 <= win_rate e)%Q /\ (win_rate e <= 1)%Q /\
    (0 <= logic_ratio e)%Q /\ (logic_ratio e <= 1)%Q /\
    (0 <= avg_guess_moves e)%Q /\ (0 <= avg_flags e)%Q.
Proof.
  intros HR HC HM Hn. unfold run_experiments.
  destruct (games_loop_spec rows cols mines
              (bool_decide (lower agent_kind = "phase1")) HR HC HM
              (range n) rng glob 0 0 0 0)
    as (rng' & glob' & w & tl & tg & tf & -> & Hw & Hf & Hg & _).
  rewrite len_range in Hw.
  destruct (truediv_unit w n) as (q1 & Hq1 & Hq1a & Hq1b); [lia | lia |].
  destruct (truediv_unit tl (Z.max 1 (tl + tg))) as (q2 & Hq2 & Hq2a & Hq2b);
    [lia | lia |].
  destruct (truediv_nonneg tg n) as (q3 & Hq3 & Hq3a); [lia | lia |].
  destruct (truediv_nonneg tf n) as (q4 & Hq4 & Hq4a); [lia | lia |].
  rewrite Hq1, Hq2, Hq3, Hq4. eexists. split; [reflexivity|]. simpl.
  split_and!; try done; lia.
Qed.

(** X21.  With [games = 0] [run_experiments] raises ZeroDivisionError,
    whatever the other arguments, since no board is built; with at least
    one game and a mine count outside [1 <= mines < rows * cols] it
    raises the AssertionError of [Board]; with at least one game on a
    size that passes the assertion without a cell it raises the
    IndexError of the first click. *)
Theorem run_experiments_raises (rows cols mines n : Z) (agent_kind : string)
    (rng glob : Rng) :
  (n = 0 ->
   run_experiments rows cols mines n agent_kind rng glob = ZeroDivisionError) /\
  (0 < n -> ~ (1 <= mines < rows * cols) ->
   run_experiments rows cols mines n agent_kind rng glob = Raised AssertionError) /\
  (0 < n -> 1 <= mines < rows * cols -> ~ (0 < rows /\ 0 < cols) ->
   run_experiments rows cols mines n agent_kind rng glob = Raised IndexError).
Proof.
  split; [|split].
  - intros ->. reflexivity.
  - intros Hn HM. unfold run_experiments, range.
    destruct (Z.to_nat n) as [|k] eqn:Hk; [lia|]. simpl.
    unfold one_game. destruct (randint rng 0 (10 ^ 9)) as [s1 rng1].
    unfold Board_init.
    destruct ((1 <=? mines) && (mines <? rows * cols)) eqn:Ha; [lia|]. done.
  - intros Hn HM Hneg. unfold run_experiments, range.
    destruct (Z.to_nat n) as [|k] eqn:Hk; [lia|]. simpl.
    unfold one_game. destruct (randint rng 0 (10 ^ 9)) as [s1 rng1].
    destruct (Board_init_spec rows cols mines (Random s1) HM)
      as (b & Hinit & Hwf & Er & Ec & _ & Hgo & _).
    rewrite Hinit. simpl. destruct (randint rng1 0 (10 ^ 9)) as [s2 rng2].
    assert (Hclick : reveal b (0, 0) = Fail IndexError).
    { unfold reveal, flagged. rewrite Hgo. simpl.
      rewrite (grid_get_off _ _ _ (wf_flagged b Hwf) (0, 0)); [done|].
      rewrite Er, Ec. simpl. lia. }
    destruct (bool_decide _).
    + unfold play_game.
      rewrite Er, Ec, (all_cells_degenerate rows cols Hneg). simpl.
      by rewrite Hclick.
    + unfold Phase2_play_game, play_game_of.
      rewrite Er, Ec, (all_cells_degenerate rows cols Hneg). simpl.
      by rewrite Hclick.
Qed.
End RunExperiments.

Lemma run_experiments_returns_witness :
  exists e, @run_experiments counter_random counter_randint 1 7 1 2 "Phase2"
              0%nat 0%nat = Returned e /\ 0 <= wins e <= 2.
Proof.
  destruct (@run_experiments_returns counter_random counter_randint 1 7 1 2
              "Phase2" 0%nat 0%nat ltac:(lia) ltac:(lia) ltac:(lia) ltac:(lia))
    as (e & H1 & _ & H2 & _).
  exists e. split; [exact H1 | exact H2].
Defined.

Example run_experiments_two_games :
  @run_experiments counter_random counter_randint 1 7 1 2 "phase1" 0%nat 0%nat
  = Returned (mkExperiment 1 2 (1 # 2) (1 # 2) (1 # 2) (1 # 2)).
Proof. vm_compute. reflexivity. Qed.

(** * The guess of [Phase2Agent] *)

Lemma prob_range (mine_count total : Z) :
  0 <= mine_count <= total -> 0 < total ->
  (0 <= prob mine_count total)%Q /\ (prob mine_count total <= 1)%Q.
Proof.
  intros Hm Ht. unfold prob, Qle. simpl. rewrite Z2Pos.id by done. lia.
Qed.

Lemma least_risk_ext (P P' : Coord -> Q -> Prop) (s : Search) :
  (forall w q, P w q <-> P' w q) -> least_risk P s -> least_risk P' s.
Proof.
  intros Hext [H1 H2 H3 H4]. constructor.
  - intros w q Hw. apply (H1 w), Hext, Hw.
  - destruct (best_cell s) as [v|]; [by apply Hext|].
    destruct H2 as [? Hno]. split; [done|]. intros w q Hw.
    apply (Hno w q), Hext, Hw.
  - intros w q Hw. apply (H3 w), Hext, Hw.
  - intros w q Hw. apply (H4 w), Hext, Hw.
Qed.

Section Least.
Variable cs : gmap Coord (Z * Z).

Lemma rate_var_least (P : Coord -> Q -> Prop) (s : Search) (v : Coord)
    (mine_count total : Z) :
  cs !! v = Some (mine_count, total) ->
  0 <= mine_count <= total -> 0 < total ->
  (forall w q, P w q -> (0 <= q)%Q /\ (q <= 1)%Q) ->
  least_risk P s ->
  exists s', rate_var cs s v = Ok s' /\
    least_risk (fun w q => P w q \/ (w = v /\ q = prob mine_count total)) s'.
Proof.
  intros Hcs Hm Ht Hrange [H1 H2 H3 H4].
  destruct (prob_range mine_count total Hm Ht) as [Hp0 Hp1].
  unfold rate_var, map_get. rewrite Hcs. simpl.
  set (p := prob mine_count total) in *.
  set (s1 := if Qeq_bool p 0
             then mkSearch (best_cell s) (best_prob s) (certain_flag s) (Some v)
             else if Qeq_bool p 1
                  then mkSearch (best_cell s) (best_prob s) (Some v) (certain_safe s)
                  else s).
  assert (Hb1 : best_cell s1 = best_cell s /\ best_prob s1 = best_prob s).
  { unfold s1. destruct (Qeq_bool p 0); [done|]. by destruct (Qeq_bool p 1). }
  assert (Hsafe1 : certain_safe s <> None \/ (p == 0)%Q -> certain_safe s1 <> None).
  { unfold s1. intros [Hs|Hz].
    - destruct (Qeq_bool p 0); [done|]. by destruct (Qeq_bool p 1).
    - apply Qeq_bool_iff in Hz. by rewrite Hz. }
  assert (Hflag1 : certain_flag s <> None \/ (p == 1)%Q -> certain_flag s1 <> None).
  { unfold s1. intros [Hs|Hz].
    - destruct (Qeq_bool p 0); [done|]. by destruct (Qeq_bool p 1).
    - destruct (Qeq_bool p 0) eqn:E0.
      + apply Qeq_bool_iff in E0. rewrite E0 in Hz. discriminate.
      + apply Qeq_bool_iff in Hz. by rewrite Hz. }
  destruct Hb1 as [Hbc Hbp].
  eexists. split; [reflexivity|]. fold s1.
  destruct (Qle_bool (best_prob s1) p) eqn:Hle; simpl.
  - apply Qle_bool_iff in Hle. rewrite Hbp in Hle. constructor.
    + intros w q [Hw|[-> ->]]; rewrite Hbp; [by apply (H1 w) | done].
    + rewrite Hbc, Hbp. destruct (best_cell s) as [v0|]; [by left|].
      destruct H2 as [Hinit _]. rewrite Hinit in Hle. exfalso.
      assert (Hbad : (11 # 10 <= 1)%Q) by (by eapply Qle_trans).
      unfold Qle in Hbad. simpl in Hbad. lia.
    + intros w q [Hw|[-> ->]] Hq; apply Hsafe1; [left; by apply (H3 w q) | by right].
    + intros w q [Hw|[-> ->]] Hq; apply Hflag1; [left; by apply (H4 w q) | by right].
  - assert (Hlt : (p < best_prob s)%Q).
    { apply Qnot_le_lt. intros Hc. apply Qle_bool_iff in Hc.
      rewrite Hbp in Hle. congruence. }
    constructor; simpl.
    + intros w q [Hw|[-> ->]]; [|apply Qle_refl].
      apply Qlt_le_weak. eapply Qlt_le_trans; [exact Hlt | by apply (H1 w)].
    + by right.
    + intros w q [Hw|[-> ->]] Hq; apply Hsafe1; [left; by apply (H3 w q) | by right].
    + intros w q [Hw|[-> ->]] Hq; apply Hflag1; [left; by apply (H4 w q) | by right].
Qed.

Lemma rate_vars_least (vars : list Coord) :
  forall (P : Coord -> Q -> Prop) (s : Search),
    (forall v, v ∈ vars -> exists mine_count total,
       cs !! v = Some (mine_count, total) /\ 0 <= mine_count <= total /\ 0 < total) ->
    (forall w q, P w q -> (0 <= q)%Q /\ (q <= 1)%Q) ->
    least_risk P s ->
    exists s', rate_vars cs s vars = Ok s' /\
      least_risk (fun w q => P w q \/
        (w ∈ vars /\ exists mine_count total,
           cs !! w = Some (mine_count, total) /\ q = prob mine_count total)) s'.
Proof.
  induction vars as [|v vars IH]; intros P s Hvars Hrange Hs; simpl.
  { exists s. split; [done|]. apply (least_risk_ext P); [|done].
    intros w q. split; [by left|]. intros [?|[Hw _]]; [done|].
    by apply elem_of_nil in Hw. }
  destruct (Hvars v (list_elem_of_here _ _)) as (mc & t & Hcs & Hm & Ht).
  destruct (rate_var_least P s v mc t Hcs Hm Ht Hrange Hs) as (s1 & -> & Hs1).
  simpl.
  destruct (IH (fun w q => P w q \/ (w = v /\ q = prob mc t)) s1) as (s2 & -> & Hs2).
  - intros w Hw. apply Hvars. by apply list_elem_of_further.
  - intros w q [Hw|[-> ->]]; [by apply (Hrange w) | by apply prob_range].
  - done.
  - exists s2. split; [done|]. eapply least_risk_ext; [|exact Hs2].
    intros w q. rewrite elem_of_cons. split.
    + intros [[?|[-> ->]]|[? ?]].
      * by left.
      * right. split; [by left|]. by exists mc, t.
      * right. split; [by right | done].
    + intros [?|[[->|Hw] (mc' & t' & Hcs' & ->)]].
      * left. by left.
      * left. right. split; [done|]. congruence.
      * right. split; [done|]. by exists mc', t'.
Qed.
End Least.

Lemma neighbor_buckets_total (b : Board) (st : AgentView) (cell : Coord) :
  cell ∈ (numbers st).*1 -> exists r, neighbor_buckets b cell st = Ok r.
Proof.
  intros Hin. unfold neighbor_buckets. destruct (bucket st _) as [cov flg].
  pose proof (dict_get_cases (numbers st) cell) as Hget.
  destruct (dict_get (numbers st) cell) as [n|e]; simpl; [eauto|].
  by destruct Hget as [_ Hn].
Qed.

Lemma local_constraints_loop_total (b : Board) (st : AgentView)
    (comp : gset Coord) (items : list (Coord * Z)) :
  (forall item, item ∈ items -> item.1 ∈ (numbers st).*1) ->
  forall acc, exists lcs, local_constraints_loop b st comp items acc = Ok lcs.
Proof.
  induction items as [|[cell n] items IH]; intros Hkeys acc; simpl; [eauto|].
  destruct (neighbor_buckets_total b st cell) as ([[cov flg] nreq] & ->).
  { apply (Hkeys (cell, n)), list_elem_of_here. }
  simpl.
  assert (Hkeys' : forall item, item ∈ items -> item.1 ∈ (numbers st).*1).
  { intros item Hi. apply Hkeys. by apply list_elem_of_further. }
  destruct (local_constraint_of comp cov flg nreq); by apply IH.
Qed.

(** The constraints of a component are built for any view, and their
    variables are cells of the component. *)
Lemma build_local_constraints_any (b : Board) (st : AgentView)
    (comp : gset Coord) :
  exists lcs, build_local_constraints b st comp = Ok lcs /\
    forall c, c ∈ lcs -> forall v, v ∈ c.1 -> v ∈ comp.
Proof.
  unfold build_local_constraints.
  destruct (local_constraints_loop_total b st comp (numbers st)) with (acc := @nil Constraint)
    as (lcs & Hlcs).
  { intros item Hi. apply list_elem_of_fmap. by exists item. }
  exists lcs. split; [done|].
  apply (local_constraints_loop_vars b st comp (numbers st) [] lcs); [|done].
  intros c Hc. by apply elem_of_nil in Hc.
Qed.

Lemma brute_counts_range (lcs : list Constraint) (vars : list Coord) (v : Coord) :
  0 <= brute_mines lcs vars v <= brute_total lcs vars.
Proof.
  unfold brute_mines, brute_total. split.
  - apply count_bounds.
  - apply count_mono. intros a Ha. by apply andb_true_iff in Ha as [? _].
Qed.

Lemma eval_components_least (max_component_size : Z) (b : Board)
    (st : AgentView) (comps : list (gset Coord)) :
  forall (P : Coord -> Q -> Prop) (s : Search),
    (forall w q, P w q -> (0 <= q)%Q /\ (q <= 1)%Q) ->
    least_risk P s ->
    exists s', eval_components max_component_size b st comps s = Ok s' /\
      (certain_flag s' = None -> certain_safe s' = None ->
       least_risk (fun w q => P w q \/
         exists comp lcs, comp ∈ comps /\
           rated max_component_size b st comp lcs /\ w ∈ comp /\
           q = mine_prob lcs comp w) s').
Proof.
  induction comps as [|comp comps IH]; intros P s Hrange Hs; simpl.
  { exists s. split; [done|]. intros _ _. apply (least_risk_ext P); [|done].
    intros w q. split; [by left|]. intros [?|(c & _ & Hc & _)]; [done|].
    by apply elem_of_nil in Hc. }
  (* a component that is passed over adds nothing *)
  assert (Hskip : (forall lcs, ~ rated max_component_size b st comp lcs) ->
    exists s', eval_components max_component_size b st comps s = Ok s' /\
      (certain_flag s' = None -> certain_safe s' = None ->
       least_risk (fun w q => P w q \/
         exists comp0 lcs, comp0 ∈ comp :: comps /\
           rated max_component_size b st comp0 lcs /\ w ∈ comp0 /\
           q = mine_prob lcs comp0 w) s')).
  { intros Hnot. destruct (IH P s Hrange Hs) as (s' & Heq & Hs').
    exists s'. split; [done|]. intros Hf Hsf.
    eapply least_risk_ext; [|exact (Hs' Hf Hsf)].
    intros w q. split.
    - intros [?|(c & l & Hc & ?)]; [by left|]. right. exists c, l.
      split; [by apply list_elem_of_further | done].
    - intros [?|(c & l & Hc & Hr & ?)]; [by left|]. right. exists c, l.
      apply elem_of_cons in Hc as [->|Hc]; [by destruct (Hnot l) | done]. }
  destruct (Z.of_nat (size comp) >? max_component_size) eqn:Hsize.
  { apply Hskip. intros lcs (Hle & _). lia. }
  destruct (build_local_constraints_any b st comp) as (lcs & Hlcs & Hvars).
  rewrite Hlcs. simpl. destruct lcs as [|c0 lcs0].
  { apply Hskip. intros lcs (_ & Hb & Hne & _). congruence. }
  destruct (enumerate_spec (c0 :: lcs0) (elements comp) (NoDup_elements comp))
    as (e & -> & _ & Htot & Hcounts).
  { intros c Hc v Hvc. apply elem_of_elements. by apply (Hvars c). }
  simpl. destruct (total_models e =? 0) eqn:Hz.
  { apply Hskip. intros lcs (_ & Hb & _ & Hne). apply Z.eqb_eq in Hz.
    rewrite Hlcs in Hb. simplify_eq. congruence. }
  apply Z.eqb_neq in Hz.
  pose proof (brute_counts_range (c0 :: lcs0) (elements comp)) as Hbr.
  assert (Hpos : 0 < brute_total (c0 :: lcs0) (elements comp)).
  { pose proof (count_bounds (is_model (c0 :: lcs0))
                  (all_assignments (elements comp))) as Hb.
    unfold brute_total in *. lia. }
  assert (Hrated : rated max_component_size b st comp (c0 :: lcs0)).
  { split_and!; [lia | done | done | congruence]. }
  destruct (rate_vars_least (counts e) (elements comp) P s) as (s1 & -> & Hs1);
    [|done|done|].
  { intros v Hv. eexists _, _. split; [by apply Hcounts|]. split; [apply Hbr | done]. }
  simpl.
  set (P1 := fun w q => P w q \/
    (w ∈ elements comp /\ exists mine_count total,
       counts e !! w = Some (mine_count, total) /\ q = prob mine_count total)).
  fold P1 in Hs1.
  assert (HP1 : forall w q, P1 w q <->
    P w q \/ exists lcs, rated max_component_size b st comp lcs /\ w ∈ comp /\
                q = mine_prob lcs comp w).
  { intros w q. unfold P1. split.
    - intros [?|(Hw & mc & t & Hcs & ->)]; [by left|]. right.
      exists (c0 :: lcs0). rewrite (Hcounts w Hw) in Hcs. simplify_eq.
      split; [done|]. split; [by apply elem_of_elements | done].
    - intros [?|(l & (_ & Hb & _) & Hw & ->)]; [by left|]. right.
      rewrite Hlcs in Hb. simplify_eq.
      apply elem_of_elements in Hw. split; [done|].
      eexists _, _. split; [by apply Hcounts | done]. }
  destruct (bool_decide (is_Some (certain_flag s1))
            || bool_decide (is_Some (certain_safe s1))) eqn:Hbreak.
  { exists s1. split; [done|]. intros Hf Hsf. rewrite Hf, Hsf in Hbreak.
    rewrite !bool_decide_eq_false_2 in Hbreak by (by intros [? ?]). done. }
  destruct (IH P1 s1) as (s' & Heq & Hs'); [|done|].
  { intros w q [Hw|(Hw & mc & t & Hcs & ->)]; [by apply (Hrange w)|].
    rewrite (Hcounts w Hw) in Hcs. simplify_eq. by apply prob_range. }
  exists s'. split; [done|]. intros Hf Hsf.
  eapply least_risk_ext; [|exact (Hs' Hf Hsf)].
  intros w q. split.
  - intros [Hp1|(c & l & Hc & ?)].
    + apply HP1 in Hp1 as [?|(l & Hr & Hw & ->)]; [by left|].
      right. exists comp, l. split; [apply list_elem_of_here | done].
    + right. exists c, l. split; [by apply list_elem_of_further | done].
  - intros [?|(c & l & Hc & Hr & Hw & ->)]; [left; apply HP1; by left|].
    apply elem_of_cons in Hc as [->|Hc].
    + left. apply HP1. right. by exists l.
    + right. by exists c, l.
Qed.

(** X22.  The loop over the components in [Phase2Agent.choose_action]
    raises nothing.  When it ends without a certain mine and without a
    certain safe cell, every component within the size bound that has a
    constraint and a model was enumerated, and [best_cell] is a cell of
    one of them whose share of models with a mine there, strictly
    between 0 and 1, is the least over all cells of all of them; it is
    [None] only when no such component has a cell.  This is the cell the
    agent then reveals as a guess. *)
Theorem guess_has_the_least_mine_probability (max_component_size : Z)
    (b : Board) (st : AgentView) (comps : list (gset Coord)) :
  exists s,
    eval_components max_component_size b st comps
      (mkSearch None (11 # 10) None None) = Ok s /\
    (certain_flag s = None -> certain_safe s = None ->
     match best_cell s with
     | Some v =>
         (exists comp lcs, comp ∈ comps /\
            rated max_component_size b st comp lcs /\ v ∈ comp /\
            best_prob s = mine_prob lcs comp v) /\
         (0 < best_prob s)%Q /\ (best_prob s < 1)%Q /\
         forall comp lcs w, comp ∈ comps ->
           rated max_component_size b st comp lcs -> w ∈ comp ->
           (best_prob s <= mine_prob lcs comp w)%Q
     | None =>
         forall comp lcs, comp ∈ comps ->
           rated max_component_size b st comp lcs -> comp = ∅
     end).
Proof.
  destruct (eval_components_least max_component_size b st comps
              (fun _ _ => False) (mkSearch None (11 # 10) None None))
    as (s & Heq & Hs).
  { intros w q []. }
  { constructor; simpl; try (intros w q []). split; [done|]. by intros w q []. }
  exists s. split; [done|]. intros Hf Hsf.
  destruct (Hs Hf Hsf) as [H1 H2 H3 H4].
  assert (Hrange : forall comp lcs w,
    rated max_component_size b st comp lcs ->
    (0 <= mine_prob lcs comp w)%Q /\ (mine_prob lcs comp w <= 1)%Q).
  { intros comp lcs w (_ & _ & _ & Hne). apply prob_range.
    - apply brute_counts_range.
    - pose proof (count_bounds (is_model lcs) (all_assignments (elements comp))).
      unfold brute_total in *. lia. }
  destruct (best_cell s) as [v|].
  - destruct H2 as [[]|(comp & lcs & Hc & Hr & Hv & Hq)].
    split; [by exists comp, lcs|].
    assert (Hin : (fun w q => False \/
      exists comp lcs, comp ∈ comps /\ rated max_component_size b st comp lcs /\
        w ∈ comp /\ q = mine_prob lcs comp w) v (best_prob s)).
    { right. by exists comp, lcs. }
    destruct (Hrange comp lcs v Hr) as [H0 Hle1]. rewrite <- Hq in H0, Hle1.
    split; [|split].
    + apply Qle_lt_or_eq in H0 as [?|Heq0]; [done|].
      exfalso. apply (H3 v (best_prob s) Hin); [by symmetry | done].
    + apply Qle_lt_or_eq in Hle1 as [?|Heq1]; [done|].
      exfalso. by apply (H4 v (best_prob s) Hin).
    + intros comp' lcs' w Hc' Hr' Hw. apply (H1 w). right. by exists comp', lcs'.
  - destruct H2 as [_ Hno]. intros comp lcs Hc Hr.
    apply leibniz_equiv. intros w. split; [|by intros ?%elem_of_empty].
    intros Hw. exfalso. apply (Hno w (mine_prob lcs comp w)).
    right. by exists comp, lcs.
Qed.

(** The 1-2-1 pattern: a revealed row 1 2 1 above three covered cells.
    No single-point rule fires and the fallback of [Phase1Agent] would
    reveal the mine (1,0); the enumeration has one model, with mines
    under the two 1s, and [Phase2Agent] flags a mine instead. *)
Example Phase2_solves_one_two_one :
  let b := mkBoard 2 3 2
             [[false; false; false]; [true; false; true]]
             [[true; true; true]; [false; false; false]]
             [[false; false; false]; [false; false; false]]
             [[1; 2; 1]; [-1; 2; -1]]
             false None in
  @Phase1_choose_action counter_random (@Phase2Agent_init counter_random 0) b
  = Ok (Some (act_reveal (1, 0)), @mkAgent counter_random 1%nat false) /\
  @Phase2_choose_action counter_random 14 (@Phase2Agent_init counter_random 0)
    0%nat b
  = Ok (Some (act_flag (1, 2)), @mkAgent counter_random 1%nat true, 0%nat).
Proof. split; vm_compute; reflexivity. Qed.

(** * [Agent.play_game] of the base class *)

Lemma flag_keeps_revealed (b b' : Board) (p : Coord) :
  flag b p = Ok b' -> _revealed b' = _revealed b.
Proof.
  unfold flag. intros Hf. inv_bind Hf. destruct x; [by simplify_eq|].
  inv_bind Hf. by simplify_eq.
Qed.

Section BaseAgentLoop.
Context {St : Type}.
Variable choose_action : St -> Board -> res (option Action * St).

Lemma Agent_play_loop_frame (fuel : nat) :
  forall st b out out' st' b',
    Agent_play_loop choose_action fuel st b out = Ok (out', st', b') ->
    _revealed b' = _revealed b /\ guess_moves out' = guess_moves out /\
    logic_moves out' - logic_moves out = flags_set out' - flags_set out.
Proof.
  induction fuel as [|fuel IH]; intros st b out out' st' b' Hloop; simpl in Hloop.
  - destruct (_game_over b); [|done]. simplify_eq. split_and!; [done | done | lia].
  - destruct (_game_over b).
    { simplify_eq. split_and!; [done | done | lia]. }
    inv_bind Hloop. destruct x as [[[p|p]|] st1].
    + inv_bind Hloop. apply IH in Hloop as (Hr & Hg & Hl). simpl in Hg, Hl.
      rewrite (flag_keeps_revealed b x p Hx0) in Hr.
      split_and!; [done | done | lia].
    + by apply IH in Hloop.
    + simplify_eq. split_and!; [done | done | lia].
Qed.

Lemma Agent_play_loop_spins (b : Board) :
  (forall st0, exists p st1, choose_action st0 b = Ok (Some (act_reveal p), st1)) ->
  _game_over b = false ->
  forall fuel st out, Agent_play_loop choose_action fuel st b out = Fail OutOfFuel.
Proof.
  intros Hrev Hgo. induction fuel as [|fuel IH]; intros st out; simpl;
    rewrite Hgo; [done|].
  destruct (Hrev st) as (p & st1 & ->). simpl. apply IH.
Qed.

(** X23.  [play_game] of the base class [Agent] never reveals a cell in
    its loop: when the loop returns, the revealed cells are those it
    started with, no guess was counted and every logic move is a flag.
    On a board in progress for which [choose_action] answers a reveal,
    whatever the agent's state, the loop makes no progress and never
    returns, however many rounds it is given. *)
Theorem Agent_play_game_never_reveals (fuel : nat) (st : St) (b : Board)
    (out : AgentOutcome) :
  (forall out' st' b',
     Agent_play_loop choose_action fuel st b out = Ok (out', st', b') ->
     _revealed b' = _revealed b /\ guess_moves out' = guess_moves out /\
     logic_moves out' - logic_moves out = flags_set out' - flags_set out) /\
  ((forall st0, exists p st1,
      choose_action st0 b = Ok (Some (act_reveal p), st1)) ->
   game_over b = false ->
   Agent_play_loop choose_action fuel st b out = Fail OutOfFuel).
Proof.
  split; [apply Agent_play_loop_frame|].
  intros Hrev Hgo. by apply Agent_play_loop_spins.
Qed.
End BaseAgentLoop.

(** With the single-point agent's method the base loop flags the mine of
    [line7_mid] and then spins on the guess it never plays. *)
Example Agent_play_game_spins :
  @Agent_play_game (@Agent counter_random) (@Phase1_choose_action counter_random)
    50 (@Phase1Agent_init counter_random 0) line7_mid
  = Fail OutOfFuel.
Proof. vm_compute. reflexivity. Qed.

(** * The flag command of the interfaces *)

Lemma toggle_flag_idle (b : Board) (p : Coord) :
  wf_board b -> on_board b p ->
  _game_over b = true \/ revb b p = true -> toggle_flag b p = Ok b.
Proof.
  intros Hwf Hp Hidle. unfold toggle_flag, game_over.
  destruct (_game_over b); [done|]. rewrite (read_revealed b Hwf p Hp). simpl.
  destruct Hidle as [?|Hr]; [done|]. by rewrite Hr.
Qed.

Lemma toggle_flag_live (b : Board) (p : Coord) :
  wf_board b -> on_board b p -> _game_over b = false -> revb b p = false ->
  exists g, grid_set (_flagged b) p (negb (flgb b p)) = Ok g /\
    toggle_flag b p = Ok (set_flagged b g) /\
    wf_board (set_flagged b g) /\ flgb (set_flagged b g) p = negb (flgb b p).
Proof.
  intros Hwf Hp Hgo Hrb.
  destruct (write_flagged b Hwf p Hp (negb (flgb b p))) as (g & Hg & Hwf' & Hnew & _).
  exists g. split; [done|]. split; [|done].
  unfold toggle_flag, game_over. rewrite Hgo, (read_revealed b Hwf p Hp), Hrb.
  simpl. rewrite (read_flagged b Hwf p Hp). simpl.
  destruct (flgb b p); simpl in Hg.
  - unfold unflag. by rewrite Hgo, Hg.
  - unfold flag. rewrite Hgo. simpl. rewrite (read_revealed b Hwf p Hp), Hrb.
    simpl. by rewrite Hg.
Qed.

(** X24.  The flag command of the GUI and of the manual play toggles:
    on a cell of the grid it raises nothing; on a board in progress it
    flips the flag of an unrevealed cell and leaves a revealed cell
    alone; on a finished board it changes nothing; and giving it twice
    gives back the very board it started from. *)
Theorem toggle_flag_twice_restores_the_board (b : Board) (p : Coord) :
  wf_board b -> in_bounds b p = true ->
  exists b' f, toggle_flag b p = Ok b' /\ flagged b p = Ok f /\
    toggle_flag b' p = Ok b /\
    (game_over b = true \/ revealed b p = Ok true -> b' = b) /\
    (game_over b = false -> revealed b p = Ok false ->
     flagged b' p = Ok (negb f) /\ revealed b' p = Ok false).
Proof.
  intros Hwf Hp. apply in_bounds_spec in Hp.
  pose proof (read_flagged b Hwf p Hp) as Hfl.
  pose proof (read_revealed b Hwf p Hp) as Hrv.
  unfold game_over. rewrite Hrv.
  destruct (decide (_game_over b = true \/ revb b p = true)) as [Hidle|Hlive].
  { exists b, (flgb b p). rewrite (toggle_flag_idle b p Hwf Hp Hidle).
    split_and!; try done. intros Hgo Hr. exfalso.
    destruct Hidle as [?|Hr']; [congruence|]. rewrite Hr' in Hr. done. }
  assert (Hgo : _game_over b = false) by (destruct (_game_over b); tauto).
  assert (Hrb : revb b p = false) by (destruct (revb b p); tauto).
  destruct (toggle_flag_live b p Hwf Hp Hgo Hrb) as (g & Hg & Heq & Hwf' & Hnew).
  exists (set_flagged b g), (flgb b p). split; [done|]. split; [done|].
  assert (Hrb' : revb (set_flagged b g) p = false) by exact Hrb.
  split; [|split].
  - destruct (toggle_flag_live (set_flagged b g) p Hwf' Hp Hgo Hrb')
      as (g2 & Hg2 & Heq2 & _).
    rewrite Heq2. f_equal. rewrite Hnew, negb_involutive in Hg2.
    change (_flagged (set_flagged b g)) with g in Hg2.
    rewrite (grid_set_undo _ _ _ (wf_flagged b Hwf) g p _ _ Hp Hfl Hg) in Hg2.
    simplify_eq. apply set_flagged_undo.
  - intros [?|Hr]; [congruence|]. rewrite Hrb in Hr. done.
  - intros _ _. rewrite (read_flagged _ Hwf' p Hp), Hnew.
    by rewrite (read_revealed _ Hwf' p Hp), Hrb'.
Qed.

Lemma toggle_flag_twice_restores_the_board_witness :
  exists b' f, toggle_flag line7 (0, 1) = Ok b' /\ flagged line7 (0, 1) = Ok f /\
    toggle_flag b' (0, 1) = Ok line7.
Proof.
  destruct (toggle_flag_twice_restores_the_board line7 (0, 1) line7_wf eq_refl)
    as (b' & f & H1 & H2 & H3 & _).
  exists b', f. split; [exact H1|]. split; [exact H2 | exact H3].
Defined.

(** * [render_board] *)

Lemma map_res_ext {A B : Type} (f g : A -> res B) (l : list A) :
  (forall x, x ∈ l -> f x = g x) -> map_res f l = map_res g l.
Proof.
  induction l as [|x l IH]; intros Hfg; simpl; [done|].
  rewrite (Hfg x) by apply list_elem_of_here.
  rewrite IH; [done|]. intros y Hy. apply Hfg. by apply list_elem_of_further.
Qed.

Lemma map_res_total {A B : Type} (f : A -> res B) (l : list A) :
  (forall x, x ∈ l -> exists y, f x = Ok y) ->
  exists ys, map_res f l = Ok ys /\ length ys = length l.
Proof.
  induction l as [|x l IH]; intros Hf; simpl; [by exists []|].
  destruct (Hf x) as [y ->]; [apply list_elem_of_here|]. simpl.
  destruct IH as (ys & -> & Hlen).
  { intros z Hz. apply Hf. by apply list_elem_of_further. }
  exists (y :: ys). simpl. by rewrite Hlen.
Qed.

Lemma cell_char_total (b : Board) (p : Coord) :
  wf_board b -> on_board b p ->
  cell_char b p =
  Ok (if flgb b p then "F"
      else if negb (revb b p) then "#"
      else if mineb b p then "*"
      else if adjz b p >? 0 then pretty (adjz b p) else ".").
Proof.
  intros Hwf Hp. unfold cell_char.
  rewrite (read_flagged b Hwf p Hp). simpl. destruct (flgb b p); [done|].
  rewrite (read_revealed b Hwf p Hp). simpl. destruct (revb b p); [|done]. simpl.
  rewrite (read_mine b Hwf p Hp). simpl. destruct (mineb b p); [done|].
  by rewrite (read_adj b Hwf p Hp).
Qed.

(** X25.  [render_board] raises nothing on a well-formed board and
    shows nothing of what is hidden: two boards with the same size, the
    same flags, the same revealed cells and the same content in their
    revealed, unflagged cells are printed as the same text, wherever
    their other mines are. *)
Theorem render_board_shows_only_what_is_revealed (b b' : Board) :
  wf_board b -> wf_board b' -> same_look b b' ->
  exists text, render_board b = Ok text /\ render_board b' = Ok text.
Proof.
  intros Hwf Hwf' (Er & Ec & Hlook).
  assert (Hrow : forall r, r ∈ range (rows b) ->
    exists row, map_res (fun c => cell_char b (r, c)) (range (cols b)) = Ok row /\
      map_res (fun c => cell_char b' (r, c)) (range (cols b)) = Ok row).
  { intros r Hr. apply elem_of_range in Hr.
    destruct (map_res_total (fun c => cell_char b (r, c)) (range (cols b)))
      as (row & Hrow & _).
    { intros c Hc. apply elem_of_range in Hc. rewrite cell_char_total; eauto.
      split; simpl; lia. }
    exists row. split; [done|]. rewrite <- Hrow. apply map_res_ext.
    intros c Hc. apply elem_of_range in Hc.
    assert (Hp : on_board b (r, c)) by (split; simpl; lia).
    assert (Hp' : on_board b' (r, c)) by (unfold on_board; by rewrite Er, Ec).
    rewrite !cell_char_total by done.
    destruct (Hlook (r, c) Hp) as (-> & -> & Hvis). f_equal.
    destruct (flgb b (r, c)); [done|]. destruct (revb b (r, c)); [|done]. simpl.
    destruct (Hvis eq_refl eq_refl) as [-> Hadj].
    destruct (mineb b (r, c)); [done|]. by rewrite Hadj. }
  destruct (map_res_total (render_row b) (range (rows b))) as (chars & Hchars & _).
  { intros r Hr. destruct (Hrow r Hr) as (row & Hr1 & _).
    unfold render_row. rewrite Hr1. simpl. eauto. }
  exists (join (String (Ascii.ascii_of_nat 10) EmptyString) chars).
  unfold render_board. rewrite Er, Hchars. simpl. split; [done|].
  rewrite (map_res_ext (render_row b') (render_row b)); [by rewrite Hchars|].
  intros r Hr. destruct (Hrow r Hr) as (row & Hr1 & Hr2).
  unfold render_row. by rewrite Ec, Hr1, Hr2.
Qed.

(** Two rows of seven cells that differ in where their second mine is
    hidden. *)
Lemma render_board_shows_only_what_is_revealed_witness :
  exists text,
    render_board (mkBoard 1 7 2
      [[false; false; false; true; false; true; false]]
      [[true; true; true; false; false; false; false]]
      [[false; false; false; false; false; false; false]]
      [[0; 0; 1; -1; 2; -1; 1]] false None) = Ok text /\
    render_board (mkBoard 1 7 2
      [[false; false; false; true; false; false; true]]
      [[true; true; true; false; false; false; false]]
      [[false; false; false; false; false; false; false]]
      [[0; 0; 1; -1; 1; 1; -1]] false None) = Ok text.
Proof.
  assert (Hcells : forall (P : Coord -> Prop),
    P (0, 0) -> P (0, 1) -> P (0, 2) -> P (0, 3) -> P (0, 4) -> P (0, 5) ->
    P (0, 6) -> forall p, inb 1 7 p -> P p).
  { intros P H0 H1 H2 H3 H4 H5 H6 [r c] [Hr Hc]. simpl in Hr, Hc.
    assert (r = 0) as -> by lia.
    assert (c = 0 \/ c = 1 \/ c = 2 \/ c = 3 \/ c = 4 \/ c = 5 \/ c = 6)
      as Hcs by lia.
    destruct Hcs as [->|[->|[->|[->|[->|[->| ->]]]]]]; assumption. }
  apply render_board_shows_only_what_is_revealed.
  - split; try (split; [reflexivity | apply Forall_cons; split;
                         [reflexivity | apply Forall_nil_2]]).
    apply Hcells; reflexivity.
  - split; try (split; [reflexivity | apply Forall_cons; split;
                         [reflexivity | apply Forall_nil_2]]).
    apply Hcells; reflexivity.
  - split; [reflexivity|]. split; [reflexivity|].
    apply Hcells; (split; [reflexivity|]; split; [reflexivity|];
      intros Hrv _; vm_compute in Hrv;
      first [discriminate Hrv | split; [reflexivity | intros _; reflexivity]]).
Defined.

Example render_board_line :
  render_board line7_mid_open = Ok ". . 1 # # # #".
Proof. vm_compute. reflexivity. Qed.
